(** * ytranscript: bulk scheduler, loaders and track selection

    A shallow embedding of the transcript tool's bulk processor
    ([src/lib/processor.ts]), of its loaders ([src/loaders/index.ts],
    [src/loaders/history.ts], [src/loaders/watchLater.ts]), of the
    caption-track selector and of the [bulk] command ([src/cli.ts]),
    together with the properties the design document states about them.

    Conventions.
    - JavaScript strings are [string]s whose characters stand for code
      units below 256.
    - The numeric options [concurrency], [pauseAfter] and [pauseDuration]
      range over [Z]; [NaN], infinities and fractions are outside the model.
      The command line reads them with [Number.parseInt], which gives an
      integer or [NaN] ([Cli.Parsed]).
    - A plain object holding strings is the finite map of its own
      properties ([Js.set_property]).
    - Effects are recorded in a trace of [Event]s: an attempt being
      dispatched, an attempt completing, a call of the progress callback,
      an idle period, an item handed to the consumer of the stream.
    - A loop whose termination depends on its input is run with fuel;
      running out of fuel is the outcome [Diverged]. *)

From Stdlib Require Import ZArith Lia List String Ascii Bool QArith.
From stdpp Require Import base list strings gmap.
Import ListNotations.

Local Open Scope string_scope.
Local Open Scope list_scope.
Local Open Scope Z_scope.

(** ** Data model

    [src/types.ts] is not among the sources at hand.  The records of the
    candidates and of the results list the fields the loaders and the
    processor read and write. *)

Inductive Source := history | watch_later | manual.

Record Channel := mkChannel {
  channel_name : option string;
  channel_url : option string
}.

(** [WatchHistoryMeta]: one candidate video. *)
Record WatchHistoryMeta := mkMeta {
  videoId : string;
  title : option string;
  url : option string;
  channel : option Channel;
  watchedAt : option string;
  source : Source
}.

(** Modelled from the spec: the transcript types of [src/types.ts]
    (design section 3); the processor only passes transcripts along. *)
Record TranscriptSegment := mkSegment {
  seg_text : string;
  seg_start : Q;
  seg_duration : Q
}.

Record Transcript := mkTranscript {
  t_videoId : string;
  t_language : string;
  t_isAutoGenerated : bool;
  t_segments : list TranscriptSegment
}.

(** [TranscriptResult]: [{ meta, transcript }] on success (no [error]
    key), [{ meta, transcript: null, error }] on failure. *)
Record TranscriptResult := mkResult {
  meta : WatchHistoryMeta;
  transcript : option Transcript;
  error : option string
}.

(** Modelled from the spec: the options of a single fetch (design
    section 4.5: languages, timeout, proxy), passed on untouched. *)
Record FetchOptions := mkFetchOptions {
  languages : option (list string);
  timeout : option Z;
  proxy : option string
}.

(** [BulkOptions]: every field is optional in the source; [None] is an
    absent key.  [onProgress] tells whether a callback was supplied: its
    calls are the [EvProgress] events of the trace, and it is taken to
    return normally. *)
Record BulkOptions := mkBulkOptions {
  concurrency : option Z;
  pauseAfter : option Z;
  pauseDuration : option Z;
  skipIds : option (gset string);
  onProgress : bool;
  fetchOptions : FetchOptions
}.

(** What a JavaScript [throw] carries: an [Error] object with its
    message, or any other value. *)
Inductive Thrown :=
| ThrownError (message : string)
| ThrownOther.

(** The single-video fetcher ([src/lib/fetcher.ts]) is outside the sources
    at hand: it is an interface the scheduler is parametrised by.  Every
    call settles (a request has its own timeout): it resolves to a
    transcript or rejects with a thrown value. *)
Class Fetcher := {
  fetchTranscript : string -> FetchOptions -> Transcript + Thrown
}.

(** Observable effects of a bulk run. *)
Inductive Event :=
| EvStart (m : WatchHistoryMeta)
| EvDone (r : TranscriptResult)
| EvProgress (completed total : nat) (r : TranscriptResult)
| EvSleep (ms : Z)
| EvYield (r : TranscriptResult).

(** How a call ends. *)
Inductive Outcome (A : Type) :=
| Returned (a : A)
| Threw (t : Thrown)
| Diverged.
Arguments Returned {A} a.
Arguments Threw {A} t.
Arguments Diverged {A}.

(** ** The bulk processor ([src/lib/processor.ts]) *)

Module Processor.

Definition DEFAULT_CONCURRENCY : Z := 4.
Definition DEFAULT_PAUSE_AFTER : Z := 10.
Definition DEFAULT_PAUSE_DURATION : Z := 5000.

Definition get_concurrency (o : BulkOptions) : Z :=
  default DEFAULT_CONCURRENCY (concurrency o).
Definition get_pauseAfter (o : BulkOptions) : Z :=
  default DEFAULT_PAUSE_AFTER (pauseAfter o).
Definition get_pauseDuration (o : BulkOptions) : Z :=
  default DEFAULT_PAUSE_DURATION (pauseDuration o).
Definition get_skipIds (o : BulkOptions) : gset string :=
  default ∅ (skipIds o).

(** [videos.filter((v) => !skipIds.has(v.videoId))] *)
Definition toProcess (videos : list WatchHistoryMeta) (o : BulkOptions)
  : list WatchHistoryMeta :=
  List.filter (fun v => negb (bool_decide (videoId v ∈ get_skipIds o))) videos.

(** [error instanceof Error ? error.message : 'Unknown error'] *)
Definition error_message (t : Thrown) : string :=
  match t with
  | ThrownError message => message
  | ThrownOther => "Unknown error"
  end.

(** [processOne]: the try/catch around one fetch (lines 41-49, and the
    same body inlined in [streamVideos], lines 106-114). *)
Definition processOne `{Fetcher} (fo : FetchOptions) (m : WatchHistoryMeta)
  : TranscriptResult :=
  match fetchTranscript (videoId m) fo with
  | inl t => {| meta := m; transcript := Some t; error := None |}
  | inr thrown =>
      {| meta := m; transcript := None; error := Some (error_message thrown) |}
  end.

(** [Array.prototype.slice(start, end)] on integer arguments: a negative
    index counts from the end, both are clamped to the array. *)
Definition slice_index (len : Z) (k : Z) : Z :=
  if k <? 0 then Z.max (len + k) 0 else Z.min k len.

Definition slice {A} (l : list A) (start stop : Z) : list A :=
  let len := Z.of_nat (length l) in
  let from := slice_index len start in
  let to := slice_index len stop in
  take (Z.to_nat (to - from)) (drop (Z.to_nat from) l).

(** The partitioning loop (lines 52-55):
    [for (let i = 0; i < toProcess.length; i += pauseAfter)
       batches.push(toProcess.slice(i, i + pauseAfter))].
    One unit of fuel per evaluation of the loop test. *)
Fixpoint partition_loop (fuel : nat) (tp : list WatchHistoryMeta)
    (pause_after : Z) (i : Z) (batches : list (list WatchHistoryMeta))
  : option (list (list WatchHistoryMeta)) :=
  match fuel with
  | O => None
  | S fuel' =>
      if i <? Z.of_nat (length tp)
      then partition_loop fuel' tp pause_after (i + pause_after)
             (batches ++ [slice tp i (i + pause_after)])
      else Some batches
  end.

(** [pLimit(concurrency)] comes from the p-limit package.  It rejects a
    concurrency below one with a [TypeError]; otherwise the limiter runs
    the functions handed to it in the order received, at most
    [concurrency] of them at a time, starting the next queued one as soon
    as a running one settles. *)
Definition pLimit (c : Z) : Thrown + nat :=
  if 1 <=? c then inr (Z.to_nat c)
  else inl (ThrownError "Expected `concurrency` to be a number from 1 and up").

(** The limiter starts queued attempts while fewer than [c] are running. *)
Definition start_queued (c : nat) (queue active : list WatchHistoryMeta)
  : list WatchHistoryMeta * list WatchHistoryMeta :=
  let k := (c - length active)%nat in
  (drop k queue, active ++ take k queue).

(** Which of the running attempts settles next is not decided by the
    program: [pick n] chooses among them (modulo their number) once [n]
    attempts have completed. *)
Definition Schedule := nat -> nat.

(** One batch under the limiter (lines 60-67): every completion bumps
    [completed] and calls [onProgress] if present.  [n] bounds the number
    of completions and is the size of the batch. *)
Fixpoint run_limited `{Fetcher} (n : nat) (c : nat) (pick : Schedule)
    (o : BulkOptions) (total : nat)
    (queue active : list WatchHistoryMeta) (completed : nat)
  : list Event * nat :=
  match n with
  | O => ([], completed)
  | S n' =>
      let '(queue', active') := start_queued c queue active in
      let started := map EvStart (take (c - length active)%nat queue) in
      match active' with
      | [] => (started, completed)
      | m0 :: _ =>
          let k := (pick completed mod length active')%nat in
          let m := nth k active' m0 in
          let result := processOne (fetchOptions o) m in
          let completed' := S completed in
          let progress :=
            if onProgress o then [EvProgress completed' total result] else [] in
          let '(evs, final) :=
            run_limited n' c pick o total queue' (delete k active') completed' in
          (started ++ EvDone result :: progress ++ evs, final)
      end
  end.

(** The loop over the batches (lines 57-76).  [Promise.all] gives the
    results of a batch in the order of the batch, whatever the order of
    completion. *)
Fixpoint run_batches `{Fetcher} (c : nat) (pick : Schedule) (o : BulkOptions)
    (total : nat) (batches : list (list WatchHistoryMeta))
    (batchIndex : nat) (nbatches : nat) (completed : nat)
  : list TranscriptResult * list Event :=
  match batches with
  | [] => ([], [])
  | batch :: rest =>
      let '(evs, completed') :=
        run_limited (length batch) c pick o total batch [] completed in
      let batchResults := map (processOne (fetchOptions o)) batch in
      let pause :=
        if (Z.of_nat batchIndex <? Z.of_nat nbatches - 1)
           && (0 <? get_pauseDuration o)
        then [EvSleep (get_pauseDuration o)] else [] in
      let '(results, evs') :=
        run_batches c pick o total rest (S batchIndex) nbatches completed' in
      (batchResults ++ results, evs ++ pause ++ evs')
  end.

(** [processVideos] (lines 17-79): the outcome of the call and the trace
    of its effects. *)
Definition processVideos `{Fetcher} (fuel : nat) (pick : Schedule)
    (videos : list WatchHistoryMeta) (o : BulkOptions)
  : Outcome (list TranscriptResult) * list Event :=
  let tp := toProcess videos o in
  match tp with
  | [] => (Returned [], [])
  | _ :: _ =>
      match pLimit (get_concurrency o) with
      | inl t => (Threw t, [])
      | inr c =>
          match partition_loop fuel tp (get_pauseAfter o) 0 [] with
          | None => (Diverged, [])
          | Some batches =>
              let '(results, evs) :=
                run_batches c pick o (length tp) batches 0 (length batches) 0 in
              (Returned results, evs)
          end
      end
  end.

(** The loop of [streamVideos] (lines 105-126): each attempt is awaited
    before its result is yielded and before the next one is handed to the
    limiter. *)
Fixpoint stream_loop `{Fetcher} (o : BulkOptions)
    (tp : list WatchHistoryMeta) (processedInBatch : Z) : list Event :=
  match tp with
  | [] => []
  | m :: rest =>
      let result := processOne (fetchOptions o) m in
      let processedInBatch' := processedInBatch + 1 in
      let attempt := [EvStart m; EvDone result; EvYield result] in
      if get_pauseAfter o <=? processedInBatch'
      then attempt
           ++ (if 0 <? get_pauseDuration o
               then [EvSleep (get_pauseDuration o)] else [])
           ++ stream_loop o rest 0
      else attempt ++ stream_loop o rest processedInBatch'
  end.

(** [streamVideos] (lines 84-127), drained by its consumer: how the
    generator ends and the trace of its effects.  [onProgress] is not
    among the options the function takes out of [options]. *)
Definition streamVideos `{Fetcher} (videos : list WatchHistoryMeta)
    (o : BulkOptions) : Outcome unit * list Event :=
  let tp := toProcess videos o in
  match tp with
  | [] => (Returned (), [])
  | _ :: _ =>
      match pLimit (get_concurrency o) with
      | inl t => (Threw t, [])
      | inr _ => (Returned (), stream_loop o tp 0)
      end
  end.

(** The items a consumer receives from the stream. *)
Definition yielded (evs : list Event) : list TranscriptResult :=
  omap (fun e => match e with EvYield r => Some r | _ => None end) evs.

End Processor.

(** ** JavaScript strings and values used by the loaders *)

Module Js.

Definition newline : ascii := "010"%char.
Definition dquote : ascii := "034"%char.
Definition comma : ascii := ","%char.

(** White space as [String.prototype.trim] sees it, among code units
    below 256: tab, line feed, vertical tab, form feed, carriage return,
    space and no-break space. *)
Definition is_space (c : ascii) : bool :=
  let n := nat_of_ascii c in
  ((9 <=? n) && (n <=? 13) || (n =? 32) || (n =? 160))%nat.

Fixpoint trimStart (s : string) : string :=
  match s with
  | EmptyString => EmptyString
  | String c rest => if is_space c then trimStart rest else s
  end.

Definition reverse (s : string) : string :=
  string_of_list_ascii (rev (list_ascii_of_string s)).

(** [s.trim()] *)
Definition trim (s : string) : string :=
  reverse (trimStart (reverse (trimStart s))).

(** [s.split(sep)] for a one-character separator: never empty. *)
Fixpoint split (sep : ascii) (s : string) : list string :=
  match s with
  | EmptyString => [EmptyString]
  | String c rest =>
      if Ascii.eqb c sep then EmptyString :: split sep rest
      else match split sep rest with
           | [] => [String c EmptyString]
           | piece :: pieces => String c piece :: pieces
           end
  end.

(** Truth value of a string: the empty string is falsy. *)
Definition truthy_string (s : string) : bool :=
  negb (String.eqb s EmptyString).

(** [a || b] on values that are a string or [undefined]. *)
Definition or_else (a b : option string) : option string :=
  match a with
  | Some s => if truthy_string s then a else b
  | None => b
  end.

(** [text.split('\n').filter((l) => l.trim())] *)
Definition nonblank_lines (text : string) : list string :=
  List.filter (fun l => truthy_string (trim l)) (split newline text).

(** Values produced by [JSON.parse]. *)
Unset Elimination Schemes.
Inductive json :=
| JNull
| JBool (b : bool)
| JNum (q : Q)
| JStr (s : string)
| JArr (items : list json)
| JObj (fields : list (string * json)).
Set Elimination Schemes.

(** A JavaScript value read off a parsed record: [None] is [undefined]. *)
Definition value := option json.

(** Truth value of a value. *)
Definition truthy (v : value) : bool :=
  match v with
  | None => false
  | Some JNull => false
  | Some (JBool b) => b
  | Some (JNum q) => negb (Qeq_bool q 0)
  | Some (JStr s) => truthy_string s
  | Some (JArr _) => true
  | Some (JObj _) => true
  end.

(** Own property of an object, by key. *)
Fixpoint lookup_field (k : string) (fields : list (string * json)) : value :=
  match fields with
  | [] => None
  | (k', v) :: rest => if String.eqb k k' then Some v else lookup_field k rest
  end.

(** [v.k] for a key that is neither an index nor a built-in property
    (the loaders read [meta] and [videoId]): reading a property of [null]
    or [undefined] throws a [TypeError], a primitive or an array has no
    such property. *)
Definition get (v : value) (k : string) : Thrown + value :=
  match v with
  | None => inl (ThrownError "Cannot read properties of undefined")
  | Some JNull => inl (ThrownError "Cannot read properties of null")
  | Some (JObj fields) => inr (lookup_field k fields)
  | Some _ => inr None
  end.

(** [v?.k] *)
Definition get_optional (v : value) (k : string) : Thrown + value :=
  match v with
  | None | Some JNull => inr None
  | _ => get v k
  end.

(** The comparison a [Set] uses for its members ([SameValueZero]):
    primitives by value; an array or object only equals itself, and two
    parsed values never share one. *)
Definition same_value_zero (a b : json) : bool :=
  match a, b with
  | JNull, JNull => true
  | JBool x, JBool y => Bool.eqb x y
  | JNum x, JNum y => Qeq_bool x y
  | JStr x, JStr y => String.eqb x y
  | _, _ => false
  end.

(** [set.add(v)] on a [Set] kept in insertion order. *)
Definition set_add (v : json) (s : list json) : list json :=
  if existsb (same_value_zero v) s then s else s ++ [v].

(** [Map.prototype.has] and [Map.prototype.set] on a [Map] kept in
    insertion order: setting a present key keeps its position. *)
Definition map_has {V} (k : string) (m : list (string * V)) : bool :=
  existsb (fun kv => String.eqb k (fst kv)) m.

Fixpoint map_set {V} (k : string) (v : V) (m : list (string * V))
  : list (string * V) :=
  match m with
  | [] => [(k, v)]
  | (k', v') :: rest =>
      if String.eqb k k' then (k, v) :: rest else (k', v') :: map_set k v rest
  end.

Definition map_values {V} (m : list (string * V)) : list V := map snd m.

(** A plain object whose properties hold strings, by its own
    properties.  [obj[k] = v] for a string [v]: under the key
    [__proto__] the assignment reaches the setter inherited from
    [Object.prototype], which ignores a value that is neither an object
    nor [null], and nothing is stored; under any other key it creates or
    overwrites an own property (the other properties of
    [Object.prototype] are writable data properties). *)
Definition set_property (k v : string) (obj : gmap string string)
  : gmap string string :=
  if String.eqb k "__proto__" then obj else <[k := v]> obj.

(** What reading a file gives. *)
Inductive File :=
| FileMissing
| FileUnreadable (t : Thrown)
| FileText (text : string).

(** A parsed URL, as far as the loaders look at it. *)
Record URL := mkURL {
  hostname : string;
  pathname : string;
  searchParams : list (string * string)
}.

(** [searchParams.get(name)]: the first value under that name. *)
Fixpoint searchParams_get (name : string) (ps : list (string * string))
  : option string :=
  match ps with
  | [] => None
  | (k, v) :: rest =>
      if String.eqb name k then Some v else searchParams_get name rest
  end.

(** [s.includes(needle)] *)
Fixpoint includes (needle : string) (s : string) : bool :=
  String.prefix needle s
  || match s with
     | EmptyString => false
     | String _ rest => includes needle rest
     end.

(** [s.slice(1)] *)
Definition slice1 (s : string) : string :=
  match s with
  | EmptyString => EmptyString
  | String _ rest => rest
  end.

End Js.

(** ** The loaders ([src/loaders/]) *)

(** What the loaders take from their environment: the built-in
    [JSON.parse] and [new URL] (absent result: the call throws), the
    reading of a watch-history export as items of the declared type
    [TakeoutHistoryItem[]], and the identifier resolver [extractVideoId]
    of [src/lib/fetcher.ts] ([None] is [null]). *)
Record TakeoutSubtitle := mkSubtitle {
  sub_name : option string;
  sub_url : option string
}.

Record TakeoutHistoryItem := mkItem {
  item_header : option string;
  item_title : option string;
  item_titleUrl : option string;
  item_subtitles : option (list TakeoutSubtitle);
  item_time : option string
}.

Class Runtime := {
  JSON_parse : string -> option Js.json;
  JSON_parse_history : string -> option (list TakeoutHistoryItem);
  URL_parse : string -> option Js.URL;
  extractVideoId : string -> option string
}.

Module Loaders.
Import Js.

(** *** [src/loaders/watchLater.ts] (kept as [src/unnamed/part_002]) *)

(** The loop of [parseCSVLine] over the characters left to read; a
    doubled quote inside quotes consumes two characters. *)
Fixpoint parseCSVLine_loop (chars : list ascii) (current : string)
    (inQuotes : bool) (result : list string) : list string :=
  match chars with
  | [] => result ++ [trim current]
  | char :: rest =>
      if Ascii.eqb char dquote then
        match rest with
        | nextChar :: rest' =>
            if inQuotes && Ascii.eqb nextChar dquote
            then parseCSVLine_loop rest' (current ++ String dquote EmptyString)%string
                   inQuotes result
            else parseCSVLine_loop rest current (negb inQuotes) result
        | [] => parseCSVLine_loop rest current (negb inQuotes) result
        end
      else if Ascii.eqb char comma && negb inQuotes then
        parseCSVLine_loop rest EmptyString inQuotes (result ++ [trim current])
      else
        parseCSVLine_loop rest (current ++ String char EmptyString)%string
          inQuotes result
  end.

Definition parseCSVLine (line : string) : list string :=
  parseCSVLine_loop (list_ascii_of_string line) EmptyString false [].

(** [row[headers[j]] = values[j] || ''] for [j] from [0], on the plain
    object [row]. *)
Fixpoint fill_row (headers : list string) (values : list string) (j : nat)
    (row : gmap string string) : gmap string string :=
  match headers with
  | [] => row
  | h :: headers' =>
      fill_row headers' values (S j)
        (set_property h
           (default EmptyString (or_else (values !! j) (Some EmptyString))) row)
  end.

Definition parseCSV (text : string) : list (gmap string string) :=
  match nonblank_lines text with
  | [] | [_] => []
  | header :: lines =>
      let headers := parseCSVLine header in
      map (fun line => fill_row headers (parseCSVLine line) 0 ∅) lines
  end.

(** The loop of [loadWatchLater] over the rows.  None of the six keys
    it reads is a property of [Object.prototype]: reading one gives the
    row's own property, or [undefined]. *)
Definition watchLater_row (row : gmap string string) : option WatchHistoryMeta :=
  let videoId :=
    or_else (or_else (row !! "Video ID") (row !! "video_id")) (row !! "Video Id") in
  let addedAt :=
    or_else (or_else (row !! "Playlist Video Creation Timestamp")
                     (row !! "added_at")) (row !! "Added At") in
  match videoId with
  | Some id =>
      if truthy_string id
      then Some {| videoId := id; title := None; url := None; channel := None;
                   watchedAt := addedAt; source := watch_later |}
      else None
  | None => None
  end.

(** [loadWatchLater]: a file that cannot be read makes the call throw. *)
Definition loadWatchLater (f : File) : Thrown + list WatchHistoryMeta :=
  match f with
  | FileMissing => inl (ThrownError "ENOENT")
  | FileUnreadable t => inl t
  | FileText text => inr (omap watchLater_row (parseCSV text))
  end.

(** *** [src/loaders/history.ts] (kept as [src/unnamed/part_001]) *)

Definition extractVideoIdFromUrl `{Runtime} (url : string) : option string :=
  match URL_parse url with
  | Some parsed =>
      if includes "youtube.com" (hostname parsed)
      then searchParams_get "v" (searchParams parsed)
      else if String.eqb (hostname parsed) "youtu.be"
      then Some (slice1 (pathname parsed))
      else None
  | None => None
  end.

Definition history_item `{Runtime} (item : TakeoutHistoryItem)
  : option WatchHistoryMeta :=
  match item_titleUrl item with
  | None => None
  | Some url =>
      if truthy_string url then
        match extractVideoIdFromUrl url with
        | None => None
        | Some videoId =>
            if truthy_string videoId then
              let channel := item_subtitles item ≫= head in
              Some {| videoId := videoId;
                      title := item_title item;
                      url := Some url;
                      channel :=
                        (fun c => {| channel_name := sub_name c;
                                     channel_url := sub_url c |}) <$> channel;
                      watchedAt := item_time item;
                      source := history |}
            else None
        end
      else None
  end.

Definition loadWatchHistory `{Runtime} (f : File)
  : Thrown + list WatchHistoryMeta :=
  match f with
  | FileMissing => inl (ThrownError "ENOENT")
  | FileUnreadable t => inl t
  | FileText text =>
      match JSON_parse_history text with
      | None => inl (ThrownError "JSON Parse error")
      | Some data => inr (omap history_item data)
      end
  end.

(** *** [src/loaders/index.ts] *)

Definition fromVideoIds_one `{Runtime} (input : string)
  : option WatchHistoryMeta :=
  match extractVideoId input with
  | None => None
  | Some videoId =>
      if truthy_string videoId then
        Some {| videoId := videoId; title := None;
                url := Some (if String.prefix "http" input then input
                             else "https://www.youtube.com/watch?v=" ++ videoId)%string;
                channel := None; watchedAt := None; source := manual |}
      else None
  end.

Definition fromVideoIds `{Runtime} (inputs : list string)
  : list WatchHistoryMeta :=
  omap fromVideoIds_one inputs.

(** The two nested loops of [mergeVideoSources] over the [Map] [seen]. *)
Definition merge_one (seen : list (string * WatchHistoryMeta))
    (meta : WatchHistoryMeta) : list (string * WatchHistoryMeta) :=
  if negb (map_has (videoId meta) seen)
  then map_set (videoId meta) meta seen
  else seen.

Definition merge_source (seen : list (string * WatchHistoryMeta))
    (source : list WatchHistoryMeta) : list (string * WatchHistoryMeta) :=
  fold_left merge_one source seen.

Definition mergeVideoSources (sources : list (list WatchHistoryMeta))
  : list WatchHistoryMeta :=
  map_values (fold_left merge_source sources []).

(** [ids.add(v)] for a value that passed the truth test. *)
Definition add_id (v : value) (ids : list json) : list json :=
  match v with
  | Some id => set_add id ids
  | None => ids
  end.

(** The body of the inner [try] of [loadProcessedIds] for one line:
    [if (record.meta?.videoId) ids.add(record.meta.videoId)
     else if (record.videoId) ids.add(record.videoId)]. *)
Definition processed_line `{Runtime} (line : string) (ids : list json)
  : Thrown + list json :=
  match JSON_parse line with
  | None => inl (ThrownError "JSON Parse error")
  | Some record =>
      match get (Some record) "meta" with
      | inl t => inl t
      | inr meta =>
          match get_optional meta "videoId" with
          | inl t => inl t
          | inr meta_videoId =>
              if truthy meta_videoId then inr (add_id meta_videoId ids)
              else
                match get (Some record) "videoId" with
                | inl t => inl t
                | inr top_videoId =>
                    if truthy top_videoId then inr (add_id top_videoId ids)
                    else inr ids
                end
          end
      end
  end.

(** [try { ... } catch { }] around one line: a throw leaves [ids] as it
    was. *)
Definition processed_line_caught `{Runtime} (ids : list json) (line : string)
  : list json :=
  match processed_line line ids with
  | inl _ => ids
  | inr ids' => ids'
  end.

(** The outer [try] of [loadProcessedIds]. *)
Definition loadProcessedIds_try `{Runtime} (f : File) : Thrown + list json :=
  match f with
  | FileMissing => inr []
  | FileUnreadable t => inl t
  | FileText text =>
      inr (fold_left processed_line_caught (nonblank_lines text) [])
  end.

(** [loadProcessedIds]: the outer [catch] swallows the throw and the
    function returns [ids], still empty at that point. *)
Definition loadProcessedIds `{Runtime} (f : File) : Thrown + list json :=
  match loadProcessedIds_try f with
  | inl _ => inr []
  | inr ids => inr ids
  end.

End Loaders.

(** ** The track selector *)

Module Selector.

(** Modelled from the spec: the caption track of design section 3. *)
Inductive TrackKind := MANUAL | AUTO_GENERATED.

Record CaptionTrack := mkTrack {
  languageCode : string;
  kind : TrackKind;
  displayName : option string;
  retrievalRef : string
}.

Definition is_manual (t : CaptionTrack) : bool :=
  match kind t with
  | MANUAL => true
  | AUTO_GENERATED => false
  end.

(** [languageCode] starts with [tag]. *)
Definition matches (tag : string) (t : CaptionTrack) : bool :=
  String.prefix tag (languageCode t).

(** Modelled from the spec: the track selector lives in
    [src/lib/fetcher.ts], which is not among the sources at hand.  Design
    section 4.3, step 2: for each preferred tag in order, collect the
    tracks whose language code starts with the tag; of that subset return
    the first manual track if there is one, otherwise its first track;
    step 3: when no tag matched, return the first track of the list. *)
Fixpoint select_preferred (tracks : list CaptionTrack)
    (preferredLanguages : list string) : option CaptionTrack :=
  match preferredLanguages with
  | [] => head tracks
  | tag :: later =>
      let subset := List.filter (matches tag) tracks in
      match List.find is_manual subset with
      | Some manual_track => Some manual_track
      | None =>
          match subset with
          | first :: _ => Some first
          | [] => select_preferred tracks later
          end
      end
  end.

(** Modelled from the spec: design section 4.3, step 1: no track, no
    selection. *)
Definition select (tracks : list CaptionTrack)
    (preferredLanguages : list string) : option CaptionTrack :=
  match tracks with
  | [] => None
  | _ :: _ => select_preferred tracks preferredLanguages
  end.

End Selector.

(** ** The bulk command of the command line ([src/cli.ts]) *)

(** [new URL(url).protocol], absent when the constructor throws. *)
Class UrlProtocol := {
  URL_protocol : string -> option string
}.

(** The two writers of the command, [appendJsonl] and [writeCsv],
    imported through [src/index.ts] from a file that is not among the
    sources.  The command awaits both outside any [try]: what it depends
    on is whether the call throws ([Some t]) or returns ([None]).
    [appendJsonl] is asked with the results the run has appended so far
    and the result to append, [writeCsv] with the results and the
    [append] flag. *)
Class Outputs := {
  appendJsonl : list TranscriptResult -> TranscriptResult -> option Thrown;
  writeCsv : list TranscriptResult -> bool -> option Thrown
}.

Module Cli.
Import Js Loaders.

(** [validateProxyUrl] (lines 37-44). *)
Definition validateProxyUrl `{UrlProtocol} (url : string) : bool :=
  match URL_protocol url with
  | Some protocol =>
      existsb (String.eqb protocol) ["http:"; "https:"; "socks4:"; "socks5:"]
  | None => false
  end.

(** [parseProxy] (lines 49-57): [inl code] is [process.exit(code)],
    [inr None] is [undefined], [inr (Some url)] is [{ url }]. *)
Definition parseProxy `{UrlProtocol} (proxyUrl : option string)
  : Z + option string :=
  match proxyUrl with
  | None => inr None
  | Some url =>
      if negb (truthy_string url) then inr None
      else if negb (validateProxyUrl url) then inl 1
      else inr (Some url)
  end.

(** [options.videos.split(',').map((s) => s.trim())] (line 161). *)
Definition videos_option (videos : string) : list string :=
  map trim (split comma videos).

(** [content.split('\n').map((l) => l.trim())
      .filter((l) => l && !l.startsWith('#'))] (lines 170-173). *)
Definition file_entries (content : string) : list string :=
  List.filter (fun l => truthy_string l && negb (String.prefix "#" l))
    (map trim (split newline content)).

(** What [Number.parseInt(text, 10)] gives: an integer, or [NaN] when
    the text does not begin with one. *)
Inductive Parsed :=
| NaN
| Num (n : Z).

(** What the bulk command is given: for each input option that is
    present, what reading its file gives (or its text); the log at
    [--out-jsonl]; the numeric options after [Number.parseInt]. *)
Record BulkArgs := mkBulkArgs {
  arg_history : option File;
  arg_watchLater : option File;
  arg_videos : option string;
  arg_file : option File;
  arg_resume : bool;
  arg_outJsonl : File;
  arg_outCsv : bool;
  arg_concurrency : Parsed;
  arg_pauseAfter : Parsed;
  arg_pauseMs : Parsed;
  arg_lang : string;
  arg_proxy : option string
}.

(** The four blocks that fill [sources] (lines 133-179): a source whose
    file cannot be loaded is reported and left out. *)
Definition history_source `{Runtime} (a : BulkArgs)
  : list (list WatchHistoryMeta) :=
  match arg_history a with
  | None => []
  | Some f =>
      match loadWatchHistory f with
      | inr loaded => [loaded]
      | inl _ => []
      end
  end.

Definition watchLater_source (a : BulkArgs) : list (list WatchHistoryMeta) :=
  match arg_watchLater a with
  | None => []
  | Some f =>
      match loadWatchLater f with
      | inr loaded => [loaded]
      | inl _ => []
      end
  end.

Definition videos_source `{Runtime} (a : BulkArgs)
  : list (list WatchHistoryMeta) :=
  match arg_videos a with
  | None => []
  | Some videos =>
      if truthy_string videos then [fromVideoIds (videos_option videos)] else []
  end.

Definition file_source `{Runtime} (a : BulkArgs)
  : list (list WatchHistoryMeta) :=
  match arg_file a with
  | Some (FileText content) => [fromVideoIds (file_entries content)]
  | _ => []
  end.

Definition gather_sources `{Runtime} (a : BulkArgs)
  : list (list WatchHistoryMeta) :=
  history_source a ++ watchLater_source a ++ videos_source a ++ file_source a.

(** [skipIds.has(id)] for a string. *)
Definition set_has (ids : list json) (id : string) : bool :=
  existsb (same_value_zero (JStr id)) ids.

(** The options handed to [streamVideos] (lines 215-221).  The stream
    does nothing with its numeric options but compare them, and a
    comparison with [NaN] is false: the limiter rejects a [NaN]
    concurrency as it rejects 0, and with a [NaN] for [pauseAfter] or
    [pauseDuration] the stream never idles, as with a pause duration
    of 0. *)
Definition stream_options (a : BulkArgs) (proxy : option string) : BulkOptions :=
  {| concurrency :=
       Some (match arg_concurrency a with Num c => c | NaN => 0 end);
     pauseAfter :=
       Some (match arg_pauseAfter a with Num p => p | NaN => 1 end);
     pauseDuration :=
       Some (match arg_pauseAfter a, arg_pauseMs a with
             | Num _, Num d => d
             | _, _ => 0
             end);
     skipIds := None;
     onProgress := false;
     fetchOptions := {| languages := Some (split comma (arg_lang a));
                        timeout := None;
                        proxy := proxy |} |}.

(** The state of the loop over the stream: the two counters, the
    records appended to the log so far and the results kept for the CSV. *)
Record Tally := mkTally {
  successCount : nat;
  failCount : nat;
  appended : list TranscriptResult;
  csvResults : list TranscriptResult
}.

(** The body of the [for await] loop before it appends (lines 222-230):
    one of the counters goes up. *)
Definition count_result (t : Tally) (result : TranscriptResult) : Tally :=
  {| successCount :=
       match transcript result with
       | Some _ => S (successCount t)
       | None => successCount t
       end;
     failCount :=
       match transcript result with
       | Some _ => failCount t
       | None => S (failCount t)
       end;
     appended := appended t;
     csvResults := csvResults t |}.

(** The body once [appendJsonl] has returned (lines 233-238). *)
Definition keep_result (outCsv : bool) (t : Tally) (result : TranscriptResult)
  : Tally :=
  {| successCount := successCount t;
     failCount := failCount t;
     appended := appended t ++ [result];
     csvResults :=
       if outCsv then csvResults t ++ [result] else csvResults t |}.

(** The [for await] loop (lines 215-239) along the trace of the stream:
    the body runs at each result the stream yields.  When [appendJsonl]
    throws, the loop is left and the generator is closed where it
    stands, just after that [yield]: what the trace holds further on
    does not happen.  The outcome is the exception if any, the part of
    the trace that happened and the final tally. *)
Fixpoint consume `{Outputs} (outCsv : bool) (evs : list Event) (t : Tally)
  : option Thrown * list Event * Tally :=
  match evs with
  | [] => (None, [], t)
  | EvYield result :: rest =>
      let counted := count_result t result in
      match appendJsonl (appended t) result with
      | Some thrown => (Some thrown, [EvYield result], counted)
      | None =>
          let '(thrown, seen, t') :=
            consume outCsv rest (keep_result outCsv counted result) in
          (thrown, EvYield result :: seen, t')
      end
  | e :: rest =>
      let '(thrown, seen, t') := consume outCsv rest t in
      (thrown, e :: seen, t')
  end.

(** How the command ends: by a call of [process.exit], by reaching the
    end of its action, by an exception that leaves the action, or not
    at all. *)
Inductive CliEnd :=
| Exited (code : Z)
| Finished
| Crashed (t : Thrown)
| Hung.

(** What a run of the command leaves behind: how it ended, the trace of
    the stream, the final tally, and the call of [writeCsv] if any (the
    results and the [append] flag). *)
Record BulkRun := mkBulkRun {
  run_end : CliEnd;
  run_trace : list Event;
  run_tally : Tally;
  run_writeCsv : option (list TranscriptResult * bool)
}.

Definition no_tally : Tally :=
  {| successCount := 0; failCount := 0; appended := []; csvResults := [] |}.

Definition stopped (e : CliEnd) : BulkRun :=
  {| run_end := e; run_trace := []; run_tally := no_tally;
     run_writeCsv := None |}.

(** The end of the action once the loop is over (lines 241-248). *)
Definition write_csv `{Outputs} (a : BulkArgs) (trace : list Event) (t : Tally)
  : BulkRun :=
  if arg_outCsv a then
    match csvResults t with
    | [] =>
        {| run_end := Finished; run_trace := trace; run_tally := t;
           run_writeCsv := None |}
    | _ :: _ =>
        {| run_end :=
             match writeCsv (csvResults t) (arg_resume a) with
             | Some thrown => Crashed thrown
             | None => Finished
             end;
           run_trace := trace; run_tally := t;
           run_writeCsv := Some (csvResults t, arg_resume a) |}
    end
  else
    {| run_end := Finished; run_trace := trace; run_tally := t;
       run_writeCsv := None |}.

(** The action of the [bulk] command (lines 132-249). *)
Definition bulk `{Fetcher} `{Runtime} `{UrlProtocol} `{Outputs} (a : BulkArgs)
  : BulkRun :=
  match gather_sources a with
  | [] => stopped (Exited 1)
  | (_ :: _) as sources =>
      let allVideos := mergeVideoSources sources in
      match (if arg_resume a then loadProcessedIds (arg_outJsonl a) else inr []) with
      | inl t => stopped (Crashed t)
      | inr skipIds =>
          let toProcess :=
            List.filter (fun v => negb (set_has skipIds (videoId v))) allVideos in
          match toProcess with
          | [] => stopped Finished
          | _ :: _ =>
              match parseProxy (arg_proxy a) with
              | inl code => stopped (Exited code)
              | inr proxy =>
                  match Processor.streamVideos toProcess (stream_options a proxy) with
                  | (Threw t, trace) =>
                      {| run_end := Crashed t; run_trace := trace;
                         run_tally := no_tally; run_writeCsv := None |}
                  | (Diverged, trace) =>
                      {| run_end := Hung; run_trace := trace;
                         run_tally := no_tally; run_writeCsv := None |}
                  | (Returned _, trace) =>
                      match consume (arg_outCsv a) trace no_tally with
                      | (Some thrown, seen, t) =>
                          {| run_end := Crashed thrown; run_trace := seen;
                             run_tally := t; run_writeCsv := None |}
                      | (None, seen, t) => write_csv a seen t
                      end
                  end
              end
          end
      end
  end.

End Cli.

(** ** Vocabulary of the properties *)

Module Trace.

(** The results of the attempts, in order of completion. *)
Definition dones (evs : list Event) : list TranscriptResult :=
  omap (fun e => match e with EvDone r => Some r | _ => None end) evs.

(** The attempts dispatched, in order of dispatch. *)
Definition starts (evs : list Event) : list WatchHistoryMeta :=
  omap (fun e => match e with EvStart m => Some m | _ => None end) evs.

(** The calls of the progress callback, with their three arguments. *)
Definition progress_calls (evs : list Event)
  : list (nat * nat * TranscriptResult) :=
  omap (fun e => match e with
                 | EvProgress completed total r => Some (completed, total, r)
                 | _ => None
                 end) evs.

(** The idle periods. *)
Definition sleeps (evs : list Event) : list Z :=
  omap (fun e => match e with EvSleep ms => Some ms | _ => None end) evs.

(** One call per result, counting up from [k + 1]. *)
Fixpoint number_from (k total : nat) (rs : list TranscriptResult)
  : list (nat * nat * TranscriptResult) :=
  match rs with
  | [] => []
  | r :: rs' => (S k, total, r) :: number_from (S k) total rs'
  end.

(** The callback is called once per completed attempt, in order of
    completion, with the running count, the total and the result. *)
Definition progress_reported (total : nat) (evs : list Event) : Prop :=
  progress_calls evs = number_from 0 total (dones evs).

(** Attempts dispatched and not yet completed at the end of [evs]. *)
Definition in_flight (evs : list Event) : Z :=
  Z.of_nat (length (starts evs)) - Z.of_nat (length (dones evs)).

(** Consecutive batches of [p], the last one possibly smaller but not
    empty. *)
Fixpoint batched {A} (p : nat) (bs : list (list A)) : Prop :=
  match bs with
  | [] => True
  | b :: rest =>
      match rest with
      | [] => (1 <= length b <= p)%nat
      | _ :: _ => length b = p /\ batched p rest
      end
  end.

(** [sep] between consecutive segments, none after the last. *)
Fixpoint join_with {A} (sep : list A) (segs : list (list A)) : list A :=
  match segs with
  | [] => []
  | s :: rest =>
      match rest with
      | [] => s
      | _ :: _ => s ++ sep ++ join_with sep rest
      end
  end.

(** The idle period the collecting loop inserts between two batches. *)
Definition pause_between (o : BulkOptions) : list Event :=
  if 0 <? Processor.get_pauseDuration o
  then [EvSleep (Processor.get_pauseDuration o)] else [].

(** The part of a trace that belongs to one batch: its attempts are
    dispatched in the order of the batch, each completes once, and
    nothing else happens. *)
Definition segment_of `{Fetcher} (o : BulkOptions) (seg : list Event)
    (batch : list WatchHistoryMeta) : Prop :=
  dones seg ≡ₚ map (Processor.processOne (fetchOptions o)) batch
  /\ starts seg = batch /\ sleeps seg = [] /\ Processor.yielded seg = [].

End Trace.

(** Vocabulary of the loaders' properties. *)
Module LoaderSpec.
Import Js.

(** First-writer-wins in the words of the design: going through the
    records in order, keep a record when its [videoId] has not been met
    before.  [ids] are the identifiers met so far. *)
Fixpoint first_occurrences (ids : list string) (l : list WatchHistoryMeta)
  : list WatchHistoryMeta :=
  match l with
  | [] => []
  | m :: l' =>
      if existsb (String.eqb (videoId m)) ids
      then first_occurrences ids l'
      else m :: first_occurrences (ids ++ [videoId m]) l'
  end.

(** The eleven-character identifier pattern [[A-Za-z0-9_-]{11}]. *)
Definition id_char (c : ascii) : bool :=
  let n := nat_of_ascii c in
  ((65 <=? n) && (n <=? 90) || (97 <=? n) && (n <=? 122)
   || (48 <=? n) && (n <=? 57) || (n =? 95) || (n =? 45))%nat.

Definition valid_video_id (s : string) : bool :=
  (String.length s =? 11)%nat && forallb id_char (list_ascii_of_string s).

(** [record.meta.videoId] and [record.videoId] of a parsed line, when
    the record is an object (and [meta] is one). *)
Definition meta_videoId (record : json) : value :=
  match record with
  | JObj fields =>
      match lookup_field "meta" fields with
      | Some (JObj meta_fields) => lookup_field "videoId" meta_fields
      | _ => None
      end
  | _ => None
  end.

Definition top_videoId (record : json) : value :=
  match record with
  | JObj fields => lookup_field "videoId" fields
  | _ => None
  end.

(** The record carries the identifier [id]: a truthy [meta.videoId], or
    else a truthy top-level [videoId]. *)
Definition carries (record : json) (id : json) : Prop :=
  (meta_videoId record = Some id /\ truthy (Some id) = true)
  \/ (truthy (meta_videoId record) = false
      /\ top_videoId record = Some id /\ truthy (Some id) = true).

(** The link [url] names the identifier [id]: the link parses, and [id]
    is the [v] parameter of a link whose host contains [youtube.com], or
    what follows the first character of the path of a link to
    [youtu.be]. *)
Definition names_video `{Runtime} (url id : string) : Prop :=
  exists parsed,
    URL_parse url = Some parsed
    /\ ((includes "youtube.com" (hostname parsed) = true
         /\ searchParams_get "v" (searchParams parsed) = Some id)
        \/ (includes "youtube.com" (hostname parsed) = false
            /\ hostname parsed = "youtu.be"
            /\ id = slice1 (pathname parsed))).

(** A cell that is missing or empty. *)
Definition no_text (cell : option string) : Prop :=
  cell = None \/ cell = Some EmptyString.

(** The identifier cell of a row: the cell under [Video ID], or failing
    that the cell under [video_id], or failing that the one under
    [Video Id]. *)
Definition id_cell (row : gmap string string) (id : string) : Prop :=
  row !! "Video ID" = Some id
  \/ (no_text (row !! "Video ID") /\ row !! "video_id" = Some id)
  \/ (no_text (row !! "Video ID") /\ no_text (row !! "video_id")
      /\ row !! "Video Id" = Some id).

End LoaderSpec.

(** Vocabulary of the further properties of the loaders. *)
Module CsvSpec.
Import Js.

(** No character of [s] satisfies [f]. *)
Definition free_of (f : ascii -> bool) (s : string) : bool :=
  forallb (fun c => negb (f c)) (list_ascii_of_string s).

Definition is_dquote (c : ascii) : bool := Ascii.eqb c dquote.
Definition is_comma (c : ascii) : bool := Ascii.eqb c comma.
Definition is_newline (c : ascii) : bool := Ascii.eqb c newline.

(** Writing a cell the way a CSV export quotes it: every quote doubled,
    the whole between quotes. *)
Fixpoint double_quotes (s : string) : string :=
  match s with
  | EmptyString => EmptyString
  | String c rest =>
      if Ascii.eqb c dquote
      then String dquote (String dquote (double_quotes rest))
      else String c (double_quotes rest)
  end.

Definition quote_cell (s : string) : string :=
  String dquote (double_quotes s ++ String dquote EmptyString)%string.

(** Cells written one after the other with [sep] between them. *)
Fixpoint join (sep : ascii) (cells : list string) : string :=
  match cells with
  | [] => EmptyString
  | c :: rest =>
      match rest with
      | [] => c
      | _ :: _ => (c ++ String sep (join sep rest))%string
      end
  end.

(** A line of quoted cells. *)
Definition quoted_line (cells : list string) : string :=
  join comma (map quote_cell cells).

(** A cell that needs no quoting and reads back as it is: no comma, no
    quote, no line feed, no white space at either end. *)
Definition plain_cell (s : string) : Prop :=
  free_of is_comma s = true /\ free_of is_dquote s = true
  /\ free_of is_newline s = true /\ trim s = s.

(** A watch-later export written from pairs of an identifier and a
    time stamp: the header line of Google Takeout, one line per pair. *)
Definition takeout_header : string :=
  "Video ID,Playlist Video Creation Timestamp".

Definition takeout_line (entry : string * string) : string :=
  (fst entry ++ String comma (snd entry))%string.

Definition takeout_csv (entries : list (string * string)) : string :=
  join newline (takeout_header :: map takeout_line entries).

(** The record the watch-later loader makes of such a pair. *)
Definition watch_later_record (entry : string * string) : WatchHistoryMeta :=
  {| videoId := fst entry; title := None; url := None; channel := None;
     watchedAt := if truthy_string (snd entry) then Some (snd entry) else None;
     source := watch_later |}.

End CsvSpec.

Module CliSpec.
Import Js Loaders Cli.

(** The identifiers read from the log when the run resumes; none
    otherwise. *)
Definition logged `{Runtime} (a : BulkArgs) : list json :=
  if arg_resume a
  then match loadProcessedIds (arg_outJsonl a) with
       | inr ids => ids
       | inl _ => []
       end
  else [].

(** The merged videos whose identifier is not in the log. *)
Definition remaining `{Runtime} (a : BulkArgs) : list WatchHistoryMeta :=
  List.filter (fun v => negb (set_has (logged a) (videoId v)))
    (mergeVideoSources (gather_sources a)).

(** A proxy is given and is not an http, https, socks4 or socks5 URL. *)
Definition bad_proxy `{UrlProtocol} (a : BulkArgs) : Prop :=
  exists url,
    arg_proxy a = Some url /\ url <> EmptyString /\ validateProxyUrl url = false.

(** The proxy handed to the fetches when it is acceptable. *)
Definition proxy_in_use (a : BulkArgs) : option string :=
  match arg_proxy a with
  | Some url => if truthy_string url then Some url else None
  | None => None
  end.

(** The concurrency reads as an integer, at least one. *)
Definition valid_concurrency (a : BulkArgs) : Prop :=
  exists c, arg_concurrency a = Num c /\ 1 <= c.

Definition has_transcript (r : TranscriptResult) : bool :=
  match transcript r with
  | Some _ => true
  | None => false
  end.

(** The results the run owes: one per remaining video, in order. *)
Definition results_due `{Fetcher} `{Runtime} (a : BulkArgs)
  : list TranscriptResult :=
  map (Processor.processOne
         {| languages := Some (split comma (arg_lang a));
            timeout := None;
            proxy := proxy_in_use a |}) (remaining a).

(** Appending the results one after the other succeeds each time. *)
Definition appends_succeed `{Outputs} (results : list TranscriptResult) : Prop :=
  forall k r, results !! k = Some r -> appendJsonl (take k results) r = None.

(** Writing the results to the CSV succeeds, if it is asked for. *)
Definition csv_succeeds `{Outputs} (a : BulkArgs)
    (results : list TranscriptResult) : Prop :=
  arg_outCsv a = true -> results <> [] ->
  writeCsv results (arg_resume a) = None.

(** The tally [t] after the results [counted] have been counted and the
    results [kept] appended. *)
Definition tally_after (outCsv : bool) (t : Tally)
    (counted kept : list TranscriptResult) : Tally :=
  {| successCount :=
       (successCount t + length (List.filter has_transcript counted))%nat;
     failCount :=
       (failCount t
        + length (List.filter (fun r => negb (has_transcript r)) counted))%nat;
     appended := appended t ++ kept;
     csvResults := if outCsv then csvResults t ++ kept else csvResults t |}.

End CliSpec.

(** ** A small run used to exercise the statements *)

Module Fixture.

Definition candidate (id : string) (s : Source) : WatchHistoryMeta :=
  {| videoId := id; title := None; url := None; channel := None;
     watchedAt := None; source := s |}.

Definition transcript_of (id : string) : Transcript :=
  {| t_videoId := id; t_language := "en"; t_isAutoGenerated := false;
     t_segments := [ {| seg_text := "Hello world";
                        seg_start := 0%Q; seg_duration := 5%Q |} ] |}.

(** A fetcher for which one video has no captions, one attempt rejects
    with a value that is not an [Error], and the others succeed. *)
Definition fetcher : Fetcher :=
  {| fetchTranscript := fun id _ =>
       if String.eqb id "jNQXAC9IVRw"
       then inr (ThrownError "No captions available")
       else if String.eqb id "9bZkp7q19f0" then inr ThrownOther
       else inl (transcript_of id) |}.

Definition plain : FetchOptions :=
  {| languages := Some ["en"]; timeout := None; proxy := None |}.

Definition options (c p d : Z) (skip : gset string) (callback : bool)
  : BulkOptions :=
  {| concurrency := Some c; pauseAfter := Some p; pauseDuration := Some d;
     skipIds := Some skip; onProgress := callback; fetchOptions := plain |}.

Definition rick : WatchHistoryMeta := candidate "dQw4w9WgXcQ" history.
Definition zoo : WatchHistoryMeta := candidate "jNQXAC9IVRw" history.
Definition done_before : WatchHistoryMeta := candidate "processed01" watch_later.
Definition gangnam : WatchHistoryMeta := candidate "9bZkp7q19f0" watch_later.

Definition videos : list WatchHistoryMeta := [rick; zoo; done_before; gangnam].

Definition resumed : gset string := {[ "processed01" ]}.

(** Two at a time, batches of two, a tenth of a second between batches,
    one video already processed; with and without a progress callback. *)
Definition reporting : BulkOptions := options 2 2 100 resumed true.
Definition quiet : BulkOptions := options 2 2 100 resumed false.

(** The same with batches of three: the three videos left to process
    make exactly one batch. *)
Definition one_batch : BulkOptions := options 2 3 100 resumed false.

(** Batches of zero. *)
Definition no_advance : BulkOptions := options 2 0 100 resumed false.

(** Everything already processed. *)
Definition all_done : gset string :=
  {[ "dQw4w9WgXcQ"; "jNQXAC9IVRw"; "processed01"; "9bZkp7q19f0" ]}.
Definition nothing_left : BulkOptions := options 2 0 100 all_done false.

(** The attempt that completes next is the second of those running. *)
Definition second_first : Processor.Schedule := fun _ => 1%nat.

(** The export of the test 'handles quoted CSV values': a header line
    and one row whose two cells are quoted. *)
Definition quoted (s : string) : string :=
  String Js.dquote (s ++ String Js.dquote EmptyString)%string.

Definition quoted_csv : string :=
  ("Video ID,Playlist Video Creation Timestamp"
   ++ String Js.newline
        (quoted "quoted123" ++ "," ++ quoted "2024-01-01T00:00:00Z"
         ++ String Js.newline EmptyString))%string.

(** Caption tracks: Spanish auto-generated before English manual, and
    English auto-generated before American English manual. *)
Definition es_auto : Selector.CaptionTrack :=
  Selector.mkTrack "es" Selector.AUTO_GENERATED (Some "Spanish (auto-generated)") "A".
Definition en_manual : Selector.CaptionTrack :=
  Selector.mkTrack "en" Selector.MANUAL (Some "English") "B".
Definition en_auto : Selector.CaptionTrack :=
  Selector.mkTrack "en" Selector.AUTO_GENERATED None "C".
Definition en_us_manual : Selector.CaptionTrack :=
  Selector.mkTrack "en-US" Selector.MANUAL None "D".
Definition fr_manual : Selector.CaptionTrack :=
  Selector.mkTrack "fr" Selector.MANUAL None "E".

(** The log of the test 'handles malformed JSON lines': two records in
    the [{ meta: { videoId } }] form around a line that is not JSON, and
    a record in the alternative [{ videoId }] form. *)
Definition field (k v : string) : string :=
  (quoted k ++ ":" ++ v)%string.
Definition line_good1 : string :=
  ("{" ++ field "meta" ("{" ++ field "videoId" (quoted "good1") ++ "}") ++ "}")%string.
Definition line_good2 : string :=
  ("{" ++ field "meta" ("{" ++ field "videoId" (quoted "good2") ++ "}") ++ "}")%string.
Definition line_top : string :=
  ("{" ++ field "videoId" (quoted "processed03") ++ "}")%string.
Definition processed_log : string :=
  (line_good1 ++ String Js.newline
     ("not json" ++ String Js.newline
        (line_good2 ++ String Js.newline
           ("null" ++ String Js.newline line_top))))%string.

(** A history export of three items: a watch-page link, a short link
    whose path is three characters long, and a link to another site. *)
Definition history_items : list TakeoutHistoryItem :=
  [ {| item_header := Some "YouTube"; item_title := Some "Test Video 1";
       item_titleUrl := Some "https://www.youtube.com/watch?v=dQw4w9WgXcQ";
       item_subtitles := Some [ {| sub_name := Some "Test Channel";
                                   sub_url := None |} ];
       item_time := Some "2024-01-15T10:30:00.000Z" |};
    {| item_header := Some "YouTube"; item_title := Some "Short link";
       item_titleUrl := Some "https://youtu.be/abc";
       item_subtitles := None; item_time := None |};
    {| item_header := Some "YouTube"; item_title := Some "Invalid URL";
       item_titleUrl := Some "https://example.com/not-youtube";
       item_subtitles := None; item_time := None |} ].

(** An environment that knows the lines and links above: what
    [JSON.parse] and [new URL] give on them, everything else being
    rejected; its identifier resolver accepts bare identifiers only. *)
Definition runtime : Runtime :=
  {| JSON_parse := fun s =>
       if String.eqb s line_good1
       then Some (Js.JObj [("meta", Js.JObj [("videoId", Js.JStr "good1")])])
       else if String.eqb s line_good2
       then Some (Js.JObj [("meta", Js.JObj [("videoId", Js.JStr "good2")])])
       else if String.eqb s line_top
       then Some (Js.JObj [("videoId", Js.JStr "processed03")])
       else if String.eqb s "null" then Some Js.JNull
       else None;
     JSON_parse_history := fun s =>
       if String.eqb s "history" then Some history_items else None;
     URL_parse := fun s =>
       if String.eqb s "https://www.youtube.com/watch?v=dQw4w9WgXcQ"
       then Some {| Js.hostname := "www.youtube.com"; Js.pathname := "/watch";
                    Js.searchParams := [("v", "dQw4w9WgXcQ")] |}
       else if String.eqb s "https://youtu.be/abc"
       then Some {| Js.hostname := "youtu.be"; Js.pathname := "/abc";
                    Js.searchParams := [] |}
       else if String.eqb s "https://example.com/not-youtube"
       then Some {| Js.hostname := "example.com"; Js.pathname := "/not-youtube";
                    Js.searchParams := [] |}
       else None;
     extractVideoId := fun s =>
       if LoaderSpec.valid_video_id s then Some s else None |}.

(** The same video from the history and from the watch-later list, as in
    the test 'deduplicates by video ID'. *)
Definition first_vid1 : WatchHistoryMeta :=
  {| videoId := "vid1"; title := Some "First"; url := None; channel := None;
     watchedAt := None; source := history |}.
Definition second_vid1 : WatchHistoryMeta :=
  {| videoId := "vid1"; title := Some "Second"; url := None; channel := None;
     watchedAt := None; source := watch_later |}.
Definition vid2 : WatchHistoryMeta := candidate "vid2" watch_later.

(** An environment that reads the scheme off the front of a URL. *)
Definition url_protocol : UrlProtocol :=
  {| URL_protocol := fun s =>
       if String.prefix "http://" s then Some "http:"
       else if String.prefix "ftp://" s then Some "ftp:"
       else None |}.

(** Writers that never fail, and writers for which the log takes one
    record and no more. *)
Definition outputs : Outputs :=
  {| appendJsonl := fun _ _ => None;
     writeCsv := fun _ _ => None |}.

Definition full_disk : Outputs :=
  {| appendJsonl := fun before _ =>
       match before with
       | [] => None
       | _ :: _ => Some (ThrownError "ENOSPC")
       end;
     writeCsv := fun _ _ => Some (ThrownError "ENOSPC") |}.

(** A resumed run over the history export and two identifiers given on
    the command line, one of them already in the log. *)
Definition bulk_args : Cli.BulkArgs :=
  {| Cli.arg_history := Some (Js.FileText "history");
     Cli.arg_watchLater := None;
     Cli.arg_videos := Some "jNQXAC9IVRw, processed03";
     Cli.arg_file := None;
     Cli.arg_resume := true;
     Cli.arg_outJsonl := Js.FileText processed_log;
     Cli.arg_outCsv := true;
     Cli.arg_concurrency := Cli.Num 4;
     Cli.arg_pauseAfter := Cli.Num 10;
     Cli.arg_pauseMs := Cli.Num 5000;
     Cli.arg_lang := "en";
     Cli.arg_proxy := Some "http://proxy.example:8080" |}.

(** The same run through a proxy of a scheme that is not accepted. *)
Definition bulk_args_ftp : Cli.BulkArgs :=
  {| Cli.arg_history := Some (Js.FileText "history");
     Cli.arg_watchLater := None;
     Cli.arg_videos := Some "jNQXAC9IVRw, processed03";
     Cli.arg_file := None;
     Cli.arg_resume := true;
     Cli.arg_outJsonl := Js.FileText processed_log;
     Cli.arg_outCsv := true;
     Cli.arg_concurrency := Cli.Num 4;
     Cli.arg_pauseAfter := Cli.Num 10;
     Cli.arg_pauseMs := Cli.Num 5000;
     Cli.arg_lang := "en";
     Cli.arg_proxy := Some "ftp://proxy.example" |}.

(** A run given nothing but a list of strings that are no identifiers. *)
Definition bulk_args_unusable : Cli.BulkArgs :=
  {| Cli.arg_history := None;
     Cli.arg_watchLater := None;
     Cli.arg_videos := Some "invalid, also invalid";
     Cli.arg_file := None;
     Cli.arg_resume := false;
     Cli.arg_outJsonl := Js.FileMissing;
     Cli.arg_outCsv := false;
     Cli.arg_concurrency := Cli.Num 4;
     Cli.arg_pauseAfter := Cli.Num 10;
     Cli.arg_pauseMs := Cli.Num 5000;
     Cli.arg_lang := "en";
     Cli.arg_proxy := None |}.

End Fixture.

(** ** Properties of the bulk processor *)

Module ProcessorFacts.
Import Processor Trace.

Section WithFetcher.
Context `{Fetcher}.

Lemma slice_take_drop {A} (l : list A) (i p : Z) :
  0 <= i -> i < Z.of_nat (length l) -> 1 <= p ->
  slice l i (i + p) = take (Z.to_nat p) (drop (Z.to_nat i) l).
Proof.
  intros Hi Hlt Hp. unfold slice, slice_index.
  destruct (Z.ltb_spec i 0); [lia|].
  destruct (Z.ltb_spec (i + p) 0); [lia|].
  rewrite (Z.min_l i) by lia.
  destruct (Z.le_gt_cases (i + p) (Z.of_nat (length l))) as [Hle|Hgt].
  - rewrite Z.min_l by lia. f_equal. lia.
  - rewrite Z.min_r by lia.
    rewrite !take_ge; [reflexivity| |]; rewrite length_drop; lia.
Qed.

Lemma batched_head_nonempty {A} (p : nat) (b : list A) (bs : list (list A)) :
  (1 <= p)%nat -> batched p (b :: bs) -> (1 <= length b)%nat.
Proof. intros Hp Hb. simpl in Hb. destruct bs; lia. Qed.

(** With a positive step the partitioning loop ends within
    [length tp - i + 1] tests, and what it appends is [drop i tp] cut
    into batches. *)
Lemma partition_loop_spec (tp : list WatchHistoryMeta) (p : Z) :
  1 <= p ->
  forall (fuel : nat) (i : Z) (batches : list (list WatchHistoryMeta)),
    0 <= i ->
    (Z.to_nat (Z.of_nat (length tp) - i) < fuel)%nat ->
    exists bs,
      partition_loop fuel tp p i batches = Some (batches ++ bs)
      /\ concat bs = drop (Z.to_nat i) tp
      /\ batched (Z.to_nat p) bs.
Proof.
  intros Hp. induction fuel as [|fuel IH]; intros i batches Hi Hfuel; [lia|].
  simpl. destruct (Z.ltb_spec i (Z.of_nat (length tp))) as [Hlt|Hge].
  - rewrite slice_take_drop by lia.
    set (s := take (Z.to_nat p) (drop (Z.to_nat i) tp)).
    destruct (IH (i + p) (batches ++ [s])) as (bs & Hrun & Hcat & Hb); [lia|lia|].
    exists (s :: bs). split; [|split].
    + rewrite Hrun. f_equal. rewrite <- app_assoc. reflexivity.
    + simpl. rewrite Hcat. subst s.
      replace (Z.to_nat (i + p)) with (Z.to_nat i + Z.to_nat p)%nat by lia.
      rewrite <- drop_drop. apply take_drop.
    + assert (Hlen : length s = Nat.min (Z.to_nat p) (length tp - Z.to_nat i)).
      { subst s. rewrite length_take, length_drop. reflexivity. }
      destruct bs as [|b bs]; simpl; [lia|].
      split; [|exact Hb].
      assert (1 <= length b)%nat
        by (apply (batched_head_nonempty (Z.to_nat p) b bs); [lia|exact Hb]).
      assert (Hd : (1 <= length (drop (Z.to_nat (i + p)) tp))%nat).
      { rewrite <- Hcat. simpl. rewrite length_app. lia. }
      rewrite length_drop in Hd. lia.
  - exists []. rewrite app_nil_r. split; [reflexivity|]. split; [|exact I].
    simpl. symmetry. apply drop_ge. lia.
Qed.

(** With a step that is not positive the index never passes the end of a
    non-empty list: the loop test holds at every turn. *)
Lemma partition_loop_stuck (tp : list WatchHistoryMeta) (p : Z) :
  p <= 0 -> tp <> [] ->
  forall (fuel : nat) (i : Z) (batches : list (list WatchHistoryMeta)),
    i <= 0 -> partition_loop fuel tp p i batches = None.
Proof.
  intros Hp Hne. induction fuel as [|fuel IH]; intros i batches Hi; [reflexivity|].
  simpl. destruct (Z.ltb_spec i (Z.of_nat (length tp))) as [Hlt|Hge].
  - apply IH. lia.
  - destruct tp; [congruence|]. simpl in Hge. lia.
Qed.

Lemma run_batches_results (c : nat) (pick : Schedule) (o : BulkOptions)
    (total : nat) (batches : list (list WatchHistoryMeta)) :
  forall batchIndex nbatches completed,
    fst (run_batches c pick o total batches batchIndex nbatches completed)
    = map (processOne (fetchOptions o)) (concat batches).
Proof.
  induction batches as [|batch rest IH]; intros bi nb completed; [reflexivity|].
  simpl.
  destruct (run_limited _ _ _ _ _ _ _ _) as [evs completed'].
  specialize (IH (S bi) nb completed').
  destruct (run_batches _ _ _ _ _ _ _ _) as [results evs'].
  simpl in *. rewrite IH, map_app. reflexivity.
Qed.

Lemma toProcess_length (videos : list WatchHistoryMeta) (o : BulkOptions) :
  (length (toProcess videos o) <= length videos)%nat.
Proof. unfold toProcess. apply filter_length_le. Qed.

(** *** One batch under the limiter *)

Lemma projections_of_starts (l : list WatchHistoryMeta) :
  dones (map EvStart l) = [] /\ progress_calls (map EvStart l) = []
  /\ starts (map EvStart l) = l /\ sleeps (map EvStart l) = []
  /\ yielded (map EvStart l) = [].
Proof.
  unfold dones, progress_calls, starts, sleeps, yielded.
  induction l as [|m l (IH1 & IH2 & IH3 & IH4 & IH5)]; [repeat split|].
  cbn in *. repeat split; congruence.
Qed.

Lemma projections_of_progress (b : bool) (k total : nat) (r : TranscriptResult) :
  let evs := if b then [EvProgress k total r] else [] in
  dones evs = [] /\ starts evs = [] /\ sleeps evs = [] /\ yielded evs = []
  /\ progress_calls evs = if b then [(k, total, r)] else [].
Proof. destruct b; repeat split. Qed.

Lemma number_from_app (k total : nat) (rs1 rs2 : list TranscriptResult) :
  number_from k total (rs1 ++ rs2)
  = number_from k total rs1 ++ number_from (k + length rs1) total rs2.
Proof.
  revert k. induction rs1 as [|r rs1 IH]; intros k; simpl.
  - rewrite Nat.add_0_r. reflexivity.
  - rewrite IH. replace (k + S (length rs1))%nat with (S k + length rs1)%nat by lia.
    reflexivity.
Qed.

Lemma number_from_length (k total : nat) (rs : list TranscriptResult) :
  length (number_from k total rs) = length rs.
Proof. revert k. induction rs as [|r rs IH]; intros k; simpl; [|rewrite IH]; reflexivity. Qed.

(** A batch run under a limiter of width [c]: every queued attempt is
    dispatched, in the order of the queue; every attempt completes once,
    in an order the schedule decides; the callback, when there is one, is
    called at each completion with the count so far. *)
Lemma run_limited_spec (c : nat) (pick : Schedule) (o : BulkOptions) (total : nat) :
  (1 <= c)%nat ->
  forall (n : nat) (queue active : list WatchHistoryMeta) (completed : nat),
    n = (length queue + length active)%nat ->
    (length active <= c)%nat ->
    exists evs,
      run_limited n c pick o total queue active completed
      = (evs, (completed + n)%nat)
      /\ dones evs ≡ₚ map (processOne (fetchOptions o)) (active ++ queue)
      /\ progress_calls evs
         = (if onProgress o then number_from completed total (dones evs) else [])
      /\ starts evs = queue
      /\ sleeps evs = [] /\ yielded evs = [].
Proof.
  intros Hc. induction n as [|n IH]; intros queue active completed Hn Hact.
  - destruct queue; [|simpl in Hn; lia]. destruct active; [|simpl in Hn; lia].
    exists []. simpl. rewrite Nat.add_0_r. destruct (onProgress o); repeat split; done.
  - cbn [run_limited start_queued].
    set (k := (c - length active)%nat).
    destruct (active ++ take k queue) as [|m0 l] eqn:Hact'.
    { apply app_eq_nil in Hact' as [-> Htake]. simpl in *.
      destruct queue; [simpl in Hn; lia|]. subst k.
      destruct c; [lia|]. discriminate. }
    rewrite <- Hact'.
    set (act := active ++ take k queue) in *.
    assert (Hlen : length act = (length active + Nat.min k (length queue))%nat).
    { subst act. rewrite length_app, length_take. reflexivity. }
    assert (Hpos : (0 < length act)%nat) by (rewrite Hact'; simpl; lia).
    set (idx := (pick completed mod length act)%nat).
    assert (Hidx : (idx < length act)%nat) by (apply Nat.mod_upper_bound; lia).
    destruct (lookup_lt_is_Some_2 act idx Hidx) as [m Hm].
    assert (Hnth : nth idx act m0 = m) by (rewrite nth_lookup, Hm; reflexivity).
    rewrite Hnth.
    destruct (IH (drop k queue) (delete idx act) (S completed))
      as (evs & Hrun & Hperm & Hprog & Hstarts & Hsleeps & Hyield).
    { rewrite length_drop, length_delete by eauto. lia. }
    { rewrite length_delete by eauto. lia. }
    rewrite Hrun.
    destruct (projections_of_starts (take k queue)) as (S1 & S2 & S3 & S4 & S5).
    pose proof (projections_of_progress (onProgress o) (S completed) total
                  (processOne (fetchOptions o) m)) as (P1 & P2 & P3 & P4 & P5).
    eexists. split; [f_equal; lia|].
    unfold dones, progress_calls, starts, sleeps, yielded in *.
    rewrite !omap_app. cbn [omap list_omap]. rewrite !omap_app.
    rewrite S1, S2, S3, S4, S5, P1, P2, P3, P4, P5, Hstarts, Hsleeps, Hyield.
    simpl. repeat split.
    + rewrite Hperm.
      rewrite <- (take_drop k queue) at 2. rewrite app_assoc. fold act.
      change (processOne (fetchOptions o) m
              :: map (processOne (fetchOptions o)) (delete idx act ++ drop k queue))
        with (map (processOne (fetchOptions o))
                ((m :: delete idx act) ++ drop k queue)).
      apply Permutation_map, Permutation_app_tail.
      symmetry. apply delete_Permutation. exact Hm.
    + rewrite Hprog. destruct (onProgress o); reflexivity.
    + apply take_drop.
Qed.

Lemma in_flight_nil : in_flight [] = 0.
Proof. reflexivity. Qed.

Lemma in_flight_cons (e : Event) (evs : list Event) :
  in_flight (e :: evs)
  = in_flight evs
    + match e with EvStart _ => 1 | EvDone _ => -1 | _ => 0 end.
Proof. unfold in_flight, starts, dones, omap. destruct e; simpl; lia. Qed.

Lemma in_flight_app (evs1 evs2 : list Event) :
  in_flight (evs1 ++ evs2) = in_flight evs1 + in_flight evs2.
Proof.
  induction evs1 as [|e evs1 IH]; [rewrite in_flight_nil; simpl; lia|].
  cbn [app]. rewrite !in_flight_cons, IH. lia.
Qed.

Lemma in_flight_starts (l : list WatchHistoryMeta) :
  in_flight (map EvStart l) = Z.of_nat (length l).
Proof.
  induction l as [|m l IH]; [reflexivity|].
  cbn [map]. rewrite in_flight_cons, IH. simpl length. lia.
Qed.

Lemma in_flight_starts_prefix (l : list WatchHistoryMeta)
    (pre r : list Event) :
  map EvStart l = pre ++ r -> in_flight pre = Z.of_nat (length pre).
Proof.
  revert l. induction pre as [|e pre IH]; intros l Heq; [reflexivity|].
  destruct l as [|m l]; [discriminate|].
  simpl in Heq. injection Heq as <- Heq.
  rewrite in_flight_cons, (IH l Heq). simpl length. lia.
Qed.

Lemma in_flight_progress (b : bool) (k total : nat) (r : TranscriptResult)
    (pre post : list Event) :
  (if b then [EvProgress k total r] else []) = pre ++ post ->
  in_flight pre = 0.
Proof.
  destruct b, pre as [|e pre]; simpl; intros Heq; try reflexivity;
    try discriminate.
  injection Heq as <- Heq. symmetry in Heq.
  apply app_eq_nil in Heq as [-> _]. reflexivity.
Qed.

(** Where a prefix of a concatenation ends. *)
Lemma prefix_of_app {A} (pre post a b : list A) :
  a ++ b = pre ++ post ->
  (exists r, a = pre ++ r)
  \/ (exists r, pre = a ++ r /\ b = r ++ post).
Proof.
  revert pre. induction a as [|x a IH]; intros pre Heq.
  - right. exists pre. split; [reflexivity|exact Heq].
  - destruct pre as [|y pre].
    + left. exists (x :: a). reflexivity.
    + simpl in Heq. injection Heq as <- Heq.
      destruct (IH pre Heq) as [(r & ->)|(r & -> & ->)].
      * left. exists r. reflexivity.
      * right. exists r. split; reflexivity.
Qed.

(** Under a limiter of width [c], at no point of a batch are more than
    [c] attempts in flight, and none is left in flight at its end. *)
Lemma run_limited_in_flight (c : nat) (pick : Schedule) (o : BulkOptions)
    (total : nat) :
  (1 <= c)%nat ->
  forall (n : nat) (queue active : list WatchHistoryMeta) (completed : nat),
    n = (length queue + length active)%nat ->
    (length active <= c)%nat ->
    let evs := fst (run_limited n c pick o total queue active completed) in
    Z.of_nat (length active) + in_flight evs = 0
    /\ forall pre post,
         evs = pre ++ post ->
         0 <= Z.of_nat (length active) + in_flight pre <= Z.of_nat c.
Proof.
  intros Hc. induction n as [|n IH]; intros queue active completed Hn Hact;
    cbn zeta.
  - destruct queue; [|simpl in Hn; lia]. destruct active; [|simpl in Hn; lia].
    simpl. split; [reflexivity|]. intros pre post Heq.
    symmetry in Heq. apply app_eq_nil in Heq as [-> _]. rewrite in_flight_nil. lia.
  - cbn [run_limited start_queued].
    set (k := (c - length active)%nat).
    destruct (active ++ take k queue) as [|m0 l] eqn:Hact'.
    { apply app_eq_nil in Hact' as [-> Htake]. simpl in *.
      destruct queue; [simpl in Hn; lia|]. subst k.
      destruct c; [lia|]. discriminate. }
    rewrite <- Hact'.
    set (act := active ++ take k queue) in *.
    assert (Hlen : length act = (length active + length (take k queue))%nat)
      by (subst act; apply length_app).
    assert (Hk : (length (take k queue) <= c - length active)%nat)
      by (rewrite length_take; lia).
    assert (Hpos : (0 < length act)%nat) by (rewrite Hact'; simpl; lia).
    set (idx := (pick completed mod length act)%nat).
    assert (Hidx : (idx < length act)%nat) by (apply Nat.mod_upper_bound; lia).
    assert (Hdel : length (delete idx act) = (length act - 1)%nat)
      by (apply length_delete, lookup_lt_is_Some_2; exact Hidx).
    specialize (IH (drop k queue) (delete idx act) (S completed)).
    destruct (run_limited n c pick o total (drop k queue) (delete idx act)
                (S completed)) as [evs final] eqn:Hrun.
    cbn [fst] in *.
    destruct IH as [Hend Hbound].
    { rewrite length_drop, Hdel, Hlen, length_take in *. lia. }
    { lia. }
    set (result := processOne (fetchOptions o) (nth idx act m0)) in *.
    set (progress := if onProgress o
                     then [EvProgress (S completed) total result] else []).
    assert (Hprog : in_flight progress = 0)
      by (apply (in_flight_progress (onProgress o) (S completed) total result
                   progress []); rewrite app_nil_r; reflexivity).
    split.
    + rewrite in_flight_app, in_flight_cons, in_flight_app, in_flight_starts, Hprog.
      lia.
    + intros pre post Heq.
      apply prefix_of_app in Heq as [(r & Hr)|(r & -> & Hr)].
      * rewrite (in_flight_starts_prefix _ _ _ Hr).
        apply (f_equal (@length _)) in Hr.
        rewrite length_map, length_app in Hr. lia.
      * rewrite in_flight_app, in_flight_starts.
        destruct r as [|e r]; [rewrite in_flight_nil; lia|].
        simpl in Hr. injection Hr as <- Hr. rewrite in_flight_cons.
        apply prefix_of_app in Hr as [(r' & Hr')|(r' & -> & Hr')].
        -- rewrite (in_flight_progress (onProgress o) (S completed) total result
                      r r' Hr'). lia.
        -- rewrite in_flight_app, Hprog. specialize (Hbound r' post Hr'). lia.
Qed.

(** *** The loop over the batches *)

Lemma projections_of_pause (o : BulkOptions) :
  dones (pause_between o) = [] /\ starts (pause_between o) = []
  /\ progress_calls (pause_between o) = [] /\ yielded (pause_between o) = [].
Proof. unfold pause_between. destruct (0 <? get_pauseDuration o); repeat split. Qed.

Lemma run_batches_spec (c : nat) (pick : Schedule) (o : BulkOptions) (total : nat) :
  (1 <= c)%nat ->
  forall (batches : list (list WatchHistoryMeta)) (batchIndex nbatches completed : nat),
    nbatches = (batchIndex + length batches)%nat ->
    let trace :=
      snd (run_batches c pick o total batches batchIndex nbatches completed) in
    (exists segs,
        trace = join_with (pause_between o) segs
        /\ Forall2 (segment_of o) segs batches)
    /\ dones trace ≡ₚ map (processOne (fetchOptions o)) (concat batches)
    /\ progress_calls trace
       = (if onProgress o then number_from completed total (dones trace) else [])
    /\ starts trace = concat batches
    /\ yielded trace = [].
Proof.
  intros Hc. induction batches as [|batch rest IH];
    intros bi nb completed Hnb; cbn zeta.
  - simpl. split; [exists []; split; [reflexivity|constructor]|].
    destruct (onProgress o); repeat split; done.
  - cbn [run_batches].
    destruct (run_limited_spec c pick o total Hc (length batch) batch [] completed)
      as (evs & Hrun & Hperm & Hprog & Hstarts & Hsleeps & Hyield);
      [simpl; lia|simpl; lia|].
    rewrite Hrun.
    specialize (IH (S bi) nb (completed + length batch)%nat).
    destruct (run_batches c pick o total rest (S bi) nb (completed + length batch)%nat)
      as [results evs'] eqn:Hrest.
    cbn [snd] in *.
    destruct IH as ((segs & Htrace & Hsegs) & Hperm' & Hprog' & Hstarts' & Hyield');
      [simpl in Hnb; lia|].
    assert (Hpause :
      (if (Z.of_nat bi <? Z.of_nat nb - 1) && (0 <? get_pauseDuration o)
       then [EvSleep (get_pauseDuration o)] else [])
      = match rest with [] => [] | _ :: _ => pause_between o end).
    { unfold pause_between. destruct rest; simpl in Hnb.
      - destruct (Z.ltb_spec (Z.of_nat bi) (Z.of_nat nb - 1)); [lia|reflexivity].
      - destruct (Z.ltb_spec (Z.of_nat bi) (Z.of_nat nb - 1)); [|lia].
        reflexivity. }
    rewrite Hpause. clear Hpause.
    assert (Hlen : length (dones evs) = length batch).
    { rewrite Hperm, length_map, app_nil_l. reflexivity. }
    destruct (projections_of_pause o) as (Q1 & Q2 & Q3 & Q4).
    split; [|].
    + exists (evs :: segs). split.
      * destruct rest as [|b' rest'].
        -- inversion Hsegs; subst. simpl in Hrest. inversion Hrest; subst.
           simpl. rewrite app_nil_r. reflexivity.
        -- inversion Hsegs; subst. simpl. reflexivity.
      * constructor; [|exact Hsegs]. repeat split; assumption.
    + assert (Hd : dones (match rest with [] => [] | _ :: _ => pause_between o end) = []
                   /\ starts (match rest with [] => [] | _ :: _ => pause_between o end) = []
                   /\ progress_calls (match rest with [] => [] | _ :: _ => pause_between o end) = []
                   /\ yielded (match rest with [] => [] | _ :: _ => pause_between o end) = [])
        by (destruct rest; [repeat split|repeat split; assumption]).
      destruct Hd as (D1 & D2 & D3 & D4).
      unfold dones, progress_calls, starts, sleeps, yielded in *.
      rewrite !omap_app, D1, D2, D3, D4, Hstarts, Hyield, Hstarts', Hyield'.
      simpl. repeat split.
      * rewrite map_app. apply Permutation_app; assumption.
      * rewrite Hprog, Hprog'. destruct (onProgress o); [|reflexivity].
        rewrite number_from_app, Hlen. reflexivity.
Qed.

Lemma in_flight_sleep (b : bool) (d : Z) (pre post : list Event) :
  (if b then [EvSleep d] else []) = pre ++ post -> in_flight pre = 0.
Proof.
  destruct b, pre as [|e pre]; simpl; intros Heq; try reflexivity;
    try discriminate.
  injection Heq as <- Heq. symmetry in Heq.
  apply app_eq_nil in Heq as [-> _]. reflexivity.
Qed.

(** The cap holds along the whole collecting run, and no attempt is in
    flight between two batches. *)
Lemma run_batches_in_flight (c : nat) (pick : Schedule) (o : BulkOptions)
    (total : nat) :
  (1 <= c)%nat ->
  forall (batches : list (list WatchHistoryMeta)) (batchIndex nbatches completed : nat),
    let trace :=
      snd (run_batches c pick o total batches batchIndex nbatches completed) in
    in_flight trace = 0
    /\ forall pre post,
         trace = pre ++ post -> 0 <= in_flight pre <= Z.of_nat c.
Proof.
  intros Hc. induction batches as [|batch rest IH];
    intros bi nb completed; cbn zeta.
  - simpl. split; [reflexivity|]. intros pre post Heq.
    symmetry in Heq. apply app_eq_nil in Heq as [-> _]. rewrite in_flight_nil. lia.
  - cbn [run_batches].
    pose proof (run_limited_in_flight c pick o total Hc (length batch) batch []
                  completed) as Hbatch.
    destruct (run_limited (length batch) c pick o total batch [] completed)
      as [evs completed'] eqn:Hrun.
    cbn [fst] in Hbatch.
    destruct Hbatch as [Hend Hbound]; [simpl; lia|simpl; lia|].
    simpl length in Hend, Hbound.
    specialize (IH (S bi) nb completed').
    destruct (run_batches c pick o total rest (S bi) nb completed')
      as [results evs'] eqn:Hrest.
    cbn [snd] in *. destruct IH as [Hend' Hbound'].
    set (pause := if (Z.of_nat bi <? Z.of_nat nb - 1) && (0 <? get_pauseDuration o)
                  then [EvSleep (get_pauseDuration o)] else []).
    assert (Hpause : in_flight pause = 0)
      by (subst pause; destruct (_ && _); reflexivity).
    split.
    + rewrite !in_flight_app, Hpause. lia.
    + intros pre post Heq.
      apply prefix_of_app in Heq as [(r & Hr)|(r & -> & Hr)].
      * specialize (Hbound pre r Hr). lia.
      * rewrite in_flight_app.
        apply prefix_of_app in Hr as [(r' & Hr')|(r' & -> & Hr')].
        -- subst pause. rewrite (in_flight_sleep _ _ _ _ Hr'). lia.
        -- rewrite in_flight_app, Hpause. specialize (Hbound' r' post Hr'). lia.
Qed.

(** [processVideos] under a valid configuration, results and trace. *)
Lemma processVideos_spec (fuel : nat) (pick : Schedule)
    (videos : list WatchHistoryMeta) (o : BulkOptions) :
  1 <= get_concurrency o -> 1 <= get_pauseAfter o ->
  (length videos < fuel)%nat ->
  let tp := toProcess videos o in
  exists trace batches,
    processVideos fuel pick videos o
    = (Returned (map (processOne (fetchOptions o)) tp), trace)
    /\ concat batches = tp
    /\ batched (Z.to_nat (get_pauseAfter o)) batches
    /\ (exists segs,
          trace = join_with (pause_between o) segs
          /\ Forall2 (segment_of o) segs batches)
    /\ dones trace ≡ₚ map (processOne (fetchOptions o)) tp
    /\ progress_calls trace
       = (if onProgress o then number_from 0 (length tp) (dones trace) else [])
    /\ starts trace = tp
    /\ yielded trace = [].
Proof.
  intros Hc Hp Hfuel tp. subst tp. unfold processVideos.
  pose proof (toProcess_length videos o) as Hlen.
  destruct (toProcess videos o) as [|v tp] eqn:Htp.
  - exists [], []. simpl. split; [reflexivity|]. split; [reflexivity|].
    split; [exact I|]. split; [exists []; split; [reflexivity|constructor]|].
    destruct (onProgress o); repeat split; done.
  - unfold pLimit. destruct (Z.leb_spec 1 (get_concurrency o)); [|lia].
    destruct (partition_loop_spec (v :: tp) (get_pauseAfter o) Hp fuel 0 [])
      as (bs & Hrun & Hcat & Hb); [lia|simpl in *; lia|].
    rewrite Hrun. simpl app.
    pose proof (run_batches_results (Z.to_nat (get_concurrency o)) pick o
                  (length (v :: tp)) bs 0 (length bs) 0) as Hres.
    pose proof (run_batches_spec (Z.to_nat (get_concurrency o)) pick o
                  (length (v :: tp)) ltac:(lia) bs 0 (length bs) 0 eq_refl) as Hspec.
    destruct (run_batches _ _ _ _ _ _ _ _) as [results evs].
    cbn [fst snd] in *. simpl drop in Hcat. rewrite Hcat in Hres, Hspec.
    exists evs, bs. rewrite Hres. split; [reflexivity|]. split; [exact Hcat|].
    split; [exact Hb|]. exact Hspec.
Qed.

(** A collecting run never has more than [concurrency] attempts in
    flight. *)
Lemma processVideos_in_flight (fuel : nat) (pick : Schedule)
    (videos : list WatchHistoryMeta) (o : BulkOptions) :
  forall pre post,
    snd (processVideos fuel pick videos o) = pre ++ post ->
    0 <= in_flight pre <= Z.max 0 (get_concurrency o).
Proof.
  intros pre post. unfold processVideos.
  assert (Hnil : [] = pre ++ post -> 0 <= in_flight pre <= Z.max 0 (get_concurrency o)).
  { intros Heq. symmetry in Heq. apply app_eq_nil in Heq as [-> _].
    rewrite in_flight_nil. lia. }
  destruct (toProcess videos o) as [|v tp]; [exact Hnil|].
  unfold pLimit. destruct (Z.leb_spec 1 (get_concurrency o)); [|exact Hnil].
  destruct (partition_loop fuel (v :: tp) (get_pauseAfter o) 0 []) as [bs|];
    [|exact Hnil].
  pose proof (run_batches_in_flight (Z.to_nat (get_concurrency o)) pick o
                (length (v :: tp)) ltac:(lia) bs 0 (length bs) 0) as [_ Hbound].
  destruct (run_batches _ _ _ _ _ _ _ _) as [results evs].
  cbn [snd] in *. intros Heq. specialize (Hbound pre post Heq). lia.
Qed.

(** *** The streaming loop *)

Lemma stream_loop_spec (o : BulkOptions) :
  forall (tp : list WatchHistoryMeta) (k : Z),
    yielded (stream_loop o tp k) = map (processOne (fetchOptions o)) tp
    /\ dones (stream_loop o tp k) = map (processOne (fetchOptions o)) tp
    /\ starts (stream_loop o tp k) = tp
    /\ progress_calls (stream_loop o tp k) = [].
Proof.
  induction tp as [|m rest IH]; intros k; [repeat split|].
  cbn [stream_loop].
  destruct (get_pauseAfter o <=? k + 1).
  - destruct (IH 0) as (I1 & I2 & I3 & I4).
    unfold yielded, dones, starts, progress_calls in *.
    rewrite !omap_app, I1, I2, I3, I4.
    destruct (0 <? get_pauseDuration o); repeat split.
  - destruct (IH (k + 1)) as (I1 & I2 & I3 & I4).
    unfold yielded, dones, starts, progress_calls in *.
    rewrite !omap_app, I1, I2, I3, I4. repeat split.
Qed.

(** In the streaming loop an attempt is dispatched only after the one
    before it has completed: at every point of the trace at most one
    attempt is in flight. *)
Lemma stream_loop_sequential (o : BulkOptions) :
  forall (tp : list WatchHistoryMeta) (k : Z) (pre post : list Event),
    stream_loop o tp k = pre ++ post -> 0 <= in_flight pre <= 1.
Proof.
  induction tp as [|m rest IH]; intros k pre post Heq.
  - symmetry in Heq. apply app_eq_nil in Heq as [-> _]. rewrite in_flight_nil. lia.
  - cbn [stream_loop] in Heq.
    assert (Htail : exists tail,
      [EvStart m; EvDone (processOne (fetchOptions o) m);
       EvYield (processOne (fetchOptions o) m)] ++ tail = pre ++ post
      /\ forall pre' post', tail = pre' ++ post' -> 0 <= in_flight pre' <= 1).
    { destruct (get_pauseAfter o <=? k + 1).
      - eexists. split; [exact Heq|]. intros pre' post' Ht.
        destruct (0 <? get_pauseDuration o).
        + destruct pre' as [|e pre'']; [rewrite in_flight_nil; lia|].
          simpl in Ht. injection Ht as <- Ht.
          rewrite in_flight_cons. specialize (IH 0 pre'' post' Ht). lia.
        + exact (IH 0 pre' post' Ht).
      - eexists. split; [exact Heq|]. intros pre' post' Ht.
        exact (IH (k + 1) pre' post' Ht). }
    destruct Htail as (tail & Hsplit & Htail). clear Heq IH.
    destruct pre as [|e1 pre]; [rewrite in_flight_nil; lia|].
    simpl in Hsplit. injection Hsplit as <- Hsplit.
    destruct pre as [|e2 pre]; [rewrite in_flight_cons, in_flight_nil; lia|].
    simpl in Hsplit. injection Hsplit as <- Hsplit.
    destruct pre as [|e3 pre]; [rewrite !in_flight_cons, in_flight_nil; lia|].
    simpl in Hsplit. injection Hsplit as <- Hsplit.
    rewrite !in_flight_cons. specialize (Htail pre post Hsplit). lia.
Qed.

(** The streaming loop idles after every [pauseAfter] items, the last
    ones included: when the number of items left completes a batch, the
    trace ends with an idle period. *)
Lemma stream_loop_trailing_sleep (o : BulkOptions) :
  1 <= get_pauseAfter o -> 0 < get_pauseDuration o ->
  forall (tp : list WatchHistoryMeta) (k : Z),
    tp <> [] -> 0 <= k < get_pauseAfter o ->
    (k + Z.of_nat (length tp)) mod get_pauseAfter o = 0 ->
    last (stream_loop o tp k) = Some (EvSleep (get_pauseDuration o)).
Proof.
  intros Hp Hd. induction tp as [|m rest IH]; intros k Hne Hk Hmod; [congruence|].
  cbn [stream_loop].
  destruct (Z.ltb_spec 0 (get_pauseDuration o)); [|lia].
  destruct (Z.leb_spec (get_pauseAfter o) (k + 1)) as [Hfull|Hpart].
  - assert (Hkp : k + 1 = get_pauseAfter o) by lia.
    destruct rest as [|m' rest']; [reflexivity|].
    rewrite !last_app. rewrite IH; [reflexivity|congruence|lia|].
    etransitivity; [|exact Hmod].
    replace (k + Z.of_nat (length (m :: m' :: rest')))
      with (0 + Z.of_nat (length (m' :: rest')) + 1 * get_pauseAfter o)
      by (simpl length; lia).
    rewrite Z.mod_add by lia. reflexivity.
  - destruct rest as [|m' rest'].
    + exfalso. simpl length in Hmod. rewrite Z.mod_small in Hmod by lia. lia.
    + rewrite last_app. rewrite IH; [reflexivity|congruence|lia|].
      etransitivity; [|exact Hmod]. f_equal. simpl length. lia.
Qed.

Lemma processOne_meta (fo : FetchOptions) (m : WatchHistoryMeta) :
  meta (processOne fo m) = m.
Proof. unfold processOne. destruct (fetchTranscript _ _); reflexivity. Qed.

Lemma processOne_failure (fo : FetchOptions) (m : WatchHistoryMeta) (t : Thrown) :
  fetchTranscript (videoId m) fo = inr t ->
  processOne fo m
  = {| meta := m; transcript := None; error := Some (error_message t) |}.
Proof. intros Hf. unfold processOne. rewrite Hf. reflexivity. Qed.

Lemma toProcess_In (videos : list WatchHistoryMeta) (o : BulkOptions)
    (m : WatchHistoryMeta) :
  In m (toProcess videos o) <-> In m videos /\ videoId m ∉ get_skipIds o.
Proof.
  unfold toProcess. rewrite filter_In, negb_true_iff, bool_decide_eq_false.
  reflexivity.
Qed.

Lemma toProcess_all_skipped (videos : list WatchHistoryMeta) (o : BulkOptions) :
  Forall (fun v => videoId v ∈ get_skipIds o) videos -> toProcess videos o = [].
Proof.
  intros Hall. destruct (toProcess videos o) as [|m tp] eqn:Htp; [reflexivity|].
  assert (Hin : In m (toProcess videos o)) by (rewrite Htp; left; reflexivity).
  apply toProcess_In in Hin as [Hin Hskip].
  rewrite Forall_forall in Hall. exfalso. apply Hskip, Hall.
  apply list_elem_of_In. exact Hin.
Qed.

(** What [streamVideos] does under a valid concurrency. *)
Lemma streamVideos_spec (videos : list WatchHistoryMeta) (o : BulkOptions) :
  1 <= get_concurrency o ->
  exists trace,
    streamVideos videos o = (Returned (), trace)
    /\ yielded trace = map (processOne (fetchOptions o)) (toProcess videos o).
Proof.
  intros Hc. unfold streamVideos.
  destruct (toProcess videos o) as [|v tp] eqn:Htp; [exists []; split; reflexivity|].
  unfold pLimit. destruct (Z.leb_spec 1 (get_concurrency o)); [|lia].
  eexists. split; [reflexivity|]. apply stream_loop_spec.
Qed.

(** Whatever the options, a stream never calls the progress callback and
    never has two attempts in flight. *)
Lemma streamVideos_trace (videos : list WatchHistoryMeta) (o : BulkOptions) :
  progress_calls (snd (streamVideos videos o)) = []
  /\ forall pre post,
       snd (streamVideos videos o) = pre ++ post -> 0 <= in_flight pre <= 1.
Proof.
  unfold streamVideos.
  destruct (toProcess videos o) as [|v tp] eqn:Htp.
  - split; [reflexivity|]. intros pre post Heq. simpl in Heq.
    symmetry in Heq. apply app_eq_nil in Heq as [-> _]. rewrite in_flight_nil. lia.
  - destruct (pLimit (get_concurrency o)).
    + split; [reflexivity|]. intros pre post Heq. simpl in Heq.
      symmetry in Heq. apply app_eq_nil in Heq as [-> _]. rewrite in_flight_nil. lia.
    + split; [apply stream_loop_spec|]. intros pre post Heq.
      exact (stream_loop_sequential o (v :: tp) 0 pre post Heq).
Qed.

End WithFetcher.

(** *** Completeness of a collecting run *)

(** C1. Under a configuration the design allows (at least one concurrent
    attempt, batches of at least one), [processVideos] returns, and what
    it returns holds one result per candidate whose [videoId] is not in
    [skipIds], in the order of the candidates, each result being the
    outcome of that candidate's attempt, success or failure; when every
    candidate is skipped the result is the empty list. *)
Theorem processVideos_one_result_per_candidate `{Fetcher}
    (fuel : nat) (pick : Schedule)
    (videos : list WatchHistoryMeta) (o : BulkOptions) :
  1 <= get_concurrency o -> 1 <= get_pauseAfter o ->
  (length videos < fuel)%nat ->
  exists results trace,
    processVideos fuel pick videos o = (Returned results, trace)
    /\ map meta results
       = List.filter (fun v => negb (bool_decide (videoId v ∈ get_skipIds o)))
           videos
    /\ Forall (fun r => r = processOne (fetchOptions o) (meta r)) results
    /\ (Forall (fun v => videoId v ∈ get_skipIds o) videos -> results = []).
Proof.
  intros Hc Hp Hfuel.
  destruct (processVideos_spec fuel pick videos o Hc Hp Hfuel)
    as (trace & batches & Hrun & _).
  exists (map (processOne (fetchOptions o)) (toProcess videos o)), trace.
  split; [exact Hrun|]. split; [|split].
  - rewrite map_map. erewrite map_ext; [apply map_id|].
    intros m. apply processOne_meta.
  - rewrite Forall_forall. intros r Hr.
    apply list_elem_of_In, in_map_iff in Hr as (m & <- & _).
    rewrite processOne_meta. reflexivity.
  - intros Hall. rewrite toProcess_all_skipped by exact Hall. reflexivity.
Qed.

Lemma processVideos_one_result_per_candidate_witness :
  1 <= get_concurrency (Fixture.reporting)
  /\ 1 <= get_pauseAfter (Fixture.reporting)
  /\ (length Fixture.videos < 5)%nat
  /\ exists results trace,
       @processVideos Fixture.fetcher 5 Fixture.second_first Fixture.videos
         (Fixture.reporting)
       = (Returned results, trace)
       /\ map meta results
          = List.filter
              (fun v => negb (bool_decide
                 (videoId v ∈ get_skipIds (Fixture.reporting))))
              Fixture.videos
       /\ Forall (fun r => r = @processOne Fixture.fetcher
                                 (fetchOptions (Fixture.reporting))
                                 (meta r)) results
       /\ (Forall (fun v => videoId v
                     ∈ get_skipIds (Fixture.reporting))
              Fixture.videos -> results = []).
Proof.
  assert (H1 : 1 <= get_concurrency (Fixture.reporting))
    by (unfold get_concurrency; simpl; lia).
  assert (H2 : 1 <= get_pauseAfter (Fixture.reporting))
    by (unfold get_pauseAfter; simpl; lia).
  assert (H3 : (length Fixture.videos < 5)%nat) by (simpl; lia).
  split; [exact H1|]. split; [exact H2|]. split; [exact H3|].
  exact (@processVideos_one_result_per_candidate Fixture.fetcher 5
           Fixture.second_first Fixture.videos
           (Fixture.reporting) H1 H2 H3).
Defined.

(** *** Failures of single attempts *)

(** C2. When the fetch of a candidate that is not skipped throws, the
    throw is caught: both [processVideos] and [streamVideos] end normally,
    deliver as many results as there are candidates to process, and among
    them the result for that candidate, with no transcript and with the
    message of the thrown [Error] as [error] (['Unknown error'] when what
    was thrown is not an [Error]). *)
Theorem fetch_failure_becomes_result `{Fetcher}
    (fuel : nat) (pick : Schedule)
    (videos : list WatchHistoryMeta) (o : BulkOptions)
    (m : WatchHistoryMeta) (thrown : Thrown) :
  1 <= get_concurrency o -> 1 <= get_pauseAfter o ->
  (length videos < fuel)%nat ->
  In m videos -> videoId m ∉ get_skipIds o ->
  fetchTranscript (videoId m) (fetchOptions o) = inr thrown ->
  (exists results trace,
      processVideos fuel pick videos o = (Returned results, trace)
      /\ In {| meta := m; transcript := None;
               error := Some (error_message thrown) |} results
      /\ length results = length (toProcess videos o))
  /\ (exists trace,
        streamVideos videos o = (Returned (), trace)
        /\ In {| meta := m; transcript := None;
                 error := Some (error_message thrown) |} (yielded trace)
        /\ length (yielded trace) = length (toProcess videos o))
  /\ (forall message, thrown = ThrownError message ->
        error_message thrown = message).
Proof.
  intros Hc Hp Hfuel Hin Hskip Hthrow.
  assert (Hm : In {| meta := m; transcript := None;
                     error := Some (error_message thrown) |}
                 (map (processOne (fetchOptions o)) (toProcess videos o))).
  { rewrite <- (processOne_failure _ _ _ Hthrow). apply in_map.
    apply toProcess_In. split; assumption. }
  split; [|split].
  - destruct (processVideos_spec fuel pick videos o Hc Hp Hfuel)
      as (trace & batches & Hrun & _).
    eexists _, trace. split; [exact Hrun|]. split; [exact Hm|].
    apply length_map.
  - destruct (streamVideos_spec videos o Hc) as (trace & Hrun & Hy).
    exists trace. split; [exact Hrun|]. rewrite Hy. split; [exact Hm|].
    apply length_map.
  - intros message ->. reflexivity.
Qed.

Lemma fetch_failure_becomes_result_witness :
  1 <= get_concurrency Fixture.quiet /\ 1 <= get_pauseAfter Fixture.quiet
  /\ (length Fixture.videos < 5)%nat
  /\ In Fixture.zoo Fixture.videos
  /\ (videoId Fixture.zoo ∉ get_skipIds Fixture.quiet)
  /\ @fetchTranscript Fixture.fetcher (videoId Fixture.zoo)
       (fetchOptions Fixture.quiet)
     = inr (ThrownError "No captions available")
  /\ (exists results trace,
        @processVideos Fixture.fetcher 5 Fixture.second_first Fixture.videos
          Fixture.quiet
        = (Returned results, trace)
        /\ In {| meta := Fixture.zoo; transcript := None;
                 error := Some "No captions available" |} results
        /\ length results = length (toProcess Fixture.videos Fixture.quiet))
  /\ (exists trace,
        @streamVideos Fixture.fetcher Fixture.videos Fixture.quiet
        = (Returned (), trace)
        /\ In {| meta := Fixture.zoo; transcript := None;
                 error := Some "No captions available" |} (yielded trace)
        /\ length (yielded trace) = length (toProcess Fixture.videos Fixture.quiet)).
Proof.
  assert (H1 : 1 <= get_concurrency Fixture.quiet)
    by (unfold get_concurrency; simpl; lia).
  assert (H2 : 1 <= get_pauseAfter Fixture.quiet)
    by (unfold get_pauseAfter; simpl; lia).
  assert (H3 : (length Fixture.videos < 5)%nat) by (simpl; lia).
  assert (H4 : In Fixture.zoo Fixture.videos) by (right; left; reflexivity).
  assert (H5 : videoId Fixture.zoo ∉ get_skipIds Fixture.quiet).
  { unfold get_skipIds, Fixture.quiet, Fixture.resumed. simpl.
    apply not_elem_of_singleton. discriminate. }
  assert (H6 : @fetchTranscript Fixture.fetcher (videoId Fixture.zoo)
                 (fetchOptions Fixture.quiet)
               = inr (ThrownError "No captions available")) by reflexivity.
  repeat (split; [assumption|]).
  pose proof (@fetch_failure_becomes_result Fixture.fetcher 5
                Fixture.second_first Fixture.videos Fixture.quiet Fixture.zoo
                (ThrownError "No captions available") H1 H2 H3 H4 H5 H6)
    as (Hcollect & Hstream & _).
  split; [exact Hcollect|exact Hstream].
Defined.

(** *** The progress callback *)

(** C6, as the code has it.  In a collecting run with a callback, the
    callback is called once per completed attempt, in order of completion,
    with the number of attempts completed so far, the number of candidates
    to process and the result just obtained; the attempts completed are
    those of the results returned.  A stream never calls the callback. *)
Theorem progress_callback_in_collect_mode `{Fetcher}
    (fuel : nat) (pick : Schedule)
    (videos : list WatchHistoryMeta) (o : BulkOptions) :
  1 <= get_concurrency o -> 1 <= get_pauseAfter o ->
  (length videos < fuel)%nat ->
  onProgress o = true ->
  (exists results trace,
      processVideos fuel pick videos o = (Returned results, trace)
      /\ progress_reported (length (toProcess videos o)) trace
      /\ dones trace ≡ₚ results
      /\ length (progress_calls trace) = length (toProcess videos o))
  /\ progress_calls (snd (streamVideos videos o)) = [].
Proof.
  intros Hc Hp Hfuel Hcb. split; [|apply streamVideos_trace].
  destruct (processVideos_spec fuel pick videos o Hc Hp Hfuel)
    as (trace & batches & Hrun & _ & _ & _ & Hperm & Hprog & _).
  rewrite Hcb in Hprog.
  eexists _, trace. split; [exact Hrun|]. split; [exact Hprog|].
  split; [exact Hperm|].
  rewrite Hprog, number_from_length, Hperm, length_map. reflexivity.
Qed.

Lemma progress_callback_in_collect_mode_witness :
  1 <= get_concurrency Fixture.reporting
  /\ 1 <= get_pauseAfter Fixture.reporting
  /\ (length Fixture.videos < 5)%nat
  /\ onProgress Fixture.reporting = true
  /\ (exists results trace,
        @processVideos Fixture.fetcher 5 Fixture.second_first Fixture.videos
          Fixture.reporting
        = (Returned results, trace)
        /\ progress_reported (length (toProcess Fixture.videos Fixture.reporting))
             trace
        /\ dones trace ≡ₚ results
        /\ length (progress_calls trace)
           = length (toProcess Fixture.videos Fixture.reporting))
  /\ progress_calls
       (snd (@streamVideos Fixture.fetcher Fixture.videos Fixture.reporting)) = [].
Proof.
  assert (H1 : 1 <= get_concurrency Fixture.reporting)
    by (unfold get_concurrency; simpl; lia).
  assert (H2 : 1 <= get_pauseAfter Fixture.reporting)
    by (unfold get_pauseAfter; simpl; lia).
  assert (H3 : (length Fixture.videos < 5)%nat) by (simpl; lia).
  assert (H4 : onProgress Fixture.reporting = true) by reflexivity.
  repeat (split; [assumption|]).
  exact (@progress_callback_in_collect_mode Fixture.fetcher 5
           Fixture.second_first Fixture.videos Fixture.reporting H1 H2 H3 H4).
Defined.

(** C6 as stated fails in stream mode: with a callback supplied, three
    attempts complete and the callback is not called. *)
Lemma stream_does_not_report_progress :
  onProgress Fixture.reporting = true
  /\ length (dones (snd (@streamVideos Fixture.fetcher Fixture.videos
                           Fixture.reporting))) = 3%nat
  /\ progress_calls (snd (@streamVideos Fixture.fetcher Fixture.videos
                            Fixture.reporting)) = []
  /\ (~ progress_reported (length (toProcess Fixture.videos Fixture.reporting))
          (snd (@streamVideos Fixture.fetcher Fixture.videos Fixture.reporting))).
Proof.
  set (trace := snd (@streamVideos Fixture.fetcher Fixture.videos Fixture.reporting)).
  assert (Hd : length (dones trace) = 3%nat) by (vm_compute; reflexivity).
  assert (Hp : progress_calls trace = []) by (vm_compute; reflexivity).
  split; [reflexivity|]. split; [exact Hd|]. split; [exact Hp|].
  unfold progress_reported. rewrite Hp. intros Heq.
  apply (f_equal (@length _)) in Heq.
  rewrite number_from_length, Hd in Heq. discriminate.
Qed.

(** *** Termination and the partition into batches *)

(** C9, as the code has it.  With [pauseAfter >= 1] the call terminates
    (it returns, or throws on an invalid concurrency) and the partitioning
    loop cuts the candidates to process into consecutive batches of
    [pauseAfter], the last one possibly smaller, that cover them exactly
    once in input order.  With [pauseAfter = 0], a valid concurrency and
    at least one candidate to process, the loop index never advances and
    the call does not terminate, whatever the fuel.  With no candidate to
    process the call returns the empty list before the loop is reached,
    whatever [pauseAfter] is. *)
Theorem processVideos_termination `{Fetcher}
    (fuel : nat) (pick : Schedule)
    (videos : list WatchHistoryMeta) (o : BulkOptions) :
  (1 <= get_pauseAfter o -> (length videos < fuel)%nat ->
     fst (processVideos fuel pick videos o) <> Diverged
     /\ exists batches,
         partition_loop fuel (toProcess videos o) (get_pauseAfter o) 0 []
         = Some batches
         /\ concat batches = toProcess videos o
         /\ batched (Z.to_nat (get_pauseAfter o)) batches)
  /\ (get_pauseAfter o = 0 -> 1 <= get_concurrency o ->
      toProcess videos o <> [] ->
      processVideos fuel pick videos o = (Diverged, []))
  /\ (toProcess videos o = [] ->
      processVideos fuel pick videos o = (Returned [], [])).
Proof.
  split; [|split].
  - intros Hp Hfuel.
    pose proof (toProcess_length videos o) as Hlen.
    destruct (partition_loop_spec (toProcess videos o) (get_pauseAfter o) Hp fuel 0 [])
      as (bs & Hrun & Hcat & Hb); [lia|lia|].
    split; [|exists bs; repeat split; assumption].
    unfold processVideos.
    destruct (toProcess videos o) as [|v tp]; [discriminate|].
    destruct (pLimit (get_concurrency o)); [discriminate|].
    rewrite Hrun. destruct (run_batches _ _ _ _ _ _ _ _). discriminate.
  - intros Hp Hc Hne. unfold processVideos.
    destruct (toProcess videos o) as [|v tp] eqn:Htp; [congruence|].
    unfold pLimit. destruct (Z.leb_spec 1 (get_concurrency o)); [|lia].
    rewrite partition_loop_stuck; [reflexivity|lia|discriminate|lia].
  - intros Hnil. unfold processVideos. rewrite Hnil. reflexivity.
Qed.

Lemma processVideos_termination_witness :
  (1 <= get_pauseAfter Fixture.quiet /\ (length Fixture.videos < 5)%nat
   /\ fst (@processVideos Fixture.fetcher 5 Fixture.second_first Fixture.videos
             Fixture.quiet) <> Diverged
   /\ exists batches,
       partition_loop 5 (toProcess Fixture.videos Fixture.quiet)
         (get_pauseAfter Fixture.quiet) 0 [] = Some batches
       /\ concat batches = toProcess Fixture.videos Fixture.quiet
       /\ batched (Z.to_nat (get_pauseAfter Fixture.quiet)) batches)
  /\ (get_pauseAfter Fixture.no_advance = 0
      /\ 1 <= get_concurrency Fixture.no_advance
      /\ toProcess Fixture.videos Fixture.no_advance <> []
      /\ @processVideos Fixture.fetcher 1000 Fixture.second_first Fixture.videos
           Fixture.no_advance = (Diverged, []))
  /\ (toProcess Fixture.videos Fixture.nothing_left = []
      /\ @processVideos Fixture.fetcher 1 Fixture.second_first Fixture.videos
           Fixture.nothing_left = (Returned [], [])).
Proof.
  assert (H1 : 1 <= get_pauseAfter Fixture.quiet)
    by (unfold get_pauseAfter; simpl; lia).
  assert (H2 : (length Fixture.videos < 5)%nat) by (simpl; lia).
  assert (H3 : get_pauseAfter Fixture.no_advance = 0) by reflexivity.
  assert (H4 : 1 <= get_concurrency Fixture.no_advance)
    by (unfold get_concurrency; simpl; lia).
  assert (H5 : toProcess Fixture.videos Fixture.no_advance <> [])
    by (vm_compute; discriminate).
  assert (H6 : toProcess Fixture.videos Fixture.nothing_left = [])
    by (vm_compute; reflexivity).
  split; [|split].
  - split; [exact H1|]. split; [exact H2|].
    exact (proj1 (@processVideos_termination Fixture.fetcher 5
                    Fixture.second_first Fixture.videos Fixture.quiet) H1 H2).
  - repeat (split; [assumption|]).
    exact (proj1 (proj2 (@processVideos_termination Fixture.fetcher 1000
                           Fixture.second_first Fixture.videos
                           Fixture.no_advance)) H3 H4 H5).
  - split; [exact H6|].
    exact (proj2 (proj2 (@processVideos_termination Fixture.fetcher 1
                           Fixture.second_first Fixture.videos
                           Fixture.nothing_left)) H6).
Defined.

(** C9 as stated fails when nothing is left to process: with
    [pauseAfter = 0] and every candidate in [skipIds] the call returns the
    empty list at once. *)
Lemma zero_pauseAfter_returns_when_all_skipped :
  get_pauseAfter Fixture.nothing_left = 0
  /\ Fixture.videos <> []
  /\ @processVideos Fixture.fetcher 1 Fixture.second_first Fixture.videos
       Fixture.nothing_left = (Returned [], []).
Proof.
  split; [reflexivity|]. split; [discriminate|]. vm_compute. reflexivity.
Qed.

(** *** Pacing *)

Lemma sleeps_join_with `{Fetcher} (o : BulkOptions) (segs : list (list Event))
    (batches : list (list WatchHistoryMeta)) :
  Forall2 (segment_of o) segs batches ->
  sleeps (join_with (pause_between o) segs)
  = if 0 <? get_pauseDuration o
    then replicate (length batches - 1) (get_pauseDuration o) else [].
Proof.
  intros Hsegs. induction Hsegs as [|seg batch segs batches Hseg Hrest IH].
  - simpl. destruct (0 <? get_pauseDuration o); reflexivity.
  - destruct Hseg as (_ & _ & Hs & _). cbn [join_with].
    destruct Hrest as [|seg' batch' segs' batches' Hseg' Hrest'].
    + rewrite Hs. simpl. destruct (0 <? get_pauseDuration o); reflexivity.
    + unfold sleeps in *. rewrite !omap_app, Hs, IH. unfold pause_between.
      destruct (0 <? get_pauseDuration o); [|reflexivity].
      simpl. rewrite Nat.sub_0_r. reflexivity.
Qed.

(** A collecting run idles once between two consecutive batches, for
    [pauseDuration], and not after the last batch; it does not idle at
    all when [pauseDuration] is not positive. *)
Lemma processVideos_sleeps `{Fetcher} (fuel : nat) (pick : Schedule)
    (videos : list WatchHistoryMeta) (o : BulkOptions) :
  1 <= get_concurrency o -> 1 <= get_pauseAfter o ->
  (length videos < fuel)%nat ->
  exists batches,
    concat batches = toProcess videos o
    /\ batched (Z.to_nat (get_pauseAfter o)) batches
    /\ sleeps (snd (processVideos fuel pick videos o))
       = if 0 <? get_pauseDuration o
         then replicate (length batches - 1) (get_pauseDuration o) else [].
Proof.
  intros Hc Hp Hfuel.
  destruct (processVideos_spec fuel pick videos o Hc Hp Hfuel)
    as (trace & batches & Hrun & Hcat & Hb & (segs & Htrace & Hsegs) & _).
  exists batches. split; [exact Hcat|]. split; [exact Hb|].
  rewrite Hrun. cbn [snd]. rewrite Htrace. apply sleeps_join_with. exact Hsegs.
Qed.

(** A stream whose number of items is a positive multiple of
    [pauseAfter] idles after its last item. *)
Lemma streamVideos_trailing_sleep `{Fetcher}
    (videos : list WatchHistoryMeta) (o : BulkOptions) :
  1 <= get_concurrency o -> 1 <= get_pauseAfter o -> 0 < get_pauseDuration o ->
  toProcess videos o <> [] ->
  Z.of_nat (length (toProcess videos o)) mod get_pauseAfter o = 0 ->
  last (snd (streamVideos videos o)) = Some (EvSleep (get_pauseDuration o)).
Proof.
  intros Hc Hp Hd Hne Hmod. unfold streamVideos.
  destruct (toProcess videos o) as [|v tp] eqn:Htp; [congruence|].
  unfold pLimit. destruct (Z.leb_spec 1 (get_concurrency o)); [|lia].
  cbn [snd]. apply stream_loop_trailing_sleep; [assumption..|lia|exact Hmod].
Qed.

(** *** The streaming mode *)

(** C4, the code at the failing input.  With [concurrency = 2] and three
    videos to process, the stream dispatches each attempt only after the
    one before it has completed and been yielded: the results come in
    input order and no two attempts are ever in flight together, while
    the collecting run on the same input dispatches two attempts before
    any completes. *)
Theorem stream_dispatches_one_at_a_time :
  get_concurrency Fixture.quiet = 2
  /\ snd (@streamVideos Fixture.fetcher Fixture.videos Fixture.quiet)
     = [ EvStart Fixture.rick;
         EvDone (@processOne Fixture.fetcher Fixture.plain Fixture.rick);
         EvYield (@processOne Fixture.fetcher Fixture.plain Fixture.rick);
         EvStart Fixture.zoo;
         EvDone (@processOne Fixture.fetcher Fixture.plain Fixture.zoo);
         EvYield (@processOne Fixture.fetcher Fixture.plain Fixture.zoo);
         EvSleep 100;
         EvStart Fixture.gangnam;
         EvDone (@processOne Fixture.fetcher Fixture.plain Fixture.gangnam);
         EvYield (@processOne Fixture.fetcher Fixture.plain Fixture.gangnam) ]
  /\ take 3 (snd (@processVideos Fixture.fetcher 5 Fixture.second_first
                    Fixture.videos Fixture.quiet))
     = [ EvStart Fixture.rick; EvStart Fixture.zoo;
         EvDone (@processOne Fixture.fetcher Fixture.plain Fixture.zoo) ].
Proof. split; [reflexivity|]. split; vm_compute; reflexivity. Qed.

(** C5, the code at the failing input.  With [pauseAfter = 3],
    [pauseDuration = 100] and three videos to process there is a single
    batch, which is the last one: the collecting run does not idle, the
    stream idles for 100 ms after yielding the last result. *)
Theorem stream_idles_after_last_batch :
  length (toProcess Fixture.videos Fixture.one_batch) = 3%nat
  /\ get_pauseAfter Fixture.one_batch = 3
  /\ sleeps (snd (@processVideos Fixture.fetcher 5 Fixture.second_first
                    Fixture.videos Fixture.one_batch)) = []
  /\ last (snd (@streamVideos Fixture.fetcher Fixture.videos Fixture.one_batch))
     = Some (EvSleep 100)
  /\ sleeps (snd (@streamVideos Fixture.fetcher Fixture.videos Fixture.one_batch))
     = [100].
Proof. repeat split; vm_compute; reflexivity. Qed.

(** The collecting run on the fixture: one success, one failure with
    the message of the [Error], one failure with the default message;
    the video already processed is left out. *)
Example processVideos_on_fixture :
  fst (@processVideos Fixture.fetcher 5 Fixture.second_first Fixture.videos
         Fixture.quiet)
  = Returned
      [ {| meta := Fixture.rick;
           transcript := Some (Fixture.transcript_of "dQw4w9WgXcQ");
           error := None |};
        {| meta := Fixture.zoo; transcript := None;
           error := Some "No captions available" |};
        {| meta := Fixture.gangnam; transcript := None;
           error := Some "Unknown error" |} ].
Proof. vm_compute. reflexivity. Qed.

End ProcessorFacts.

(** ** Properties of the loaders *)

Module LoaderFacts.
Import Js Loaders LoaderSpec.

(** *** Merging sources *)

Lemma map_has_keys {V} (k : string) (m : list (string * V)) :
  map_has k m = existsb (String.eqb k) (map fst m).
Proof.
  unfold map_has. induction m as [|kv m IH]; [reflexivity|].
  simpl. rewrite IH. reflexivity.
Qed.

Lemma map_set_fresh {V} (k : string) (v : V) (m : list (string * V)) :
  map_has k m = false -> map_set k v m = m ++ [(k, v)].
Proof.
  unfold map_has. induction m as [|[k' v'] m IH]; intros Hfresh; [reflexivity|].
  simpl in *. apply orb_false_iff in Hfresh as [Hk Hm].
  rewrite Hk, IH by exact Hm. reflexivity.
Qed.

(** The inner loop keeps the first occurrences. *)
Lemma merge_source_spec (source : list WatchHistoryMeta) :
  forall seen : list (string * WatchHistoryMeta),
    map_values (merge_source seen source)
    = map_values seen ++ first_occurrences (map fst seen) source
    /\ map fst (merge_source seen source)
       = map fst seen
         ++ map videoId (first_occurrences (map fst seen) source).
Proof.
  unfold merge_source, map_values.
  induction source as [|m source IH]; intros seen.
  - simpl. rewrite !app_nil_r. split; reflexivity.
  - cbn [fold_left first_occurrences]. unfold merge_one at 2 4.
    rewrite <- map_has_keys.
    destruct (map_has (videoId m) seen) eqn:Hhas; cbn [negb].
    + apply IH.
    + rewrite map_set_fresh by exact Hhas.
      destruct (IH (seen ++ [(videoId m, m)])) as [IH1 IH2].
      rewrite IH1, IH2, !map_app. cbn [map fst snd].
      rewrite <- !app_assoc. split; reflexivity.
Qed.

Lemma first_occurrences_app (l1 l2 : list WatchHistoryMeta) :
  forall ids,
    first_occurrences ids (l1 ++ l2)
    = first_occurrences ids l1
      ++ first_occurrences (ids ++ map videoId (first_occurrences ids l1)) l2.
Proof.
  induction l1 as [|m l1 IH]; intros ids.
  - simpl. rewrite app_nil_r. reflexivity.
  - cbn [app first_occurrences].
    destruct (existsb (String.eqb (videoId m)) ids); [apply IH|].
    rewrite IH. cbn [map app]. rewrite <- app_assoc. reflexivity.
Qed.

(** [mergeVideoSources] computes the first occurrences of the sources
    laid end to end. *)
Lemma mergeVideoSources_refines (sources : list (list WatchHistoryMeta)) :
  mergeVideoSources sources = first_occurrences [] (concat sources).
Proof.
  unfold mergeVideoSources.
  assert (Hgen : forall seen,
    map_values (fold_left merge_source sources seen)
    = map_values seen ++ first_occurrences (map fst seen) (concat sources)
    /\ map fst (fold_left merge_source sources seen)
       = map fst seen
         ++ map videoId (first_occurrences (map fst seen) (concat sources))).
  { induction sources as [|src sources IH]; intros seen.
    - simpl. rewrite !app_nil_r. split; reflexivity.
    - cbn [fold_left concat].
      destruct (merge_source_spec src seen) as [Hv Hk].
      destruct (IH (merge_source seen src)) as [IH1 IH2].
      rewrite IH1, IH2, Hv, Hk, first_occurrences_app, !map_app.
      rewrite <- !app_assoc. split; reflexivity. }
  apply (Hgen []).
Qed.

Lemma existsb_eqb_In (k : string) (ids : list string) :
  existsb (String.eqb k) ids = true <-> In k ids.
Proof.
  rewrite existsb_exists. split.
  - intros (x & Hin & Heq). apply String.eqb_eq in Heq. subst. exact Hin.
  - intros Hin. exists k. split; [exact Hin|apply String.eqb_refl].
Qed.

(** A record is kept exactly when its identifier is new and it is the
    first record of the list with that identifier. *)
Lemma first_occurrences_In (l : list WatchHistoryMeta) (m : WatchHistoryMeta) :
  forall ids,
    In m (first_occurrences ids l)
    <-> ~ In (videoId m) ids
        /\ List.find (fun x => String.eqb (videoId x) (videoId m)) l = Some m.
Proof.
  induction l as [|x l IH]; intros ids.
  - simpl. split; [tauto|intros [_ ?]; discriminate].
  - cbn [first_occurrences List.find].
    destruct (existsb (String.eqb (videoId x)) ids) eqn:Hx.
    + apply existsb_eqb_In in Hx. rewrite IH.
      destruct (String.eqb_spec (videoId x) (videoId m)) as [Heq|Hne].
      * rewrite <- Heq. split; [tauto|tauto].
      * reflexivity.
    + assert (Hx' : ~ In (videoId x) ids).
      { intros Hin. apply existsb_eqb_In in Hin. congruence. }
      cbn [In]. rewrite IH, in_app_iff. cbn [In].
      destruct (String.eqb_spec (videoId x) (videoId m)) as [Heq|Hne].
      * split.
        -- intros [->|[Hnot _]]; [split; [exact Hx'|reflexivity]|].
           exfalso. apply Hnot. right. left. exact Heq.
        -- intros [_ Hsome]. left. congruence.
      * split.
        -- intros [->|[Hnot Hfind]]; [congruence|]. split; [tauto|exact Hfind].
        -- intros [Hnot Hfind]. right. split; [|exact Hfind].
           intros [Hin|[Heq|[]]]; [tauto|congruence].
Qed.

Lemma first_occurrences_NoDup (l : list WatchHistoryMeta) :
  forall ids, NoDup (map videoId (first_occurrences ids l)).
Proof.
  induction l as [|x l IH]; intros ids; [constructor|].
  cbn [first_occurrences].
  destruct (existsb (String.eqb (videoId x)) ids); [apply IH|].
  cbn [map]. constructor; [|apply IH].
  rewrite list_elem_of_In, in_map_iff. intros (m & Heq & Hin).
  apply first_occurrences_In in Hin as [Hnot _].
  apply Hnot, in_app_iff. right. left. congruence.
Qed.

Lemma find_app_first {A} (f : A -> bool) (l1 l2 : list A) :
  List.find f (l1 ++ l2)
  = match List.find f l1 with
    | Some a => Some a
    | None => List.find f l2
    end.
Proof.
  induction l1 as [|y l1 IH]; [reflexivity|].
  simpl. destruct (f y); [reflexivity|exact IH].
Qed.

Lemma find_concat {A} (f : A -> bool) (ls : list (list A)) (a : A) :
  List.find f (concat ls) = Some a ->
  exists pre l post,
    ls = pre ++ l :: post
    /\ Forall (fun l' => List.find f l' = None) pre
    /\ List.find f l = Some a.
Proof.
  induction ls as [|l ls IH]; intros Hfind; [discriminate|].
  cbn [concat] in Hfind. rewrite find_app_first in Hfind.
  destruct (List.find f l) as [b|] eqn:Hl.
  - exists [], l, ls. split; [reflexivity|]. split; [constructor|].
    rewrite Hl. exact Hfind.
  - destruct (IH Hfind) as (pre & l' & post & -> & Hpre & Hl').
    exists (l :: pre), l', post. split; [reflexivity|].
    split; [constructor; assumption|exact Hl'].
Qed.

Lemma find_none_not_In (id : string) (l : list WatchHistoryMeta) :
  List.find (fun x => String.eqb (videoId x) id) l = None ->
  ~ In id (map videoId l).
Proof.
  intros Hnone Hin. apply in_map_iff in Hin as (m & Heq & Hin).
  apply (find_none _ _ Hnone) in Hin. simpl in Hin.
  rewrite Heq, String.eqb_refl in Hin. discriminate.
Qed.

Lemma find_some_of_In (id : string) (l : list WatchHistoryMeta) :
  In id (map videoId l) ->
  exists m, List.find (fun x => String.eqb (videoId x) id) l = Some m.
Proof.
  intros Hin. destruct (List.find _ l) as [m|] eqn:Hfind; [eauto|].
  exfalso. exact (find_none_not_In id l Hfind Hin).
Qed.

(** C8. For every [videoId] some source mentions, the merged list holds
    exactly one record with that identifier: the first record with it in
    the earliest source (in argument order) that mentions it.  Every
    other record with that identifier is dropped, and nothing is merged
    that no source holds. *)
Theorem mergeVideoSources_first_writer_wins
    (sources : list (list WatchHistoryMeta)) (id : string) :
  (exists src, In src sources /\ In id (map videoId src)) ->
  exists m pre src post,
    sources = pre ++ src :: post
    /\ Forall (fun earlier => ~ In id (map videoId earlier)) pre
    /\ List.find (fun x => String.eqb (videoId x) id) src = Some m
    /\ In m (mergeVideoSources sources)
    /\ (forall m', In m' (mergeVideoSources sources) -> videoId m' = id -> m' = m)
    /\ NoDup (map videoId (mergeVideoSources sources))
    /\ (forall m', In m' (mergeVideoSources sources) -> In m' (concat sources)).
Proof.
  intros (src0 & Hsrc0 & Hid).
  assert (Hin : In id (map videoId (concat sources))).
  { apply in_map_iff in Hid as (x & Hx & Hxin). apply in_map_iff.
    exists x. split; [exact Hx|]. apply in_concat. eauto. }
  destruct (find_some_of_In id (concat sources) Hin) as (m & Hfind).
  assert (Hm : videoId m = id).
  { apply find_some in Hfind as [_ Heq]. apply String.eqb_eq in Heq. exact Heq. }
  destruct (find_concat _ _ _ Hfind) as (pre & src & post & Hsplit & Hpre & Hsrc).
  exists m, pre, src, post. rewrite mergeVideoSources_refines.
  split; [exact Hsplit|]. split; [|split; [exact Hsrc|]].
  { eapply Forall_impl; [exact Hpre|]. intros l. apply find_none_not_In. }
  split; [|split; [|split]].
  - apply first_occurrences_In. split; [intros []|]. rewrite Hm. exact Hfind.
  - intros m' Hin' Hid'. apply first_occurrences_In in Hin' as [_ Hfind'].
    rewrite Hid' in Hfind'. congruence.
  - apply first_occurrences_NoDup.
  - intros m' Hin'. apply first_occurrences_In in Hin' as [_ Hfind'].
    apply find_some in Hfind' as [Hin'' _]. exact Hin''.
Qed.

Lemma mergeVideoSources_first_writer_wins_witness :
  (exists src, In src [[Fixture.first_vid1]; [Fixture.second_vid1; Fixture.vid2]]
               /\ In "vid1" (map videoId src))
  /\ exists m pre src post,
      [[Fixture.first_vid1]; [Fixture.second_vid1; Fixture.vid2]]
      = pre ++ src :: post
      /\ Forall (fun earlier => ~ In "vid1" (map videoId earlier)) pre
      /\ List.find (fun x => String.eqb (videoId x) "vid1") src = Some m
      /\ In m (mergeVideoSources
                 [[Fixture.first_vid1]; [Fixture.second_vid1; Fixture.vid2]])
      /\ (forall m',
            In m' (mergeVideoSources
                     [[Fixture.first_vid1]; [Fixture.second_vid1; Fixture.vid2]]) ->
            videoId m' = "vid1" -> m' = m)
      /\ NoDup (map videoId
                  (mergeVideoSources
                     [[Fixture.first_vid1]; [Fixture.second_vid1; Fixture.vid2]]))
      /\ (forall m',
            In m' (mergeVideoSources
                     [[Fixture.first_vid1]; [Fixture.second_vid1; Fixture.vid2]]) ->
            In m' (concat [[Fixture.first_vid1]; [Fixture.second_vid1; Fixture.vid2]])).
Proof.
  assert (H1 : exists src,
             In src [[Fixture.first_vid1]; [Fixture.second_vid1; Fixture.vid2]]
             /\ In "vid1" (map videoId src)).
  { exists [Fixture.first_vid1]. split; left; reflexivity. }
  split; [exact H1|].
  exact (mergeVideoSources_first_writer_wins
           [[Fixture.first_vid1]; [Fixture.second_vid1; Fixture.vid2]] "vid1" H1).
Defined.

(** *** The identifiers already processed *)

Section WithRuntime.
Context `{Runtime}.

Lemma truthy_string_nonempty (s : string) :
  truthy_string s = true <-> s <> EmptyString.
Proof.
  unfold truthy_string. rewrite negb_true_iff.
  destruct (String.eqb_spec s EmptyString); split; congruence.
Qed.

Lemma nonblank_lines_In (text line : string) :
  In line (nonblank_lines text)
  <-> In line (split newline text) /\ trim line <> EmptyString.
Proof.
  unfold nonblank_lines. rewrite filter_In, truthy_string_nonempty. reflexivity.
Qed.

Lemma set_add_In (v x : json) (ids : list json) :
  In x (set_add v ids)
  <-> In x ids \/ (x = v /\ existsb (same_value_zero v) ids = false).
Proof.
  unfold set_add. destruct (existsb (same_value_zero v) ids) eqn:Hex.
  - split; [tauto|]. intros [Hin|[_ Hf]]; [exact Hin|discriminate].
  - rewrite in_app_iff. simpl. split.
    + intros [Hin|[<-|[]]]; [tauto|]. right. split; reflexivity.
    + intros [Hin|[-> _]]; [tauto|]. right. left. reflexivity.
Qed.

Lemma set_add_keeps (v x : json) (ids : list json) :
  In x ids -> In x (set_add v ids).
Proof. intros Hin. apply set_add_In. left. exact Hin. Qed.

Lemma set_add_has (v : json) (ids : list json) :
  exists x, In x (set_add v ids) /\ (x = v \/ same_value_zero v x = true).
Proof.
  destruct (existsb (same_value_zero v) ids) eqn:Hex.
  - apply existsb_exists in Hex as (x & Hin & Hsame).
    exists x. split; [apply set_add_keeps; exact Hin|right; exact Hsame].
  - exists v. split; [|left; reflexivity].
    apply set_add_In. right. split; [reflexivity|exact Hex].
Qed.

(** Reading [meta?.videoId] and [videoId] off an object does not throw. *)
Lemma object_reads (fields : list (string * json)) :
  exists m,
    get (Some (JObj fields)) "meta" = inr m
    /\ get_optional m "videoId" = inr (meta_videoId (JObj fields))
    /\ get (Some (JObj fields)) "videoId" = inr (top_videoId (JObj fields)).
Proof.
  exists (lookup_field "meta" fields). split; [reflexivity|].
  split; [|reflexivity]. unfold meta_videoId.
  destruct (lookup_field "meta" fields) as [[| | | | |]|]; reflexivity.
Qed.

Lemma carries_cases (record : json) :
  match meta_videoId record, top_videoId record with
  | Some id, tv =>
      if truthy (Some id) then carries record id
      else match tv with
           | Some id' =>
               if truthy (Some id') then carries record id'
               else forall x, ~ carries record x
           | None => forall x, ~ carries record x
           end
  | None, Some id' =>
      if truthy (Some id') then carries record id'
      else forall x, ~ carries record x
  | None, None => forall x, ~ carries record x
  end.
Proof.
  unfold carries.
  destruct (meta_videoId record) as [id|] eqn:Hm,
           (top_videoId record) as [id'|] eqn:Ht.
  - destruct (truthy (Some id)) eqn:Hid; [left; split; reflexivity|].
    destruct (truthy (Some id')) eqn:Hid'.
    + right. repeat split; reflexivity.
    + intros x [[Hx Hy]|(_ & Hx & Hy)]; congruence.
  - destruct (truthy (Some id)) eqn:Hid; [left; split; reflexivity|].
    intros x [[Hx Hy]|(_ & Hx & Hy)]; congruence.
  - destruct (truthy (Some id')) eqn:Hid'.
    + right. repeat split; reflexivity.
    + intros x [[Hx Hy]|(_ & Hx & Hy)]; congruence.
  - intros x [[Hx Hy]|(_ & Hx & Hy)]; congruence.
Qed.

Lemma carries_functional (record a b : json) :
  carries record a -> carries record b -> a = b.
Proof.
  intros [[Ha Hta]|(Hfa & Ha & Hta)] [[Hb Htb]|(Hfb & Hb & Htb)]; congruence.
Qed.

(** What one line contributes: the identifier its record carries, if
    the line parses and the record carries one. *)
Lemma processed_line_caught_spec (ids : list json) (line : string) :
  match JSON_parse line with
  | None => processed_line_caught ids line = ids
  | Some record =>
      (exists id, carries record id
                  /\ processed_line_caught ids line = set_add id ids)
      \/ ((forall id, ~ carries record id)
          /\ processed_line_caught ids line = ids)
  end.
Proof.
  unfold processed_line_caught, processed_line.
  destruct (JSON_parse line) as [record|]; [|reflexivity].
  pose proof (carries_cases record) as Hcases.
  destruct record as [|b|q|s|items|fields];
    try (right; split; [exact Hcases|reflexivity]).
  destruct (object_reads fields) as (m & -> & -> & ->).
  revert Hcases.
  destruct (meta_videoId (JObj fields)) as [id|],
           (top_videoId (JObj fields)) as [id'|];
    change (truthy None) with false; cbv iota;
    repeat match goal with
      | |- context [truthy ?v] => destruct (truthy v)
      end;
    intros Hcases; cbn [add_id];
    solve [ left; eexists; split; [exact Hcases|reflexivity]
          | right; split; [exact Hcases|reflexivity] ].
Qed.

(** The loop over the lines. *)
Lemma processed_fold_spec (lines : list string) :
  forall ids0 : list json,
    let ids := fold_left processed_line_caught lines ids0 in
    (forall x, In x ids0 -> In x ids)
    /\ (forall x, In x ids ->
         In x ids0
         \/ exists line record,
             In line lines /\ JSON_parse line = Some record /\ carries record x)
    /\ (forall line record id,
         In line lines -> JSON_parse line = Some record -> carries record id ->
         exists x, In x ids /\ (x = id \/ same_value_zero id x = true)).
Proof.
  induction lines as [|line lines IH]; intros ids0; cbn zeta.
  - simpl. split; [tauto|]. split; [tauto|]. intros ? ? ? [].
  - cbn [fold_left].
    destruct (IH (processed_line_caught ids0 line)) as (Hkeep & Hsound & Hcomplete).
    pose proof (processed_line_caught_spec ids0 line) as Hline.
    split; [|split].
    + intros x Hx. apply Hkeep.
      destruct (JSON_parse line) as [record|]; [|rewrite Hline; exact Hx].
      destruct Hline as [(id & _ & ->)|[_ ->]]; [apply set_add_keeps|]; exact Hx.
    + intros x Hx. destruct (Hsound x Hx) as [Hin|(l & r & Hl & Hp & Hc)].
      * destruct (JSON_parse line) as [record|] eqn:Hparse;
          [|rewrite Hline in Hin; left; exact Hin].
        destruct Hline as [(id & Hc & Heq)|[_ Heq]]; rewrite Heq in Hin;
          [|left; exact Hin].
        apply set_add_In in Hin as [Hin|[-> _]]; [left; exact Hin|].
        right. exists line, record. split; [left; reflexivity|]. split; assumption.
      * right. exists l, r. split; [right; exact Hl|]. split; assumption.
    + intros l r id [<-|Hl] Hp Hc; [|exact (Hcomplete l r id Hl Hp Hc)].
      rewrite Hp in Hline. destruct Hline as [(id' & Hc' & Heq)|[Hno _]];
        [|exfalso; exact (Hno id Hc)].
      rewrite (carries_functional r id' id Hc' Hc) in *.
      destruct (set_add_has id ids0) as (x & Hx & Hsame).
      exists x. split; [|exact Hsame]. apply Hkeep. rewrite Heq. exact Hx.
Qed.

Lemma same_value_zero_string (s : string) (x : json) :
  same_value_zero (JStr s) x = true -> x = JStr s.
Proof.
  destruct x; simpl; try discriminate. intros Heq.
  apply String.eqb_eq in Heq. congruence.
Qed.

End WithRuntime.

(** C10.  [loadProcessedIds] never throws.  For a file that is missing or
    cannot be read it returns the empty set.  For a file with text it
    returns the set of the identifiers carried by the non-blank lines
    that parse as JSON, where the identifier a record carries is its
    [meta.videoId] if that is truthy and otherwise its top-level
    [videoId] if that is truthy; a line that does not parse, or whose
    record is [null] or carries no identifier, adds nothing. *)
Theorem loadProcessedIds_never_fails `{Runtime} :
  loadProcessedIds FileMissing = inr []
  /\ (forall t, loadProcessedIds (FileUnreadable t) = inr [])
  /\ forall text,
      exists ids,
        loadProcessedIds (FileText text) = inr ids
        /\ (forall s,
              In (JStr s) ids
              <-> exists line record,
                    In line (split newline text) /\ trim line <> EmptyString
                    /\ JSON_parse line = Some record
                    /\ carries record (JStr s))
        /\ (forall x,
              In x ids ->
              exists line record,
                In line (split newline text) /\ trim line <> EmptyString
                /\ JSON_parse line = Some record /\ carries record x)
        /\ (forall line record id,
              In line (split newline text) -> trim line <> EmptyString ->
              JSON_parse line = Some record -> carries record id ->
              exists x, In x ids /\ (x = id \/ same_value_zero id x = true)).
Proof.
  split; [reflexivity|]. split; [reflexivity|]. intros text.
  exists (fold_left processed_line_caught (nonblank_lines text) []).
  split; [reflexivity|].
  destruct (processed_fold_spec (nonblank_lines text) []) as (_ & Hsound & Hcomplete).
  assert (Hs : forall x,
    In x (fold_left processed_line_caught (nonblank_lines text) []) ->
    exists line record,
      In line (split newline text) /\ trim line <> EmptyString
      /\ JSON_parse line = Some record /\ carries record x).
  { intros x Hx. destruct (Hsound x Hx) as [[]|(line & record & Hl & Hp & Hc)].
    apply nonblank_lines_In in Hl as [Hl Hne].
    exists line, record. repeat split; assumption. }
  assert (Hc : forall line record id,
    In line (split newline text) -> trim line <> EmptyString ->
    JSON_parse line = Some record -> carries record id ->
    exists x, In x (fold_left processed_line_caught (nonblank_lines text) [])
              /\ (x = id \/ same_value_zero id x = true)).
  { intros line record id Hl Hne Hp Hcar.
    apply (Hcomplete line record id); [|assumption..].
    apply nonblank_lines_In. split; assumption. }
  split; [|split; [exact Hs|exact Hc]].
  intros s. split; [apply Hs|].
  intros (line & record & Hl & Hne & Hp & Hcar).
  destruct (Hc line record (JStr s) Hl Hne Hp Hcar) as (x & Hx & [->|Hsame]);
    [exact Hx|].
  apply same_value_zero_string in Hsame. subst. exact Hx.
Qed.

(** *** Identifiers handed to the core *)

Lemma or_else_Some (a b : option string) (s : string) :
  or_else a b = Some s -> a = Some s \/ b = Some s.
Proof.
  unfold or_else. destruct a as [x|]; [|tauto].
  destruct (truthy_string x); tauto.
Qed.

Lemma watchLater_row_spec (row : gmap string string) (m : WatchHistoryMeta) :
  watchLater_row row = Some m ->
  videoId m <> EmptyString /\ source m = watch_later
  /\ (row !! "Video ID" = Some (videoId m)
      \/ row !! "video_id" = Some (videoId m)
      \/ row !! "Video Id" = Some (videoId m)).
Proof.
  unfold watchLater_row.
  destruct (or_else (or_else (row !! "Video ID") (row !! "video_id"))
              (row !! "Video Id")) as [id|] eqn:Hid; [|discriminate].
  destruct (truthy_string id) eqn:Ht; [|discriminate].
  intros [= <-]. cbn [videoId source].
  split; [apply truthy_string_nonempty; exact Ht|]. split; [reflexivity|].
  apply or_else_Some in Hid as [Hid|Hid]; [|tauto].
  apply or_else_Some in Hid. tauto.
Qed.

(** A row with a non-empty [Video ID] cell is taken as it is, whatever
    the cell holds. *)
Lemma watchLater_row_accepts (row : gmap string string) (id : string) :
  row !! "Video ID" = Some id -> id <> EmptyString ->
  exists m, watchLater_row row = Some m /\ videoId m = id.
Proof.
  intros Hrow Hne. apply truthy_string_nonempty in Hne.
  unfold watchLater_row. rewrite Hrow.
  cbn [or_else]. rewrite Hne. cbn [or_else]. rewrite !Hne.
  eexists. split; reflexivity.
Qed.

Lemma history_item_spec `{Runtime} (item : TakeoutHistoryItem)
    (m : WatchHistoryMeta) :
  history_item item = Some m ->
  videoId m <> EmptyString /\ source m = history
  /\ exists url,
      item_titleUrl item = Some url
      /\ extractVideoIdFromUrl url = Some (videoId m).
Proof.
  unfold history_item.
  destruct (item_titleUrl item) as [url|]; [|discriminate].
  destruct (truthy_string url); [|discriminate].
  destruct (extractVideoIdFromUrl url) as [id|] eqn:Hid; [|discriminate].
  destruct (truthy_string id) eqn:Ht; [|discriminate].
  intros [= <-]. cbn [videoId source].
  split; [apply truthy_string_nonempty; exact Ht|]. split; [reflexivity|].
  exists url. split; [reflexivity|exact Hid].
Qed.

Lemma fromVideoIds_one_spec `{Runtime} (input : string) (m : WatchHistoryMeta) :
  fromVideoIds_one input = Some m ->
  videoId m <> EmptyString /\ source m = manual
  /\ extractVideoId input = Some (videoId m).
Proof.
  unfold fromVideoIds_one.
  destruct (extractVideoId input) as [id|]; [|discriminate].
  destruct (truthy_string id) eqn:Ht; [|discriminate].
  intros [= <-]. cbn [videoId source].
  split; [apply truthy_string_nonempty; exact Ht|]. split; reflexivity.
Qed.

Lemma In_map_omap {A B C} (f : A -> option B) (g : B -> C) (l : list A) (c : C) :
  In c (map g (omap f l)) <-> exists a b, In a l /\ f a = Some b /\ g b = c.
Proof.
  rewrite in_map_iff. split.
  - intros (b & Hg & Hb). apply list_elem_of_In, list_elem_of_omap in Hb
      as (a & Ha & Hf).
    exists a, b. split; [apply list_elem_of_In; exact Ha|]. split; assumption.
  - intros (a & b & Ha & Hf & Hg). exists b. split; [exact Hg|].
    apply list_elem_of_In, list_elem_of_omap. exists a.
    split; [apply list_elem_of_In; exact Ha|exact Hf].
Qed.

Lemma extractVideoIdFromUrl_names `{Runtime} (url id : string) :
  extractVideoIdFromUrl url = Some id <-> names_video url id.
Proof.
  unfold extractVideoIdFromUrl, names_video.
  destruct (URL_parse url) as [parsed|].
  - destruct (includes "youtube.com" (hostname parsed)) eqn:Hinc.
    + split.
      * intros Hv. exists parsed. split; [reflexivity|]. left. split; assumption.
      * intros (p & [= <-] & [[_ Hv]|[Hno _]]); [exact Hv|congruence].
    + destruct (String.eqb_spec (hostname parsed) "youtu.be") as [Hhost|Hhost].
      * split.
        -- intros [= <-]. exists parsed. split; [reflexivity|]. right.
           repeat split; assumption.
        -- intros (p & [= <-] & [[Hyes _]|(_ & _ & ->)]);
             [congruence|reflexivity].
      * split; [discriminate|].
        intros (p & [= <-] & [[Hyes _]|(_ & Hh & _)]); congruence.
  - split; [discriminate|]. intros (p & Hp & _). discriminate.
Qed.

(** An item of the history export yields a record with the identifier
    [id] exactly when its link is not empty and names [id], and [id] is
    not empty. *)
Lemma history_item_id `{Runtime} (item : TakeoutHistoryItem) (id : string) :
  (exists m, history_item item = Some m /\ videoId m = id)
  <-> id <> EmptyString
      /\ exists url,
          item_titleUrl item = Some url /\ url <> EmptyString
          /\ names_video url id.
Proof.
  unfold history_item. split.
  - intros (m & Hm & Hid).
    destruct (item_titleUrl item) as [url|]; [|discriminate].
    destruct (truthy_string url) eqn:Hurl; [|discriminate].
    destruct (extractVideoIdFromUrl url) as [v|] eqn:Hv; [|discriminate].
    destruct (truthy_string v) eqn:Ht; [|discriminate].
    injection Hm as <-. cbn [videoId] in Hid. subst v.
    split; [apply truthy_string_nonempty; exact Ht|].
    exists url. split; [reflexivity|].
    split; [apply truthy_string_nonempty; exact Hurl|].
    apply extractVideoIdFromUrl_names. exact Hv.
  - intros (Hne & url & -> & Hurl & Hnames).
    apply truthy_string_nonempty in Hurl. apply truthy_string_nonempty in Hne.
    apply extractVideoIdFromUrl_names in Hnames.
    rewrite Hurl, Hnames, Hne. eexists. split; reflexivity.
Qed.

Lemma or_else_text (a b : option string) (id : string) :
  id <> EmptyString ->
  or_else a b = Some id <-> a = Some id \/ (no_text a /\ b = Some id).
Proof.
  intros Hne. unfold or_else, no_text. destruct a as [x|].
  - destruct (truthy_string x) eqn:Hx.
    + apply truthy_string_nonempty in Hx. split; [tauto|].
      intros [Ha|[[Ha|Ha] _]]; congruence.
    + assert (x = EmptyString) as ->.
      { destruct (String.eqb_spec x EmptyString) as [Hx'|Hx']; [exact Hx'|].
        apply truthy_string_nonempty in Hx'. congruence. }
      split; [intros Hb; right; split; [right; reflexivity|exact Hb]|].
      intros [Ha|[_ Hb]]; [congruence|exact Hb].
  - split; [intros Hb; right; split; [left; reflexivity|exact Hb]|].
    intros [Ha|[_ Hb]]; [discriminate|exact Hb].
Qed.

Lemma or_else_no_text (a b : option string) :
  no_text (or_else a b) <-> no_text a /\ no_text b.
Proof.
  unfold or_else, no_text. destruct a as [x|].
  - destruct (truthy_string x) eqn:Hx.
    + apply truthy_string_nonempty in Hx. split.
      * intros [Ha|Ha]; congruence.
      * intros [[Ha|Ha] _]; congruence.
    + assert (x = EmptyString) as ->.
      { destruct (String.eqb_spec x EmptyString) as [Hx'|Hx']; [exact Hx'|].
        apply truthy_string_nonempty in Hx'. congruence. }
      split; [intros Hb; split; [right; reflexivity|exact Hb]|tauto].
  - split; [intros Hb; split; [left; reflexivity|exact Hb]|tauto].
Qed.

(** A row yields a record with the identifier [id] exactly when [id] is
    its identifier cell and is not empty. *)
Lemma watchLater_row_id (row : gmap string string) (id : string) :
  (exists m, watchLater_row row = Some m /\ videoId m = id)
  <-> id <> EmptyString /\ id_cell row id.
Proof.
  unfold watchLater_row, id_cell.
  set (chain := or_else (or_else (row !! "Video ID") (row !! "video_id"))
                  (row !! "Video Id")).
  assert (Hchain : id <> EmptyString ->
            (chain = Some id
             <-> row !! "Video ID" = Some id
                 \/ (no_text (row !! "Video ID") /\ row !! "video_id" = Some id)
                 \/ (no_text (row !! "Video ID") /\ no_text (row !! "video_id")
                     /\ row !! "Video Id" = Some id))).
  { intros Hne. subst chain.
    rewrite (or_else_text _ _ id Hne), (or_else_text _ _ id Hne),
      or_else_no_text. tauto. }
  split.
  - intros (m & Hm & Hid). destruct chain as [v|]; [|discriminate].
    destruct (truthy_string v) eqn:Hv; [|discriminate].
    injection Hm as <-. cbn [videoId] in Hid. subst v.
    apply truthy_string_nonempty in Hv. split; [exact Hv|].
    apply (Hchain Hv). reflexivity.
  - intros (Hne & Hcell). apply (Hchain Hne) in Hcell. rewrite Hcell.
    apply truthy_string_nonempty in Hne. rewrite Hne.
    eexists. split; reflexivity.
Qed.

(** Every cell [parseCSVLine] returns has been trimmed. *)
Lemma parseCSVLine_loop_trimmed (chars : list ascii) :
  forall (current : string) (inQuotes : bool) (result : list string) (c : string),
    In c (parseCSVLine_loop chars current inQuotes result) ->
    In c result \/ exists raw, c = trim raw.
Proof.
  induction chars as [chars IH] using (induction_ltof1 _ (@length ascii)).
  unfold ltof in IH. intros current inQuotes result c Hin.
  destruct chars as [|char rest].
  - cbn [parseCSVLine_loop] in Hin. apply in_app_iff in Hin as [Hin|[<-|[]]];
      [left; exact Hin|right; eauto].
  - cbn [parseCSVLine_loop] in Hin.
    destruct (Ascii.eqb char dquote).
    + destruct rest as [|nextChar rest'].
      * apply (IH [] ltac:(simpl; lia)) in Hin. exact Hin.
      * destruct (inQuotes && Ascii.eqb nextChar dquote).
        -- apply (IH rest' ltac:(simpl; lia)) in Hin. exact Hin.
        -- apply (IH (nextChar :: rest') ltac:(simpl; lia)) in Hin. exact Hin.
    + destruct (Ascii.eqb char comma && negb inQuotes).
      * apply (IH rest ltac:(simpl; lia)) in Hin as [Hin|Hin]; [|right; exact Hin].
        apply in_app_iff in Hin as [Hin|[<-|[]]]; [left; exact Hin|right; eauto].
      * apply (IH rest ltac:(simpl; lia)) in Hin. exact Hin.
Qed.

(** What a row holds is what it held before, the empty string, or a cell
    of the line. *)
Lemma fill_row_value (headers values : list string) (h v : string) :
  forall (j : nat) (row : gmap string string),
    fill_row headers values j row !! h = Some v ->
    row !! h = Some v \/ v = EmptyString \/ In v values.
Proof.
  induction headers as [|h0 headers IH]; intros j row Hv; [left; exact Hv|].
  cbn [fill_row] in Hv. apply IH in Hv as [Hv|Hv]; [|right; exact Hv].
  unfold set_property in Hv.
  destruct (String.eqb h0 "__proto__"); [left; exact Hv|].
  destruct (decide (h0 = h)) as [->|Hne].
  - rewrite lookup_insert_eq in Hv. injection Hv as <-. right.
    destruct (values !! j) as [x|] eqn:Hx; cbn [or_else default].
    + destruct (truthy_string x); cbn [default];
        [right; apply list_elem_of_In, list_elem_of_lookup; eauto
        |left; reflexivity].
    + left. reflexivity.
  - rewrite lookup_insert_ne in Hv by exact Hne. left. exact Hv.
Qed.

Lemma parseCSV_cells (text : string) (row : gmap string string) (h v : string) :
  In row (parseCSV text) -> row !! h = Some v -> v <> EmptyString ->
  exists line raw,
    In line (nonblank_lines text) /\ In v (parseCSVLine line) /\ v = trim raw.
Proof.
  unfold parseCSV. intros Hrow Hv Hne.
  destruct (nonblank_lines text) as [|header [|l0 ls]]; [destruct Hrow..|].
  apply in_map_iff in Hrow as (line & <- & Hline).
  apply fill_row_value in Hv as [Hv|[Hv|Hv]];
    [rewrite lookup_empty in Hv; discriminate|contradiction|].
  destruct (parseCSVLine_loop_trimmed _ _ _ _ _ Hv) as [[]|(raw & Hraw)].
  exists line, raw. split; [right; exact Hline|]. split; assumption.
Qed.

(** C7, as the code has it.  Every record a loader hands to the core
    carries a non-empty [videoId] and the loader's provenance, and the
    loaders test the identifier against nothing but the empty string.
    The history loader hands over exactly the non-empty identifiers
    named by a non-empty [titleUrl] of an item: the [v] parameter for a
    host containing [youtube.com], the path after its first character
    for [youtu.be].  The watch-later loader hands over exactly the
    non-empty identifier cells of the rows (the cell under [Video ID],
    else [video_id], else [Video Id]), each of them a trimmed cell of a
    line of the export.  Manual input hands over exactly the non-empty
    identifiers the resolver returns.  So any non-empty value in these
    places is passed on unchanged: a watch-later row with a non-empty
    [Video ID] cell yields a record with that identifier. *)
Theorem loaders_hand_over_nonempty_ids `{Runtime} :
  (forall f,
      match loadWatchHistory f with
      | inl _ => True
      | inr results =>
          Forall (fun m => videoId m <> EmptyString /\ source m = history
                           /\ exists url, extractVideoIdFromUrl url = Some (videoId m))
            results
      end)
  /\ (forall text data,
        JSON_parse_history text = Some data ->
        exists results,
          loadWatchHistory (FileText text) = inr results
          /\ forall id,
              In id (map videoId results)
              <-> id <> EmptyString
                  /\ exists item url,
                      In item data /\ item_titleUrl item = Some url
                      /\ url <> EmptyString /\ names_video url id)
  /\ (forall f,
        match loadWatchLater f with
        | inl _ => True
        | inr results =>
            Forall (fun m => videoId m <> EmptyString /\ source m = watch_later)
              results
        end)
  /\ (forall text,
        exists results,
          loadWatchLater (FileText text) = inr results
          /\ (forall id,
                In id (map videoId results)
                <-> id <> EmptyString
                    /\ exists row, In row (parseCSV text) /\ id_cell row id)
          /\ (forall id,
                In id (map videoId results) ->
                exists line raw,
                  In line (nonblank_lines text) /\ In id (parseCSVLine line)
                  /\ id = trim raw))
  /\ (forall inputs,
        Forall (fun m => videoId m <> EmptyString /\ source m = manual
                         /\ exists input,
                             In input inputs
                             /\ extractVideoId input = Some (videoId m))
          (fromVideoIds inputs)
        /\ forall id,
            In id (map videoId (fromVideoIds inputs))
            <-> id <> EmptyString
                /\ exists input, In input inputs /\ extractVideoId input = Some id)
  /\ (forall row id,
        row !! "Video ID" = Some id -> id <> EmptyString ->
        exists m, watchLater_row row = Some m /\ videoId m = id).
Proof.
  split; [|split; [|split; [|split; [|split]]]].
  - intros [|t|text]; cbn [loadWatchHistory]; try exact I.
    destruct (JSON_parse_history text) as [data|]; [|exact I].
    rewrite Forall_forall. intros m Hm.
    apply list_elem_of_omap in Hm as (item & _ & Hitem).
    apply history_item_spec in Hitem as (Hne & Hsrc & url & _ & Hurl).
    split; [exact Hne|]. split; [exact Hsrc|]. exists url. exact Hurl.
  - intros text data Hdata. cbn [loadWatchHistory]. rewrite Hdata.
    eexists. split; [reflexivity|]. intros id. rewrite In_map_omap. split.
    + intros (item & m & Hitem & Hm & Hid).
      destruct (proj1 (history_item_id item id)) as (Hne & url & Hurl & Hu & Hn);
        [eauto|].
      split; [exact Hne|]. exists item, url. repeat split; assumption.
    + intros (Hne & item & url & Hitem & Hurl & Hu & Hn).
      destruct (proj2 (history_item_id item id)) as (m & Hm & Hid); [eauto|].
      exists item, m. repeat split; assumption.
  - intros [|t|text]; cbn [loadWatchLater]; try exact I.
    rewrite Forall_forall. intros m Hm.
    apply list_elem_of_omap in Hm as (row & _ & Hrow).
    apply watchLater_row_spec in Hrow as (Hne & Hsrc & _). split; assumption.
  - intros text. cbn [loadWatchLater]. eexists. split; [reflexivity|].
    assert (Hids : forall id,
              In id (map videoId (omap watchLater_row (parseCSV text)))
              <-> id <> EmptyString
                  /\ exists row, In row (parseCSV text) /\ id_cell row id).
    { intros id. rewrite In_map_omap. split.
      - intros (row & m & Hrow & Hm & Hid).
        destruct (proj1 (watchLater_row_id row id)) as (Hne & Hcell); [eauto|].
        split; [exact Hne|]. exists row. split; assumption.
      - intros (Hne & row & Hrow & Hcell).
        destruct (proj2 (watchLater_row_id row id)) as (m & Hm & Hid); [eauto|].
        exists row, m. repeat split; assumption. }
    split; [exact Hids|]. intros id Hid.
    apply Hids in Hid as (Hne & row & Hrow & Hcell).
    destruct Hcell as [Hc|[(_ & Hc)|(_ & _ & Hc)]];
      exact (parseCSV_cells text row _ id Hrow Hc Hne).
  - intros inputs. split.
    + unfold fromVideoIds. rewrite Forall_forall. intros m Hm.
      apply list_elem_of_omap in Hm as (input & Hin & Hone).
      apply fromVideoIds_one_spec in Hone as (Hne & Hsrc & Hid).
      split; [exact Hne|]. split; [exact Hsrc|]. exists input.
      split; [apply list_elem_of_In; exact Hin|exact Hid].
    + intros id. unfold fromVideoIds. rewrite In_map_omap. split.
      * intros (input & m & Hin & Hm & Hid).
        apply fromVideoIds_one_spec in Hm as (Hne & _ & Hres).
        rewrite Hid in *. split; [exact Hne|]. exists input. split; assumption.
      * intros (Hne & input & Hin & Hres). apply truthy_string_nonempty in Hne.
        eexists input, _. split; [exact Hin|].
        unfold fromVideoIds_one. rewrite Hres, Hne. split; reflexivity.
  - exact watchLater_row_accepts.
Qed.

Lemma loaders_hand_over_nonempty_ids_witness :
  ({[ "Video ID" := "quoted123" ]} : gmap string string) !! "Video ID"
  = Some "quoted123"
  /\ "quoted123" <> EmptyString
  /\ (exists m,
        watchLater_row {[ "Video ID" := "quoted123" ]} = Some m
        /\ videoId m = "quoted123")
  /\ Forall (fun m => videoId m <> EmptyString /\ source m = manual
                       /\ exists input,
                           In input ["invalid"; "dQw4w9WgXcQ"]
                           /\ @extractVideoId Fixture.runtime input
                              = Some (videoId m))
       (@fromVideoIds Fixture.runtime ["invalid"; "dQw4w9WgXcQ"])
  /\ @JSON_parse_history Fixture.runtime "history" = Some Fixture.history_items
  /\ exists results,
      @loadWatchHistory Fixture.runtime (FileText "history") = inr results
      /\ In "abc" (map videoId results).
Proof.
  assert (H1 : ({[ "Video ID" := "quoted123" ]} : gmap string string) !! "Video ID"
               = Some "quoted123") by apply lookup_singleton_eq.
  assert (H2 : "quoted123" <> EmptyString) by discriminate.
  assert (H3 : @JSON_parse_history Fixture.runtime "history"
               = Some Fixture.history_items) by reflexivity.
  pose proof (@loaders_hand_over_nonempty_ids Fixture.runtime)
    as (_ & Hhistory & _ & _ & Hmanual & Haccept).
  split; [exact H1|]. split; [exact H2|].
  split; [exact (Haccept _ _ H1 H2)|]. split; [exact (proj1 (Hmanual _))|].
  split; [exact H3|].
  destruct (Hhistory _ _ H3) as (results & Hrun & Hids).
  exists results. split; [exact Hrun|]. apply Hids.
  split; [discriminate|].
  eexists _, "https://youtu.be/abc".
  split; [right; left; reflexivity|]. split; [reflexivity|].
  split; [discriminate|].
  eexists. split; [reflexivity|]. right. repeat split; reflexivity.
Defined.

(** C7 as stated fails for the watch-later loader: on the export of the
    test 'handles quoted CSV values' it hands over the nine-character
    identifier [quoted123], which is not of the eleven-character form. *)
Lemma watch_later_id_not_validated :
  loadWatchLater (FileText Fixture.quoted_csv)
  = inr [ {| videoId := "quoted123"; title := None; url := None;
             channel := None; watchedAt := Some "2024-01-01T00:00:00Z";
             source := watch_later |} ]
  /\ valid_video_id "quoted123" = false.
Proof. split; vm_compute; reflexivity. Qed.

Lemma loadProcessedIds_never_fails_witness :
  In Fixture.line_good1 (split newline Fixture.processed_log)
  /\ trim Fixture.line_good1 <> EmptyString
  /\ @JSON_parse Fixture.runtime Fixture.line_good1
     = Some (JObj [("meta", JObj [("videoId", JStr "good1")])])
  /\ carries (JObj [("meta", JObj [("videoId", JStr "good1")])]) (JStr "good1")
  /\ exists ids,
      @loadProcessedIds Fixture.runtime (FileText Fixture.processed_log) = inr ids
      /\ In (JStr "good1") ids.
Proof.
  assert (H1 : In Fixture.line_good1 (split newline Fixture.processed_log))
    by (left; vm_compute; reflexivity).
  assert (H2 : trim Fixture.line_good1 <> EmptyString)
    by (vm_compute; discriminate).
  assert (H3 : @JSON_parse Fixture.runtime Fixture.line_good1
               = Some (JObj [("meta", JObj [("videoId", JStr "good1")])]))
    by reflexivity.
  assert (H4 : carries (JObj [("meta", JObj [("videoId", JStr "good1")])])
                 (JStr "good1"))
    by (left; split; reflexivity).
  repeat (split; [assumption|]).
  destruct (proj2 (proj2 (@loadProcessedIds_never_fails Fixture.runtime))
              Fixture.processed_log) as (ids & Hrun & Hstrings & _).
  exists ids. split; [exact Hrun|]. apply Hstrings.
  exists Fixture.line_good1, (JObj [("meta", JObj [("videoId", JStr "good1")])]).
  repeat split; assumption.
Defined.

(** The loaders on the fixtures. *)
Example loadProcessedIds_on_log :
  @loadProcessedIds Fixture.runtime (FileText Fixture.processed_log)
  = inr [JStr "good1"; JStr "good2"; JStr "processed03"].
Proof. vm_compute. reflexivity. Qed.

Example loadWatchHistory_on_items :
  map videoId
    (match @loadWatchHistory Fixture.runtime (FileText "history") with
     | inr results => results
     | inl _ => []
     end)
  = ["dQw4w9WgXcQ"; "abc"].
Proof. vm_compute. reflexivity. Qed.

Example fromVideoIds_on_inputs :
  map videoId (@fromVideoIds Fixture.runtime ["invalid"; "dQw4w9WgXcQ"; ""])
  = ["dQw4w9WgXcQ"].
Proof. vm_compute. reflexivity. Qed.

End LoaderFacts.

(** ** Properties of the track selector *)

Module SelectorFacts.
Import Selector.

Lemma find_filter {A} (p q : A -> bool) (l : list A) :
  List.find p (List.filter q l) = List.find (fun x => q x && p x) l.
Proof.
  induction l as [|x l IH]; [reflexivity|].
  simpl. destruct (q x); simpl; [|exact IH].
  destruct (p x); [reflexivity|exact IH].
Qed.

Lemma head_filter {A} (q : A -> bool) (l : list A) :
  head (List.filter q l) = List.find q l.
Proof.
  induction l as [|x l IH]; [reflexivity|].
  simpl. destruct (q x); [reflexivity|exact IH].
Qed.

Lemma find_split {A} (f : A -> bool) (l : list A) (c : A) :
  List.find f l = Some c ->
  exists before after,
    l = before ++ c :: after
    /\ Forall (fun x => f x = false) before /\ f c = true.
Proof.
  induction l as [|x l IH]; [discriminate|].
  simpl. destruct (f x) eqn:Hx.
  - intros [= <-]. exists [], l. split; [reflexivity|]. split; [constructor|exact Hx].
  - intros Hfind. destruct (IH Hfind) as (before & after & -> & Hb & Hc).
    exists (x :: before), after. split; [reflexivity|].
    split; [constructor; assumption|exact Hc].
Qed.

Lemma find_none_Forall {A} (f : A -> bool) (l : list A) :
  List.find f l = None -> Forall (fun x => f x = false) l.
Proof.
  intros Hnone. rewrite Forall_forall. intros x Hx.
  apply (find_none _ _ Hnone). apply list_elem_of_In. exact Hx.
Qed.

Lemma find_Exists {A} (f : A -> bool) (l : list A) :
  Exists (fun x => f x = true) l -> exists c, List.find f l = Some c.
Proof.
  intros Hex. destruct (List.find f l) as [c|] eqn:Hfind; [eauto|].
  exfalso. apply find_none_Forall in Hfind.
  rewrite Exists_exists in Hex. destruct Hex as (x & Hx & Hfx).
  rewrite Forall_forall in Hfind. specialize (Hfind x Hx). congruence.
Qed.

(** One turn of the loop over the preferred tags, without the
    intermediate subset. *)
Lemma select_preferred_cons (tracks : list CaptionTrack) (tag : string)
    (later : list string) :
  select_preferred tracks (tag :: later)
  = match List.find (fun t => matches tag t && is_manual t) tracks with
    | Some manual_track => Some manual_track
    | None =>
        match List.find (matches tag) tracks with
        | Some first => Some first
        | None => select_preferred tracks later
        end
    end.
Proof.
  cbn [select_preferred]. rewrite find_filter.
  destruct (List.find (fun t => matches tag t && is_manual t) tracks);
    [reflexivity|].
  rewrite <- head_filter.
  destruct (List.filter (matches tag) tracks); reflexivity.
Qed.

Lemma select_preferred_skip (tracks : list CaptionTrack)
    (earlier rest : list string) :
  Forall (fun tag => Forall (fun t => matches tag t = false) tracks) earlier ->
  select_preferred tracks (earlier ++ rest) = select_preferred tracks rest.
Proof.
  induction 1 as [|tag earlier Htag _ IH]; [reflexivity|].
  cbn [app]. rewrite select_preferred_cons.
  assert (Hnone : List.find (matches tag) tracks = None).
  { destruct (List.find (matches tag) tracks) as [c|] eqn:Hfind; [|reflexivity].
    apply find_some in Hfind as [Hin Hc].
    rewrite Forall_forall in Htag.
    rewrite (Htag c) in Hc by (apply list_elem_of_In; exact Hin). discriminate. }
  assert (Hnone' : List.find (fun t => matches tag t && is_manual t) tracks = None).
  { destruct (List.find (fun t => matches tag t && is_manual t) tracks)
      as [c|] eqn:Hfind; [|reflexivity].
    apply find_some in Hfind as [Hin Hc].
    rewrite Forall_forall in Htag.
    rewrite (Htag c) in Hc by (apply list_elem_of_In; exact Hin). discriminate. }
  rewrite Hnone, Hnone'. exact IH.
Qed.

(** C3.  On a non-empty track list the selector answers for the earliest
    preferred tag that is a prefix of some track's language code: the
    first manual track matching that tag in the order of the list if
    there is one, otherwise the first track matching it (no matching
    track being manual then).  When no preferred tag matches any track
    it answers with the first track of the list.  So a manual track of a
    later tag never wins over an earlier tag that only has auto-generated
    tracks, as with Spanish auto-generated and English manual under the
    preference Spanish, English. *)
Theorem select_earliest_preferred_language
    (tracks : list CaptionTrack) (preferredLanguages : list string) :
  tracks <> [] ->
  (forall earlier tag later,
      preferredLanguages = earlier ++ tag :: later ->
      Forall (fun e => Forall (fun t => matches e t = false) tracks) earlier ->
      Exists (fun t => matches tag t = true) tracks ->
      exists chosen before after,
        select tracks preferredLanguages = Some chosen
        /\ tracks = before ++ chosen :: after
        /\ matches tag chosen = true
        /\ ((kind chosen = MANUAL
             /\ Forall (fun t => matches tag t = true -> kind t <> MANUAL) before)
            \/ (Forall (fun t => matches tag t = true -> kind t = AUTO_GENERATED)
                   tracks
                /\ Forall (fun t => matches tag t = false) before)))
  /\ (Forall (fun tag => Forall (fun t => matches tag t = false) tracks)
        preferredLanguages ->
      select tracks preferredLanguages = head tracks)
  /\ select [Fixture.es_auto; Fixture.en_manual] ["es"; "en"]
     = Some Fixture.es_auto.
Proof.
  intros Hne.
  assert (Hsel : select tracks preferredLanguages
                 = select_preferred tracks preferredLanguages)
    by (destruct tracks; [congruence|reflexivity]).
  rewrite Hsel. split; [|split; [|reflexivity]].
  - intros earlier tag later -> Hearlier Hex.
    rewrite select_preferred_skip by exact Hearlier.
    rewrite select_preferred_cons.
    destruct (List.find (fun t => matches tag t && is_manual t) tracks)
      as [c|] eqn:Hmanual.
    + destruct (find_split _ _ _ Hmanual) as (before & after & Hsplit & Hb & Hc).
      apply andb_true_iff in Hc as [Hc1 Hc2].
      exists c, before, after. split; [reflexivity|]. split; [exact Hsplit|].
      split; [exact Hc1|]. left. split.
      * unfold is_manual in Hc2. destruct (kind c); [reflexivity|discriminate].
      * eapply Forall_impl; [exact Hb|]. intros t Ht Hm Hk.
        unfold is_manual in Ht. rewrite Hm, Hk in Ht. discriminate.
    + destruct (find_Exists _ _ Hex) as (c & Hfirst). rewrite Hfirst.
      destruct (find_split _ _ _ Hfirst) as (before & after & Hsplit & Hb & Hc).
      exists c, before, after. split; [reflexivity|]. split; [exact Hsplit|].
      split; [exact Hc|]. right. split; [|exact Hb].
      eapply Forall_impl; [exact (find_none_Forall _ _ Hmanual)|].
      intros t Ht Hm. unfold is_manual in Ht. rewrite Hm in Ht.
      destruct (kind t); [discriminate|reflexivity].
  - intros Hnone.
    rewrite <- (app_nil_r preferredLanguages).
    rewrite select_preferred_skip by exact Hnone. reflexivity.
Qed.

Lemma select_earliest_preferred_language_witness :
  [Fixture.en_auto; Fixture.en_us_manual; Fixture.fr_manual] <> []
  /\ (forall earlier tag later,
        ["de"; "en"; "fr"] = earlier ++ tag :: later ->
        Forall (fun e => Forall (fun t => matches e t = false)
                           [Fixture.en_auto; Fixture.en_us_manual; Fixture.fr_manual])
          earlier ->
        Exists (fun t => matches tag t = true)
          [Fixture.en_auto; Fixture.en_us_manual; Fixture.fr_manual] ->
        exists chosen before after,
          select [Fixture.en_auto; Fixture.en_us_manual; Fixture.fr_manual]
            ["de"; "en"; "fr"] = Some chosen
          /\ [Fixture.en_auto; Fixture.en_us_manual; Fixture.fr_manual]
             = before ++ chosen :: after
          /\ matches tag chosen = true
          /\ ((kind chosen = MANUAL
               /\ Forall (fun t => matches tag t = true -> kind t <> MANUAL) before)
              \/ (Forall (fun t => matches tag t = true -> kind t = AUTO_GENERATED)
                     [Fixture.en_auto; Fixture.en_us_manual; Fixture.fr_manual]
                  /\ Forall (fun t => matches tag t = false) before)))
  /\ select [Fixture.en_auto; Fixture.en_us_manual; Fixture.fr_manual]
       ["de"; "en"; "fr"] = Some Fixture.en_us_manual.
Proof.
  assert (H1 : [Fixture.en_auto; Fixture.en_us_manual; Fixture.fr_manual] <> [])
    by discriminate.
  split; [exact H1|]. split; [|reflexivity].
  exact (proj1 (select_earliest_preferred_language
                  [Fixture.en_auto; Fixture.en_us_manual; Fixture.fr_manual]
                  ["de"; "en"; "fr"] H1)).
Defined.

End SelectorFacts.

(** ** Further properties of the bulk processor *)

Module ProcessorExtras.
Import Processor Trace ProcessorFacts.

Lemma partition_loop_mono (tp : list WatchHistoryMeta) (p : Z) :
  forall (fuel fuel' : nat) (i : Z) (batches r : list (list WatchHistoryMeta)),
    (fuel <= fuel')%nat ->
    partition_loop fuel tp p i batches = Some r ->
    partition_loop fuel' tp p i batches = Some r.
Proof.
  induction fuel as [|fuel IH]; intros fuel' i batches r Hle Hrun; [discriminate|].
  destruct fuel' as [|fuel']; [lia|]. simpl in *.
  destruct (i <? Z.of_nat (length tp)); [|exact Hrun].
  apply (IH fuel'); [lia|exact Hrun].
Qed.

(** Whatever the fuel, a partition that comes out is the partition. *)
Lemma partition_loop_result (tp : list WatchHistoryMeta) (p : Z) (fuel : nat)
    (bs : list (list WatchHistoryMeta)) :
  tp <> [] ->
  partition_loop fuel tp p 0 [] = Some bs ->
  1 <= p /\ concat bs = tp /\ batched (Z.to_nat p) bs.
Proof.
  intros Hne Hrun.
  destruct (Z.le_gt_cases 1 p) as [Hp|Hp].
  - split; [exact Hp|].
    destruct (partition_loop_spec tp p Hp (fuel + S (length tp)) 0 [])
      as (bs' & Hrun' & Hcat & Hb); [lia|lia|].
    rewrite (partition_loop_mono tp p fuel (fuel + S (length tp)) 0 [] bs
               ltac:(lia) Hrun) in Hrun'.
    injection Hrun' as ->. split; assumption.
  - rewrite partition_loop_stuck in Hrun by (assumption || lia). discriminate.
Qed.

Lemma In_EvStart_starts (m : WatchHistoryMeta) (evs : list Event) :
  In (EvStart m) evs -> In m (starts evs).
Proof.
  intros Hin. unfold starts. apply list_elem_of_In, list_elem_of_omap.
  exists (EvStart m). split; [apply list_elem_of_In; exact Hin|reflexivity].
Qed.

(** The attempts a collecting run dispatches are the candidates to
    process, in their order, or none at all when the call throws or does
    not get past its partitioning loop. *)
Lemma processVideos_starts `{Fetcher} (fuel : nat) (pick : Schedule)
    (videos : list WatchHistoryMeta) (o : BulkOptions) :
  starts (snd (processVideos fuel pick videos o)) = []
  \/ starts (snd (processVideos fuel pick videos o)) = toProcess videos o.
Proof.
  unfold processVideos.
  destruct (toProcess videos o) as [|v tp] eqn:Htp; [left; reflexivity|].
  unfold pLimit. destruct (Z.leb_spec 1 (get_concurrency o)); [|left; reflexivity].
  destruct (partition_loop fuel (v :: tp) (get_pauseAfter o) 0 []) as [bs|] eqn:Hrun;
    [|left; reflexivity].
  destruct (partition_loop_result (v :: tp) _ fuel bs ltac:(discriminate) Hrun)
    as (_ & Hcat & _).
  pose proof (run_batches_spec (Z.to_nat (get_concurrency o)) pick o
                (length (v :: tp)) ltac:(lia) bs 0 (length bs) 0 eq_refl)
    as (_ & _ & _ & Hstarts & _).
  destruct (run_batches _ _ _ _ _ _ _ _) as [results evs].
  cbn [snd] in *. right. rewrite Hstarts, Hcat. reflexivity.
Qed.

Lemma streamVideos_starts `{Fetcher}
    (videos : list WatchHistoryMeta) (o : BulkOptions) :
  starts (snd (streamVideos videos o)) = []
  \/ starts (snd (streamVideos videos o)) = toProcess videos o.
Proof.
  unfold streamVideos.
  destruct (toProcess videos o) as [|v tp] eqn:Htp; [left; reflexivity|].
  destruct (pLimit (get_concurrency o)); [left; reflexivity|].
  right. apply stream_loop_spec.
Qed.

(** X1.  A collecting run never has more than [concurrency] attempts in
    flight: after any prefix of its trace, the attempts dispatched and
    not yet completed number between zero and [concurrency]. *)
Theorem collect_respects_concurrency `{Fetcher} (fuel : nat) (pick : Schedule)
    (videos : list WatchHistoryMeta) (o : BulkOptions)
    (pre post : list Event) :
  1 <= get_concurrency o ->
  snd (processVideos fuel pick videos o) = pre ++ post ->
  0 <= in_flight pre <= get_concurrency o.
Proof.
  intros Hc Heq.
  pose proof (processVideos_in_flight fuel pick videos o pre post Heq). lia.
Qed.

Lemma collect_respects_concurrency_witness :
  1 <= get_concurrency Fixture.quiet
  /\ snd (@processVideos Fixture.fetcher 5 Fixture.second_first Fixture.videos
            Fixture.quiet)
     = take 2 (snd (@processVideos Fixture.fetcher 5 Fixture.second_first
                      Fixture.videos Fixture.quiet))
       ++ drop 2 (snd (@processVideos Fixture.fetcher 5 Fixture.second_first
                         Fixture.videos Fixture.quiet))
  /\ 0 <= in_flight (take 2 (snd (@processVideos Fixture.fetcher 5
                                    Fixture.second_first Fixture.videos
                                    Fixture.quiet)))
     <= get_concurrency Fixture.quiet.
Proof.
  assert (H1 : 1 <= get_concurrency Fixture.quiet)
    by (unfold get_concurrency; simpl; lia).
  assert (H2 : snd (@processVideos Fixture.fetcher 5 Fixture.second_first
                      Fixture.videos Fixture.quiet)
               = take 2 (snd (@processVideos Fixture.fetcher 5
                                Fixture.second_first Fixture.videos Fixture.quiet))
                 ++ drop 2 (snd (@processVideos Fixture.fetcher 5
                                   Fixture.second_first Fixture.videos
                                   Fixture.quiet)))
    by (symmetry; apply take_drop).
  split; [exact H1|]. split; [exact H2|].
  exact (@collect_respects_concurrency Fixture.fetcher 5 Fixture.second_first
           Fixture.videos Fixture.quiet _ _ H1 H2).
Defined.

(** X2.  A video whose identifier is in [skipIds] is never fetched: no
    attempt for it is dispatched, in a collecting run or in a stream,
    whatever the rest of the configuration. *)
Theorem skipped_video_is_never_fetched `{Fetcher} (fuel : nat) (pick : Schedule)
    (videos : list WatchHistoryMeta) (o : BulkOptions) (m : WatchHistoryMeta) :
  videoId m ∈ get_skipIds o ->
  ~ In (EvStart m) (snd (processVideos fuel pick videos o))
  /\ ~ In (EvStart m) (snd (streamVideos videos o)).
Proof.
  intros Hskip.
  assert (Hno : ~ In m (toProcess videos o))
    by (intros Hin; apply toProcess_In in Hin as [_ Hnot]; exact (Hnot Hskip)).
  split; intros Hin; apply In_EvStart_starts in Hin.
  - destruct (processVideos_starts fuel pick videos o) as [Heq|Heq];
      rewrite Heq in Hin; [destruct Hin|exact (Hno Hin)].
  - destruct (streamVideos_starts videos o) as [Heq|Heq];
      rewrite Heq in Hin; [destruct Hin|exact (Hno Hin)].
Qed.

Lemma skipped_video_is_never_fetched_witness :
  videoId Fixture.done_before ∈ get_skipIds Fixture.quiet
  /\ ~ In (EvStart Fixture.done_before)
         (snd (@processVideos Fixture.fetcher 5 Fixture.second_first
                 Fixture.videos Fixture.quiet))
  /\ ~ In (EvStart Fixture.done_before)
         (snd (@streamVideos Fixture.fetcher Fixture.videos Fixture.quiet)).
Proof.
  assert (H1 : videoId Fixture.done_before ∈ get_skipIds Fixture.quiet).
  { unfold get_skipIds, Fixture.quiet, Fixture.resumed. simpl.
    apply elem_of_singleton. reflexivity. }
  split; [exact H1|].
  exact (@skipped_video_is_never_fetched Fixture.fetcher 5 Fixture.second_first
           Fixture.videos Fixture.quiet Fixture.done_before H1).
Defined.

(** X3.  Under a valid configuration both modes dispatch one attempt
    per candidate to process, in the order of the candidates: the order
    of completion of a collecting run may differ, the order of dispatch
    does not. *)
Theorem attempts_are_dispatched_in_input_order `{Fetcher}
    (fuel : nat) (pick : Schedule)
    (videos : list WatchHistoryMeta) (o : BulkOptions) :
  1 <= get_concurrency o -> 1 <= get_pauseAfter o ->
  (length videos < fuel)%nat ->
  starts (snd (processVideos fuel pick videos o)) = toProcess videos o
  /\ starts (snd (streamVideos videos o)) = toProcess videos o.
Proof.
  intros Hc Hp Hfuel. split.
  - destruct (processVideos_spec fuel pick videos o Hc Hp Hfuel)
      as (trace & batches & Hrun & _ & _ & _ & _ & _ & Hstarts & _).
    rewrite Hrun. exact Hstarts.
  - unfold streamVideos.
    destruct (toProcess videos o) as [|v tp] eqn:Htp; [reflexivity|].
    unfold pLimit. destruct (Z.leb_spec 1 (get_concurrency o)); [|lia].
    apply stream_loop_spec.
Qed.

Lemma attempts_are_dispatched_in_input_order_witness :
  1 <= get_concurrency Fixture.quiet /\ 1 <= get_pauseAfter Fixture.quiet
  /\ (length Fixture.videos < 5)%nat
  /\ starts (snd (@processVideos Fixture.fetcher 5 Fixture.second_first
                    Fixture.videos Fixture.quiet))
     = toProcess Fixture.videos Fixture.quiet
  /\ starts (snd (@streamVideos Fixture.fetcher Fixture.videos Fixture.quiet))
     = toProcess Fixture.videos Fixture.quiet.
Proof.
  assert (H1 : 1 <= get_concurrency Fixture.quiet)
    by (unfold get_concurrency; simpl; lia).
  assert (H2 : 1 <= get_pauseAfter Fixture.quiet)
    by (unfold get_pauseAfter; simpl; lia).
  assert (H3 : (length Fixture.videos < 5)%nat) by (simpl; lia).
  repeat (split; [assumption|]).
  exact (@attempts_are_dispatched_in_input_order Fixture.fetcher 5
           Fixture.second_first Fixture.videos Fixture.quiet H1 H2 H3).
Defined.

(** *** Counting the idle periods *)

Lemma batched_length {A} (p : nat) (bs : list (list A)) :
  (1 <= p)%nat -> batched p bs ->
  length bs = ((length (concat bs) + p - 1) / p)%nat.
Proof.
  intros Hp. induction bs as [|b rest IH]; intros Hb.
  - simpl. symmetry. apply Nat.div_small. lia.
  - cbn [batched] in Hb. destruct rest as [|b' rest'].
    + simpl. rewrite app_nil_r.
      apply (Nat.div_unique _ _ 1 (length b - 1)); lia.
    + destruct Hb as [Hlen Hrest]. specialize (IH Hrest).
      set (r := b' :: rest') in *.
      change (concat (b :: r)) with (b ++ concat r).
      change (length (b :: r)) with (S (length r)).
      rewrite length_app, Hlen, IH.
      replace (p + length (concat r) + p - 1)%nat
        with (1 * p + (length (concat r) + p - 1))%nat by lia.
      rewrite Nat.div_add_l by lia. reflexivity.
Qed.

Lemma sleeps_app (evs1 evs2 : list Event) :
  sleeps (evs1 ++ evs2) = sleeps evs1 ++ sleeps evs2.
Proof. apply omap_app. Qed.

(** The idle periods of the streaming loop: one each time the counter
    reaches [pauseAfter]. *)
Lemma stream_loop_sleeps `{Fetcher} (o : BulkOptions) :
  1 <= get_pauseAfter o -> 0 < get_pauseDuration o ->
  forall (tp : list WatchHistoryMeta) (k : Z),
    0 <= k < get_pauseAfter o ->
    sleeps (stream_loop o tp k)
    = replicate (Z.to_nat ((k + Z.of_nat (length tp)) / get_pauseAfter o))
        (get_pauseDuration o).
Proof.
  intros Hp Hd. induction tp as [|m rest IH]; intros k Hk.
  - simpl. rewrite Z.add_0_r, Z.div_small by lia. reflexivity.
  - cbn [stream_loop].
    destruct (Z.ltb_spec 0 (get_pauseDuration o)); [|lia].
    destruct (Z.leb_spec (get_pauseAfter o) (k + 1)) as [Hfull|Hpart].
    + rewrite !sleeps_app, (IH 0) by lia.
      assert (Hq : (k + Z.of_nat (length (m :: rest))) / get_pauseAfter o
                   = 1 + (0 + Z.of_nat (length rest)) / get_pauseAfter o).
      { replace (k + Z.of_nat (length (m :: rest)))
          with (1 * get_pauseAfter o + (0 + Z.of_nat (length rest)))
          by (simpl length; lia).
        apply Z.div_add_l. lia. }
      rewrite Hq, Z2Nat.inj_add by (try apply Z.div_pos; lia).
      reflexivity.
    + rewrite sleeps_app, (IH (k + 1)) by lia.
      replace (k + Z.of_nat (length (m :: rest)))
        with (k + 1 + Z.of_nat (length rest)) by (simpl length; lia).
      reflexivity.
Qed.

Lemma stream_loop_no_sleep `{Fetcher} (o : BulkOptions) :
  get_pauseDuration o <= 0 ->
  forall (tp : list WatchHistoryMeta) (k : Z), sleeps (stream_loop o tp k) = [].
Proof.
  intros Hd. induction tp as [|m rest IH]; intros k; [reflexivity|].
  cbn [stream_loop].
  destruct (Z.ltb_spec 0 (get_pauseDuration o)); [lia|].
  destruct (get_pauseAfter o <=? k + 1); rewrite !sleeps_app, IH; reflexivity.
Qed.

Lemma stream_loop_always_sleeps `{Fetcher} (o : BulkOptions) :
  get_pauseAfter o <= 0 -> 0 < get_pauseDuration o ->
  forall tp : list WatchHistoryMeta,
    sleeps (stream_loop o tp 0) = replicate (length tp) (get_pauseDuration o).
Proof.
  intros Hp Hd. induction tp as [|m rest IH]; [reflexivity|].
  cbn [stream_loop].
  destruct (Z.ltb_spec 0 (get_pauseDuration o)); [|lia].
  destruct (Z.leb_spec (get_pauseAfter o) (0 + 1)); [|lia].
  rewrite !sleeps_app, IH. reflexivity.
Qed.

(** X4.  A collecting run over [n] candidates to process in batches of
    [pauseAfter] idles once between consecutive batches and not after
    the last: [ceil (n / pauseAfter) - 1] times for [pauseDuration]
    each, and not at all when [pauseDuration] is not positive. *)
Theorem collect_idles_between_batches `{Fetcher} (fuel : nat) (pick : Schedule)
    (videos : list WatchHistoryMeta) (o : BulkOptions) :
  1 <= get_concurrency o -> 1 <= get_pauseAfter o ->
  (length videos < fuel)%nat ->
  sleeps (snd (processVideos fuel pick videos o))
  = if 0 <? get_pauseDuration o
    then replicate
           ((length (toProcess videos o) + Z.to_nat (get_pauseAfter o) - 1)
              / Z.to_nat (get_pauseAfter o) - 1)%nat
           (get_pauseDuration o)
    else [].
Proof.
  intros Hc Hp Hfuel.
  destruct (processVideos_sleeps fuel pick videos o Hc Hp Hfuel)
    as (batches & Hcat & Hb & Hsleeps).
  assert (Hpos : (1 <= Z.to_nat (get_pauseAfter o))%nat) by lia.
  rewrite Hsleeps, (batched_length _ batches Hpos Hb), Hcat. reflexivity.
Qed.

Lemma collect_idles_between_batches_witness :
  1 <= get_concurrency Fixture.quiet /\ 1 <= get_pauseAfter Fixture.quiet
  /\ (length Fixture.videos < 5)%nat
  /\ sleeps (snd (@processVideos Fixture.fetcher 5 Fixture.second_first
                    Fixture.videos Fixture.quiet))
     = if 0 <? get_pauseDuration Fixture.quiet
       then replicate
              ((length (toProcess Fixture.videos Fixture.quiet)
                + Z.to_nat (get_pauseAfter Fixture.quiet) - 1)
                 / Z.to_nat (get_pauseAfter Fixture.quiet) - 1)%nat
              (get_pauseDuration Fixture.quiet)
       else [].
Proof.
  assert (H1 : 1 <= get_concurrency Fixture.quiet)
    by (unfold get_concurrency; simpl; lia).
  assert (H2 : 1 <= get_pauseAfter Fixture.quiet)
    by (unfold get_pauseAfter; simpl; lia).
  assert (H3 : (length Fixture.videos < 5)%nat) by (simpl; lia).
  repeat (split; [assumption|]).
  exact (@collect_idles_between_batches Fixture.fetcher 5 Fixture.second_first
           Fixture.videos Fixture.quiet H1 H2 H3).
Defined.

(** X5.  A stream over [n] candidates to process idles each time
    [pauseAfter] results have been yielded since the last idle period:
    [floor (n / pauseAfter)] times for [pauseDuration] each, and not at
    all when [pauseDuration] is not positive. *)
Theorem stream_idles_every_pauseAfter `{Fetcher}
    (videos : list WatchHistoryMeta) (o : BulkOptions) :
  1 <= get_concurrency o -> 1 <= get_pauseAfter o ->
  sleeps (snd (streamVideos videos o))
  = if 0 <? get_pauseDuration o
    then replicate
           (Z.to_nat (Z.of_nat (length (toProcess videos o)) / get_pauseAfter o))
           (get_pauseDuration o)
    else [].
Proof.
  intros Hc Hp. unfold streamVideos.
  destruct (toProcess videos o) as [|v tp] eqn:Htp.
  - cbn [snd length]. change (Z.of_nat 0) with 0. rewrite Zdiv_0_l.
    destruct (0 <? get_pauseDuration o); reflexivity.
  - unfold pLimit. destruct (Z.leb_spec 1 (get_concurrency o)); [|lia].
    cbn [snd]. destruct (Z.ltb_spec 0 (get_pauseDuration o)) as [Hd|Hd].
    + rewrite stream_loop_sleeps by lia. reflexivity.
    + apply stream_loop_no_sleep. exact Hd.
Qed.

Lemma stream_idles_every_pauseAfter_witness :
  1 <= get_concurrency Fixture.one_batch /\ 1 <= get_pauseAfter Fixture.one_batch
  /\ sleeps (snd (@streamVideos Fixture.fetcher Fixture.videos Fixture.one_batch))
     = if 0 <? get_pauseDuration Fixture.one_batch
       then replicate
              (Z.to_nat (Z.of_nat (length (toProcess Fixture.videos
                                             Fixture.one_batch))
                         / get_pauseAfter Fixture.one_batch))
              (get_pauseDuration Fixture.one_batch)
       else [].
Proof.
  assert (H1 : 1 <= get_concurrency Fixture.one_batch)
    by (unfold get_concurrency; simpl; lia).
  assert (H2 : 1 <= get_pauseAfter Fixture.one_batch)
    by (unfold get_pauseAfter; simpl; lia).
  repeat (split; [assumption|]).
  exact (@stream_idles_every_pauseAfter Fixture.fetcher Fixture.videos
           Fixture.one_batch H1 H2).
Defined.

(** X6.  With a [pauseAfter] of zero or less the two modes part: a
    stream still ends, having idled after every single result (when
    [pauseDuration] is positive), while a collecting run with something
    to process never gets past its partitioning loop. *)
Theorem nonpositive_pauseAfter `{Fetcher} (fuel : nat) (pick : Schedule)
    (videos : list WatchHistoryMeta) (o : BulkOptions) :
  1 <= get_concurrency o -> get_pauseAfter o <= 0 ->
  toProcess videos o <> [] ->
  fst (streamVideos videos o) = Returned ()
  /\ yielded (snd (streamVideos videos o))
     = map (processOne (fetchOptions o)) (toProcess videos o)
  /\ sleeps (snd (streamVideos videos o))
     = (if 0 <? get_pauseDuration o
        then replicate (length (toProcess videos o)) (get_pauseDuration o)
        else [])
  /\ processVideos fuel pick videos o = (Diverged, []).
Proof.
  intros Hc Hp Hne.
  assert (Hs : sleeps (snd (streamVideos videos o))
               = (if 0 <? get_pauseDuration o
                  then replicate (length (toProcess videos o)) (get_pauseDuration o)
                  else [])).
  { unfold streamVideos.
    destruct (toProcess videos o) as [|v tp] eqn:Htp; [congruence|].
    unfold pLimit. destruct (Z.leb_spec 1 (get_concurrency o)); [|lia].
    cbn [snd]. destruct (Z.ltb_spec 0 (get_pauseDuration o)) as [Hd|Hd].
    - apply stream_loop_always_sleeps; assumption.
    - apply stream_loop_no_sleep. exact Hd. }
  destruct (streamVideos_spec videos o Hc) as (trace & Hrun & Hy).
  rewrite Hrun in *. cbn [fst snd] in *.
  split; [reflexivity|]. split; [exact Hy|]. split; [exact Hs|].
  - unfold processVideos.
    destruct (toProcess videos o) as [|v tp] eqn:Htp; [congruence|].
    unfold pLimit. destruct (Z.leb_spec 1 (get_concurrency o)); [|lia].
    rewrite partition_loop_stuck; [reflexivity|assumption|discriminate|lia].
Qed.

Lemma nonpositive_pauseAfter_witness :
  1 <= get_concurrency Fixture.no_advance
  /\ get_pauseAfter Fixture.no_advance <= 0
  /\ toProcess Fixture.videos Fixture.no_advance <> []
  /\ fst (@streamVideos Fixture.fetcher Fixture.videos Fixture.no_advance)
     = Returned ()
  /\ yielded (snd (@streamVideos Fixture.fetcher Fixture.videos
                     Fixture.no_advance))
     = map (@processOne Fixture.fetcher (fetchOptions Fixture.no_advance))
         (toProcess Fixture.videos Fixture.no_advance)
  /\ sleeps (snd (@streamVideos Fixture.fetcher Fixture.videos
                    Fixture.no_advance))
     = (if 0 <? get_pauseDuration Fixture.no_advance
        then replicate (length (toProcess Fixture.videos Fixture.no_advance))
               (get_pauseDuration Fixture.no_advance)
        else [])
  /\ @processVideos Fixture.fetcher 1000 Fixture.second_first Fixture.videos
       Fixture.no_advance = (Diverged, []).
Proof.
  assert (H1 : 1 <= get_concurrency Fixture.no_advance)
    by (unfold get_concurrency; simpl; lia).
  assert (H2 : get_pauseAfter Fixture.no_advance <= 0)
    by (unfold get_pauseAfter; simpl; lia).
  assert (H3 : toProcess Fixture.videos Fixture.no_advance <> [])
    by (vm_compute; discriminate).
  repeat (split; [assumption|]).
  exact (@nonpositive_pauseAfter Fixture.fetcher 1000 Fixture.second_first
           Fixture.videos Fixture.no_advance H1 H2 H3).
Defined.

(** *** The two modes side by side *)

(** X7.  Under a valid configuration the stream yields, in order, the
    very results the collecting run returns: the two modes differ in
    when a result becomes available, not in what it is. *)
Theorem stream_yields_what_collect_returns `{Fetcher}
    (fuel : nat) (pick : Schedule)
    (videos : list WatchHistoryMeta) (o : BulkOptions) :
  1 <= get_concurrency o -> 1 <= get_pauseAfter o ->
  (length videos < fuel)%nat ->
  fst (processVideos fuel pick videos o)
  = Returned (yielded (snd (streamVideos videos o))).
Proof.
  intros Hc Hp Hfuel.
  destruct (processVideos_spec fuel pick videos o Hc Hp Hfuel)
    as (trace & batches & Hrun & _).
  destruct (streamVideos_spec videos o Hc) as (trace' & Hrun' & Hy).
  rewrite Hrun, Hrun'. cbn [fst snd]. rewrite Hy. reflexivity.
Qed.

Lemma stream_yields_what_collect_returns_witness :
  1 <= get_concurrency Fixture.quiet /\ 1 <= get_pauseAfter Fixture.quiet
  /\ (length Fixture.videos < 5)%nat
  /\ fst (@processVideos Fixture.fetcher 5 Fixture.second_first Fixture.videos
            Fixture.quiet)
     = Returned (yielded (snd (@streamVideos Fixture.fetcher Fixture.videos
                                 Fixture.quiet))).
Proof.
  assert (H1 : 1 <= get_concurrency Fixture.quiet)
    by (unfold get_concurrency; simpl; lia).
  assert (H2 : 1 <= get_pauseAfter Fixture.quiet)
    by (unfold get_pauseAfter; simpl; lia).
  assert (H3 : (length Fixture.videos < 5)%nat) by (simpl; lia).
  repeat (split; [assumption|]).
  exact (@stream_yields_what_collect_returns Fixture.fetcher 5
           Fixture.second_first Fixture.videos Fixture.quiet H1 H2 H3).
Defined.

(** X8.  The limiter is built after the candidates have been filtered:
    with a [concurrency] below one, both modes throw before any attempt
    is dispatched when something is left to process, and both return
    normally, without any effect, when nothing is. *)
Theorem invalid_concurrency `{Fetcher} (fuel : nat) (pick : Schedule)
    (videos : list WatchHistoryMeta) (o : BulkOptions) :
  get_concurrency o < 1 ->
  (toProcess videos o = [] ->
     processVideos fuel pick videos o = (Returned [], [])
     /\ streamVideos videos o = (Returned (), []))
  /\ (toProcess videos o <> [] ->
      exists t,
        processVideos fuel pick videos o = (Threw t, [])
        /\ streamVideos videos o = (Threw t, [])).
Proof.
  intros Hc. unfold processVideos, streamVideos. split.
  - intros ->. split; reflexivity.
  - intros Hne. destruct (toProcess videos o) as [|v tp]; [congruence|].
    unfold pLimit. destruct (Z.leb_spec 1 (get_concurrency o)); [lia|].
    eexists. split; reflexivity.
Qed.

Lemma invalid_concurrency_witness :
  get_concurrency (Fixture.options 0 2 100 Fixture.resumed false) < 1
  /\ toProcess Fixture.videos (Fixture.options 0 2 100 Fixture.resumed false) <> []
  /\ (exists t,
        @processVideos Fixture.fetcher 5 Fixture.second_first Fixture.videos
          (Fixture.options 0 2 100 Fixture.resumed false) = (Threw t, [])
        /\ @streamVideos Fixture.fetcher Fixture.videos
             (Fixture.options 0 2 100 Fixture.resumed false) = (Threw t, []))
  /\ get_concurrency (Fixture.options 0 2 100 Fixture.all_done false) < 1
  /\ toProcess Fixture.videos (Fixture.options 0 2 100 Fixture.all_done false) = []
  /\ @processVideos Fixture.fetcher 5 Fixture.second_first Fixture.videos
       (Fixture.options 0 2 100 Fixture.all_done false) = (Returned [], [])
  /\ @streamVideos Fixture.fetcher Fixture.videos
       (Fixture.options 0 2 100 Fixture.all_done false) = (Returned (), []).
Proof.
  assert (H1 : get_concurrency (Fixture.options 0 2 100 Fixture.resumed false) < 1)
    by (unfold get_concurrency; simpl; lia).
  assert (H2 : toProcess Fixture.videos
                 (Fixture.options 0 2 100 Fixture.resumed false) <> [])
    by (vm_compute; discriminate).
  assert (H3 : get_concurrency (Fixture.options 0 2 100 Fixture.all_done false) < 1)
    by (unfold get_concurrency; simpl; lia).
  assert (H4 : toProcess Fixture.videos
                 (Fixture.options 0 2 100 Fixture.all_done false) = [])
    by (vm_compute; reflexivity).
  split; [exact H1|]. split; [exact H2|].
  split; [exact (proj2 (@invalid_concurrency Fixture.fetcher 5
                          Fixture.second_first Fixture.videos _ H1) H2)|].
  split; [exact H3|]. split; [exact H4|].
  exact (proj1 (@invalid_concurrency Fixture.fetcher 5 Fixture.second_first
                  Fixture.videos _ H3) H4).
Defined.

(** X9.  Every result either mode delivers under a valid configuration
    belongs to a candidate that was to be processed and carries exactly
    one of a transcript and an error message. *)
Theorem results_have_transcript_or_error `{Fetcher}
    (fuel : nat) (pick : Schedule)
    (videos : list WatchHistoryMeta) (o : BulkOptions) :
  1 <= get_concurrency o -> 1 <= get_pauseAfter o ->
  (length videos < fuel)%nat ->
  exists results,
    fst (processVideos fuel pick videos o) = Returned results
    /\ yielded (snd (streamVideos videos o)) = results
    /\ Forall (fun r =>
                 In (meta r) videos /\ (videoId (meta r) ∉ get_skipIds o)
                 /\ ((is_Some (transcript r) /\ error r = None)
                     \/ (transcript r = None /\ is_Some (error r))))
         results.
Proof.
  intros Hc Hp Hfuel.
  destruct (processVideos_spec fuel pick videos o Hc Hp Hfuel)
    as (trace & batches & Hrun & _).
  destruct (streamVideos_spec videos o Hc) as (trace' & Hrun' & Hy).
  exists (map (processOne (fetchOptions o)) (toProcess videos o)).
  rewrite Hrun, Hrun'. cbn [fst snd].
  split; [reflexivity|]. split; [exact Hy|].
  rewrite Forall_forall. intros r Hr.
  apply list_elem_of_In, in_map_iff in Hr as (m & <- & Hm).
  apply toProcess_In in Hm as [Hin Hskip].
  rewrite processOne_meta. split; [exact Hin|]. split; [exact Hskip|].
  unfold processOne. destruct (fetchTranscript _ _); cbn; eauto.
Qed.

Lemma results_have_transcript_or_error_witness :
  1 <= get_concurrency Fixture.quiet /\ 1 <= get_pauseAfter Fixture.quiet
  /\ (length Fixture.videos < 5)%nat
  /\ exists results,
      fst (@processVideos Fixture.fetcher 5 Fixture.second_first Fixture.videos
             Fixture.quiet) = Returned results
      /\ yielded (snd (@streamVideos Fixture.fetcher Fixture.videos Fixture.quiet))
         = results
      /\ Forall (fun r =>
                   In (meta r) Fixture.videos
                   /\ (videoId (meta r) ∉ get_skipIds Fixture.quiet)
                   /\ ((is_Some (transcript r) /\ error r = None)
                       \/ (transcript r = None /\ is_Some (error r))))
           results.
Proof.
  assert (H1 : 1 <= get_concurrency Fixture.quiet)
    by (unfold get_concurrency; simpl; lia).
  assert (H2 : 1 <= get_pauseAfter Fixture.quiet)
    by (unfold get_pauseAfter; simpl; lia).
  assert (H3 : (length Fixture.videos < 5)%nat) by (simpl; lia).
  repeat (split; [assumption|]).
  exact (@results_have_transcript_or_error Fixture.fetcher 5
           Fixture.second_first Fixture.videos Fixture.quiet H1 H2 H3).
Defined.

End ProcessorExtras.

(** ** Further properties of the loaders *)

Module LoaderExtras.
Import Js Loaders LoaderSpec CsvSpec LoaderFacts.

(** *** Reading one line of CSV *)

Lemma append_empty_r (s : string) : (s ++ EmptyString)%string = s.
Proof.
  induction s as [|c s IH]; [reflexivity|].
  change (String c (s ++ EmptyString)%string = String c s). f_equal. exact IH.
Qed.

Lemma append_assoc (a b c : string) :
  ((a ++ b) ++ c)%string = (a ++ (b ++ c))%string.
Proof.
  induction a as [|x a IH]; [reflexivity|].
  change (String x ((a ++ b) ++ c)%string = String x (a ++ (b ++ c))%string).
  f_equal. exact IH.
Qed.

Lemma list_ascii_app (a b : string) :
  list_ascii_of_string (a ++ b)
  = list_ascii_of_string a ++ list_ascii_of_string b.
Proof.
  induction a as [|x a IH]; [reflexivity|].
  change (x :: list_ascii_of_string (a ++ b)
          = x :: (list_ascii_of_string a ++ list_ascii_of_string b)).
  f_equal. exact IH.
Qed.

Lemma split_nonempty (sep : ascii) (s : string) : split sep s <> [].
Proof.
  destruct s as [|c s]; [discriminate|]. simpl.
  destruct (Ascii.eqb c sep); [discriminate|].
  destruct (split sep s); discriminate.
Qed.

(** Outside quotes the loop cuts at the commas and trims each piece. *)
Lemma parseCSVLine_loop_unquoted (s : string) :
  free_of is_dquote s = true ->
  forall (current : string) (result : list string),
    parseCSVLine_loop (list_ascii_of_string s) current false result
    = result
      ++ match split comma s with
         | piece :: pieces => trim (current ++ piece) :: map trim pieces
         | [] => []
         end.
Proof.
  unfold free_of, is_dquote.
  induction s as [|c s IH]; intros Hfree current result.
  - simpl. rewrite append_empty_r. reflexivity.
  - cbn [list_ascii_of_string forallb] in Hfree.
    apply andb_true_iff in Hfree as [Hc Hs]. apply negb_true_iff in Hc.
    cbn [list_ascii_of_string parseCSVLine_loop split]. rewrite Hc.
    destruct (Ascii.eqb c comma) eqn:Hcomma; cbn [andb negb].
    + rewrite (IH Hs). pose proof (split_nonempty comma s) as Hne.
      destruct (split comma s) as [|piece pieces]; [congruence|].
      rewrite append_empty_r, <- app_assoc. reflexivity.
    + rewrite (IH Hs). pose proof (split_nonempty comma s) as Hne.
      destruct (split comma s) as [|piece pieces]; [congruence|].
      rewrite append_assoc. reflexivity.
Qed.

(** X10.  On a line without quotes, [parseCSVLine] gives the pieces
    between the commas, each trimmed: as many cells as commas plus one,
    an empty cell for two commas in a row or a comma at either end. *)
Theorem parseCSVLine_without_quotes (line : string) :
  free_of is_dquote line = true ->
  parseCSVLine line = map trim (split comma line).
Proof.
  intros Hfree. unfold parseCSVLine.
  rewrite (parseCSVLine_loop_unquoted line Hfree).
  pose proof (split_nonempty comma line) as Hne.
  destruct (split comma line); [congruence|reflexivity].
Qed.

Lemma parseCSVLine_without_quotes_witness :
  free_of is_dquote "9bZkp7q19f0, 2024-01-10T12:00:00Z ,," = true
  /\ parseCSVLine "9bZkp7q19f0, 2024-01-10T12:00:00Z ,,"
     = map trim (split comma "9bZkp7q19f0, 2024-01-10T12:00:00Z ,,").
Proof.
  assert (H1 : free_of is_dquote "9bZkp7q19f0, 2024-01-10T12:00:00Z ,," = true)
    by reflexivity.
  split; [exact H1|].
  exact (parseCSVLine_without_quotes _ H1).
Defined.

(** Inside quotes the loop copies everything up to the closing quote,
    taking a doubled quote for one. *)
Lemma parseCSVLine_loop_quoted (s : string) :
  forall (rest : list ascii) (current : string) (result : list string),
    match rest with
    | [] => True
    | next :: _ => Ascii.eqb next dquote = false
    end ->
    parseCSVLine_loop (list_ascii_of_string (double_quotes s) ++ dquote :: rest)
      current true result
    = parseCSVLine_loop rest (current ++ s) false result.
Proof.
  induction s as [|c s IH]; intros rest current result Hrest.
  - cbn [double_quotes list_ascii_of_string app parseCSVLine_loop].
    rewrite Ascii.eqb_refl, append_empty_r.
    destruct rest as [|next rest']; [reflexivity|].
    rewrite Hrest. reflexivity.
  - cbn [double_quotes]. destruct (Ascii.eqb c dquote) eqn:Hc.
    + apply Ascii.eqb_eq in Hc. subst c.
      cbn [list_ascii_of_string app parseCSVLine_loop].
      rewrite Ascii.eqb_refl. cbn [andb].
      rewrite (IH rest _ result Hrest), append_assoc. reflexivity.
    + cbn [list_ascii_of_string app parseCSVLine_loop]. rewrite Hc.
      replace (Ascii.eqb c comma && negb true) with false
        by (destruct (Ascii.eqb c comma); reflexivity).
      rewrite (IH rest _ result Hrest), append_assoc. reflexivity.
Qed.

Lemma parseCSVLine_loop_cell (s : string) (rest : list ascii)
    (current : string) (result : list string) :
  match rest with
  | [] => True
  | next :: _ => Ascii.eqb next dquote = false
  end ->
  parseCSVLine_loop (list_ascii_of_string (quote_cell s) ++ rest)
    current false result
  = parseCSVLine_loop rest (current ++ s) false result.
Proof.
  intros Hrest. unfold quote_cell.
  cbn [list_ascii_of_string]. rewrite list_ascii_app.
  cbn [list_ascii_of_string app]. rewrite <- app_assoc. cbn [app].
  cbn [parseCSVLine_loop]. rewrite Ascii.eqb_refl.
  destruct (list_ascii_of_string (double_quotes s) ++ dquote :: rest)
    as [|next rest'] eqn:Hbody.
  { destruct (list_ascii_of_string (double_quotes s)); discriminate. }
  cbn [andb negb]. rewrite <- Hbody.
  apply parseCSVLine_loop_quoted. exact Hrest.
Qed.

Lemma parseCSVLine_loop_quoted_line (cells : list string) :
  cells <> [] ->
  forall result : list string,
    parseCSVLine_loop (list_ascii_of_string (quoted_line cells))
      EmptyString false result
    = result ++ map trim cells.
Proof.
  unfold quoted_line.
  induction cells as [|c rest IH]; intros Hne result; [congruence|].
  cbn [map join]. destruct rest as [|c' rest'].
  - cbn [map]. rewrite <- (app_nil_r (list_ascii_of_string (quote_cell c))).
    rewrite parseCSVLine_loop_cell by exact I. reflexivity.
  - change (map quote_cell (c' :: rest'))
      with (quote_cell c' :: map quote_cell rest').
    cbn iota. rewrite list_ascii_app. cbn [list_ascii_of_string].
    rewrite parseCSVLine_loop_cell by reflexivity.
    cbn [parseCSVLine_loop]. change (Ascii.eqb comma dquote) with false.
    cbn iota. rewrite Ascii.eqb_refl. cbn [andb negb].
    change (quote_cell c' :: map quote_cell rest')
      with (map quote_cell (c' :: rest')).
    rewrite IH by discriminate. rewrite <- app_assoc. reflexivity.
Qed.

(** X11.  Quoted cells read back as they were written, up to white
    space at their ends: whatever the cells hold, commas and quotes
    included, a line of quoted cells parses to the cells, trimmed. *)
Theorem parseCSVLine_reads_quoted_cells (cells : list string) :
  cells <> [] ->
  parseCSVLine (quoted_line cells) = map trim cells.
Proof.
  intros Hne. unfold parseCSVLine.
  rewrite (parseCSVLine_loop_quoted_line cells Hne []). reflexivity.
Qed.

Lemma parseCSVLine_reads_quoted_cells_witness :
  ["a,b"; String dquote "x"; " 2024 "] <> []
  /\ parseCSVLine (quoted_line ["a,b"; String dquote "x"; " 2024 "])
     = map trim ["a,b"; String dquote "x"; " 2024 "].
Proof.
  assert (H1 : ["a,b"; String dquote "x"; " 2024 "] <> []) by discriminate.
  split; [exact H1|].
  exact (parseCSVLine_reads_quoted_cells _ H1).
Defined.

(** *** Reading a whole CSV text *)

Lemma cell_or_empty (cell : option string) :
  default EmptyString (or_else cell (Some EmptyString))
  = default EmptyString cell.
Proof.
  destruct cell as [c|]; [|reflexivity]. unfold or_else.
  destruct (truthy_string c) eqn:Hc; [reflexivity|].
  unfold truthy_string in Hc. apply negb_false_iff, String.eqb_eq in Hc.
  subst. reflexivity.
Qed.

Lemma set_property_stored (k v : string) (obj : gmap string string) :
  k <> "__proto__" -> set_property k v obj = <[k := v]> obj.
Proof.
  intros Hk. unfold set_property.
  destruct (String.eqb_spec k "__proto__"); [contradiction|reflexivity].
Qed.

Lemma set_property_other (k v h : string) (obj : gmap string string) :
  k <> h -> set_property k v obj !! h = obj !! h.
Proof.
  intros Hk. unfold set_property.
  destruct (String.eqb k "__proto__"); [reflexivity|].
  apply lookup_insert_ne. exact Hk.
Qed.

Lemma set_property_is_Some (k v h : string) (obj : gmap string string) :
  is_Some (set_property k v obj !! h)
  <-> is_Some (obj !! h) \/ (k = h /\ h <> "__proto__").
Proof.
  unfold set_property. destruct (String.eqb_spec k "__proto__") as [->|Hk].
  - split; [tauto|]. intros [Hs|[<- Hne]]; [exact Hs|contradiction].
  - rewrite lookup_insert_is_Some. destruct (decide (k = h)) as [<-|Hne]; tauto.
Qed.

Lemma fill_row_other (headers values : list string) (h : string) :
  ~ In h headers ->
  forall (j : nat) (row : gmap string string),
    fill_row headers values j row !! h = row !! h.
Proof.
  induction headers as [|h0 headers IH]; intros Hnot j row; [reflexivity|].
  cbn [fill_row]. rewrite IH by (intros Hin; apply Hnot; right; exact Hin).
  apply set_property_other. intros ->. apply Hnot. left. reflexivity.
Qed.

Lemma fill_row_keys (headers values : list string) (h : string) :
  forall (j : nat) (row : gmap string string),
    is_Some (fill_row headers values j row !! h)
    <-> is_Some (row !! h) \/ (In h headers /\ h <> "__proto__").
Proof.
  induction headers as [|h0 headers IH]; intros j row.
  - simpl. tauto.
  - cbn [fill_row In]. rewrite IH, set_property_is_Some. tauto.
Qed.

Lemma fill_row_cell (headers values : list string) :
  NoDup headers ->
  forall (i : nat) (h : string) (j : nat) (row : gmap string string),
    headers !! i = Some h -> h <> "__proto__" ->
    fill_row headers values j row !! h
    = Some (default EmptyString (values !! (j + i)%nat)).
Proof.
  induction 1 as [|h0 headers Hnot Hnodup IH]; intros i h j row Hi Hh;
    [discriminate|].
  cbn [fill_row]. destruct i as [|i].
  - injection Hi as <-.
    rewrite fill_row_other by (rewrite <- list_elem_of_In; exact Hnot).
    rewrite set_property_stored by exact Hh.
    rewrite lookup_insert_eq, cell_or_empty, Nat.add_0_r. reflexivity.
  - rewrite (IH i h (S j) _ Hi Hh).
    replace (S j + i)%nat with (j + S i)%nat by lia. reflexivity.
Qed.

(** X12.  [parseCSV] gives one row per non-blank line after the first
    (none when there are fewer than two such lines), and the own keys of
    every row are exactly the cells of the header line other than
    [__proto__]: a column under that header is lost. *)
Theorem parseCSV_rows_and_keys (text : string) :
  length (parseCSV text) = (length (nonblank_lines text) - 1)%nat
  /\ forall row,
      In row (parseCSV text) ->
      forall h,
        is_Some (row !! h)
        <-> In h (parseCSVLine (List.hd EmptyString (nonblank_lines text)))
            /\ h <> "__proto__".
Proof.
  unfold parseCSV. destruct (nonblank_lines text) as [|header [|line lines]].
  - split; [reflexivity|]. intros row [].
  - split; [reflexivity|]. intros row [].
  - split; [cbn [length]; rewrite length_map; simpl; lia|].
    intros row Hrow h. apply in_map_iff in Hrow as (l & <- & _).
    rewrite fill_row_keys, lookup_empty. cbn [List.hd].
    split; [intros [[x Hx]|Hin]; [discriminate|exact Hin]|tauto].
Qed.

(** X13.  Under distinct header cells, the row of the [k]-th data line
    holds as its own property under each header other than [__proto__]
    the cell at the header's position in that line, and the empty string
    when the line is too short to have one. *)
Theorem parseCSV_cell (text header : string) (lines : list string)
    (k j : nat) (line h : string) :
  nonblank_lines text = header :: lines ->
  lines !! k = Some line ->
  NoDup (parseCSVLine header) ->
  parseCSVLine header !! j = Some h ->
  h <> "__proto__" ->
  exists row,
    parseCSV text !! k = Some row
    /\ row !! h = Some (default EmptyString (parseCSVLine line !! j)).
Proof.
  intros Hlines Hk Hnodup Hj Hh. unfold parseCSV. rewrite Hlines.
  destruct lines as [|l0 ls]; [discriminate|].
  set (f := fun line => fill_row (parseCSVLine header) (parseCSVLine line) 0 ∅).
  exists (f line). split.
  - change (map f (l0 :: ls)) with (f <$> (l0 :: ls)).
    rewrite list_lookup_fmap, Hk. reflexivity.
  - subst f. cbn beta. apply (fill_row_cell _ _ Hnodup j h 0 ∅ Hj Hh).
Qed.

Lemma parseCSV_cell_witness :
  nonblank_lines Fixture.quoted_csv
  = [ "Video ID,Playlist Video Creation Timestamp";
      (Fixture.quoted "quoted123" ++ "," ++ Fixture.quoted "2024-01-01T00:00:00Z")%string ]
  /\ [ (Fixture.quoted "quoted123" ++ "," ++ Fixture.quoted "2024-01-01T00:00:00Z")%string ]
       !! 0%nat
     = Some (Fixture.quoted "quoted123" ++ "," ++ Fixture.quoted "2024-01-01T00:00:00Z")%string
  /\ NoDup (parseCSVLine "Video ID,Playlist Video Creation Timestamp")
  /\ parseCSVLine "Video ID,Playlist Video Creation Timestamp" !! 0%nat
     = Some "Video ID"
  /\ "Video ID" <> "__proto__"
  /\ exists row,
      parseCSV Fixture.quoted_csv !! 0%nat = Some row
      /\ row !! "Video ID"
         = Some (default EmptyString
                   (parseCSVLine (Fixture.quoted "quoted123" ++ ","
                                  ++ Fixture.quoted "2024-01-01T00:00:00Z")%string
                      !! 0%nat)).
Proof.
  assert (H1 : nonblank_lines Fixture.quoted_csv
               = [ "Video ID,Playlist Video Creation Timestamp";
                   (Fixture.quoted "quoted123" ++ ","
                    ++ Fixture.quoted "2024-01-01T00:00:00Z")%string ])
    by (vm_compute; reflexivity).
  assert (H2 : [ (Fixture.quoted "quoted123" ++ ","
                  ++ Fixture.quoted "2024-01-01T00:00:00Z")%string ] !! 0%nat
               = Some (Fixture.quoted "quoted123" ++ ","
                       ++ Fixture.quoted "2024-01-01T00:00:00Z")%string)
    by reflexivity.
  assert (H3 : NoDup (parseCSVLine "Video ID,Playlist Video Creation Timestamp")).
  { change (parseCSVLine "Video ID,Playlist Video Creation Timestamp")
      with ["Video ID"; "Playlist Video Creation Timestamp"].
    repeat constructor; rewrite ?list_elem_of_In; simpl; intuition discriminate. }
  assert (H4 : parseCSVLine "Video ID,Playlist Video Creation Timestamp" !! 0%nat
               = Some "Video ID") by (vm_compute; reflexivity).
  assert (H5 : "Video ID" <> "__proto__") by discriminate.
  repeat (split; [assumption|]).
  exact (parseCSV_cell _ _ _ 0%nat 0%nat _ _ H1 H2 H3 H4 H5).
Defined.

(** *** From an export to the records *)

Lemma list_ascii_reverse (s : string) :
  list_ascii_of_string (reverse s) = rev (list_ascii_of_string s).
Proof. unfold reverse. apply list_ascii_of_string_of_list_ascii. Qed.

Lemma trimStart_keeps_ink (s : string) (c : ascii) :
  In c (list_ascii_of_string s) -> is_space c = false ->
  In c (list_ascii_of_string (trimStart s)).
Proof.
  induction s as [|x s IH]; intros Hin Hc; [destruct Hin|].
  cbn [trimStart]. destruct (is_space x) eqn:Hx; [|exact Hin].
  destruct Hin as [->|Hin]; [congruence|]. exact (IH Hin Hc).
Qed.

Lemma trim_keeps_ink (s : string) (c : ascii) :
  In c (list_ascii_of_string s) -> is_space c = false ->
  In c (list_ascii_of_string (trim s)).
Proof.
  intros Hin Hc. unfold trim.
  rewrite list_ascii_reverse, <- in_rev. apply trimStart_keeps_ink; [|exact Hc].
  rewrite list_ascii_reverse, <- in_rev. apply trimStart_keeps_ink; assumption.
Qed.

Lemma trimStart_blank (s : string) :
  forallb is_space (list_ascii_of_string s) = true -> trimStart s = EmptyString.
Proof.
  induction s as [|x s IH]; [reflexivity|].
  cbn [list_ascii_of_string forallb trimStart]. intros Hall.
  apply andb_true_iff in Hall as [-> Hs]. exact (IH Hs).
Qed.

(** A non-empty string that trimming leaves alone holds a character
    that is not white space. *)
Lemma trimmed_has_ink (s : string) :
  trim s = s -> s <> EmptyString ->
  exists c, In c (list_ascii_of_string s) /\ is_space c = false.
Proof.
  intros Htrim Hne.
  destruct (forallb is_space (list_ascii_of_string s)) eqn:Hall.
  - exfalso. apply Hne. rewrite <- Htrim. unfold trim.
    rewrite (trimStart_blank s Hall). reflexivity.
  - clear Htrim Hne. induction (list_ascii_of_string s) as [|x l IH];
      [discriminate|].
    cbn [forallb] in Hall. destruct (is_space x) eqn:Hx.
    + destruct (IH Hall) as (c & Hin & Hc). exists c. split; [right|]; assumption.
    + exists x. split; [left; reflexivity|exact Hx].
Qed.

Lemma ink_is_not_blank (s : string) (c : ascii) :
  In c (list_ascii_of_string s) -> is_space c = false ->
  truthy_string (trim s) = true.
Proof.
  intros Hin Hc. apply truthy_string_nonempty. intros Hempty.
  pose proof (trim_keeps_ink s c Hin Hc) as Hin'. rewrite Hempty in Hin'.
  destruct Hin'.
Qed.

Lemma split_free (sep : ascii) (s : string) :
  forallb (fun c => negb (Ascii.eqb c sep)) (list_ascii_of_string s) = true ->
  split sep s = [s].
Proof.
  induction s as [|x s IH]; [reflexivity|].
  cbn [list_ascii_of_string forallb split]. intros Hall.
  apply andb_true_iff in Hall as [Hx Hs]. apply negb_true_iff in Hx.
  rewrite Hx, (IH Hs). reflexivity.
Qed.

Lemma split_at_sep (sep : ascii) (a b : string) :
  forallb (fun c => negb (Ascii.eqb c sep)) (list_ascii_of_string a) = true ->
  split sep (a ++ String sep b) = a :: split sep b.
Proof.
  induction a as [|x a IH].
  - intros _. change (EmptyString ++ String sep b)%string with (String sep b).
    cbn [split]. rewrite Ascii.eqb_refl. reflexivity.
  - cbn [list_ascii_of_string forallb]. intros Hall.
    apply andb_true_iff in Hall as [Hx Ha]. apply negb_true_iff in Hx.
    change (String x a ++ String sep b)%string
      with (String x (a ++ String sep b)).
    cbn [split]. rewrite Hx, (IH Ha). reflexivity.
Qed.

Lemma split_join (sep : ascii) (pieces : list string) :
  pieces <> [] ->
  Forall (fun piece =>
            forallb (fun c => negb (Ascii.eqb c sep))
              (list_ascii_of_string piece) = true) pieces ->
  split sep (join sep pieces) = pieces.
Proof.
  induction pieces as [|piece rest IH]; intros Hne Hall; [congruence|].
  apply Forall_cons in Hall as [Hpiece Hrest].
  cbn [join]. destruct rest as [|piece' rest'].
  - apply split_free. exact Hpiece.
  - rewrite split_at_sep by exact Hpiece.
    rewrite IH by (discriminate || exact Hrest). reflexivity.
Qed.

Lemma free_of_app (f : ascii -> bool) (a b : string) :
  free_of f (a ++ b) = free_of f a && free_of f b.
Proof. unfold free_of. rewrite list_ascii_app. apply forallb_app. Qed.

(** What the loader makes of one line of the export. *)
Lemma takeout_line_record (entry : string * string) :
  plain_cell (fst entry) -> fst entry <> EmptyString -> plain_cell (snd entry) ->
  watchLater_row
    (fill_row (parseCSVLine takeout_header) (parseCSVLine (takeout_line entry))
       0 ∅)
  = Some (watch_later_record entry).
Proof.
  destruct entry as [id ts]. cbn [fst snd].
  intros (Hc1 & Hq1 & _ & Ht1) Hne (Hc2 & Hq2 & _ & Ht2).
  assert (Hline : parseCSVLine (takeout_line (id, ts)) = [id; ts]).
  { rewrite parseCSVLine_without_quotes.
    - unfold takeout_line. cbn [fst snd].
      rewrite (split_at_sep comma id ts Hc1), (split_free comma ts Hc2).
      cbn [map]. rewrite Ht1, Ht2. reflexivity.
    - unfold takeout_line. cbn [fst snd]. rewrite free_of_app, Hq1.
      unfold free_of in *. cbn [list_ascii_of_string forallb]. rewrite Hq2.
      reflexivity. }
  rewrite Hline.
  change (parseCSVLine takeout_header)
    with ["Video ID"; "Playlist Video Creation Timestamp"].
  assert (Hnodup : NoDup ["Video ID"; "Playlist Video Creation Timestamp"]).
  { repeat constructor; rewrite ?list_elem_of_In; simpl; intuition discriminate. }
  set (row := fill_row ["Video ID"; "Playlist Video Creation Timestamp"]
                [id; ts] 0 ∅).
  assert (R1 : row !! "Video ID" = Some id)
    by (apply (fill_row_cell _ [id; ts] Hnodup 0 _ 0 ∅);
        [reflexivity|discriminate]).
  assert (R2 : row !! "Playlist Video Creation Timestamp" = Some ts)
    by (apply (fill_row_cell _ [id; ts] Hnodup 1 _ 0 ∅);
        [reflexivity|discriminate]).
  assert (Rother : forall k,
            ~ In k ["Video ID"; "Playlist Video Creation Timestamp"] ->
            row !! k = None).
  { intros k Hk. subst row. rewrite fill_row_other by exact Hk.
    apply lookup_empty. }
  assert (R3 : row !! "added_at" = None)
    by (apply Rother; simpl; intuition discriminate).
  assert (R4 : row !! "Added At" = None)
    by (apply Rother; simpl; intuition discriminate).
  unfold watchLater_row, watch_later_record. rewrite R1, R2, R3, R4.
  apply truthy_string_nonempty in Hne. unfold or_else. cbn [fst snd].
  rewrite !Hne.
  destruct (truthy_string ts) eqn:Hts; cbn [fst snd]; rewrite ?Hne, ?Hts;
    reflexivity.
Qed.

(** X14.  An export written from pairs of plain cells reads back as the
    pairs: when the identifiers are not empty and no cell holds a comma,
    a quote, a line feed or white space at its ends, the watch-later
    loader returns one record per pair, in order, with the identifier
    as [videoId] and the time stamp as [watchedAt] (none for an empty
    time stamp). *)
Theorem loadWatchLater_reads_takeout (entries : list (string * string)) :
  Forall (fun entry =>
            plain_cell (fst entry) /\ fst entry <> EmptyString
            /\ plain_cell (snd entry)) entries ->
  loadWatchLater (FileText (takeout_csv entries))
  = inr (map watch_later_record entries).
Proof.
  intros Hall. cbn [loadWatchLater]. f_equal.
  assert (Hsplit : split newline (takeout_csv entries)
                   = takeout_header :: map takeout_line entries).
  { unfold takeout_csv. apply split_join; [discriminate|].
    constructor; [reflexivity|]. rewrite Forall_forall. intros line Hline.
    apply list_elem_of_In, in_map_iff in Hline as (entry & <- & Hentry).
    rewrite Forall_forall in Hall.
    destruct (Hall entry ltac:(apply list_elem_of_In; exact Hentry))
      as ((_ & _ & Hn1 & _) & _ & (_ & _ & Hn2 & _)).
    change (free_of is_newline (takeout_line entry) = true).
    unfold takeout_line. rewrite free_of_app, Hn1.
    unfold free_of in *. cbn [list_ascii_of_string forallb]. rewrite Hn2.
    reflexivity. }
  assert (Hlines : nonblank_lines (takeout_csv entries)
                   = takeout_header :: map takeout_line entries).
  { unfold nonblank_lines. rewrite Hsplit. cbn [List.filter].
    change (truthy_string (trim takeout_header)) with true. cbn iota.
    f_equal. clear Hsplit. induction entries as [|entry entries IH];
      [reflexivity|].
    apply Forall_cons in Hall as [(Hp & Hne & _) Hall].
    cbn [map List.filter].
    destruct (trimmed_has_ink (fst entry)) as (c & Hin & Hc);
      [apply Hp|exact Hne|].
    rewrite (ink_is_not_blank (takeout_line entry) c); [|unfold takeout_line|exact Hc].
    - rewrite (IH Hall). reflexivity.
    - rewrite list_ascii_app. apply in_or_app. left. exact Hin. }
  unfold parseCSV. rewrite Hlines.
  destruct entries as [|entry entries]; [reflexivity|].
  change (map takeout_line (entry :: entries))
    with (takeout_line entry :: map takeout_line entries).
  cbn iota. clear Hsplit Hlines.
  change (takeout_line entry :: map takeout_line entries)
    with (map takeout_line (entry :: entries)).
  induction (entry :: entries) as [|e es IH]; [reflexivity|].
  apply Forall_cons in Hall as [(Hp1 & Hne & Hp2) Hall].
  cbn [map omap list_omap].
  change (list_omap _ _ watchLater_row) with (omap watchLater_row).
  rewrite (takeout_line_record e Hp1 Hne Hp2), (IH Hall). reflexivity.
Qed.

Lemma loadWatchLater_reads_takeout_witness :
  Forall (fun entry =>
            plain_cell (fst entry) /\ fst entry <> EmptyString
            /\ plain_cell (snd entry))
    [("9bZkp7q19f0", "2024-01-10T12:00:00Z"); ("abc123xyz99", "")]
  /\ loadWatchLater
       (FileText (takeout_csv [("9bZkp7q19f0", "2024-01-10T12:00:00Z");
                               ("abc123xyz99", "")]))
     = inr (map watch_later_record
              [("9bZkp7q19f0", "2024-01-10T12:00:00Z"); ("abc123xyz99", "")]).
Proof.
  assert (H1 : Forall (fun entry =>
                         plain_cell (fst entry) /\ fst entry <> EmptyString
                         /\ plain_cell (snd entry))
                 [("9bZkp7q19f0", "2024-01-10T12:00:00Z"); ("abc123xyz99", "")]).
  { repeat constructor; try discriminate; vm_compute; reflexivity. }
  split; [exact H1|].
  exact (loadWatchLater_reads_takeout _ H1).
Defined.

(** *** Merging, again *)

Lemma first_occurrences_sublist (l : list WatchHistoryMeta) :
  forall ids, sublist (first_occurrences ids l) l.
Proof.
  induction l as [|m l IH]; intros ids; [constructor|].
  cbn [first_occurrences].
  destruct (existsb (String.eqb (videoId m)) ids).
  - apply sublist_cons, IH.
  - apply sublist_skip, IH.
Qed.

Lemma first_occurrences_all (l : list WatchHistoryMeta) :
  forall ids,
    NoDup (map videoId l) ->
    (forall id, In id (map videoId l) -> ~ In id ids) ->
    first_occurrences ids l = l.
Proof.
  induction l as [|m l IH]; intros ids Hnd Hfresh; [reflexivity|].
  cbn [map] in Hnd. apply NoDup_cons in Hnd as [Hm Hnd].
  cbn [first_occurrences].
  destruct (existsb (String.eqb (videoId m)) ids) eqn:Hin.
  - apply existsb_eqb_In in Hin. exfalso.
    apply (Hfresh (videoId m)); [left; reflexivity|exact Hin].
  - f_equal. apply IH; [exact Hnd|]. intros id Hid Hin'.
    apply in_app_iff in Hin' as [Hin'|[<-|[]]].
    + apply (Hfresh id); [right; exact Hid|exact Hin'].
    + apply Hm, list_elem_of_In. exact Hid.
Qed.

Lemma first_occurrences_again (l : list WatchHistoryMeta) :
  forall ids,
    first_occurrences ids (first_occurrences ids l) = first_occurrences ids l.
Proof.
  induction l as [|m l IH]; intros ids; [reflexivity|].
  cbn [first_occurrences].
  destruct (existsb (String.eqb (videoId m)) ids) eqn:Hin; [apply IH|].
  cbn [first_occurrences]. rewrite Hin, IH. reflexivity.
Qed.

(** X15.  Merging can be done in steps: merging an earlier merge with
    further sources gives what merging all the sources at once gives.
    In particular merging a merged list again changes nothing. *)
Theorem mergeVideoSources_in_steps
    (earlier later : list (list WatchHistoryMeta)) :
  mergeVideoSources (mergeVideoSources earlier :: later)
  = mergeVideoSources (earlier ++ later)
  /\ mergeVideoSources [mergeVideoSources earlier] = mergeVideoSources earlier.
Proof.
  assert (Hsteps : forall later',
    mergeVideoSources (mergeVideoSources earlier :: later')
    = mergeVideoSources (earlier ++ later')).
  { intros later'. rewrite !mergeVideoSources_refines. cbn [concat].
    rewrite concat_app, !first_occurrences_app, first_occurrences_again.
    reflexivity. }
  split; [apply Hsteps|].
  rewrite (Hsteps []), app_nil_r. reflexivity.
Qed.

(** X16.  Merging keeps the order of the records: the merged list is
    the records of the sources laid end to end with some left out.
    Nothing is left out exactly when no identifier occurs twice. *)
Theorem mergeVideoSources_keeps_order (sources : list (list WatchHistoryMeta)) :
  sublist (mergeVideoSources sources) (concat sources)
  /\ (mergeVideoSources sources = concat sources
      <-> NoDup (map videoId (concat sources))).
Proof.
  rewrite mergeVideoSources_refines. split; [apply first_occurrences_sublist|].
  split.
  - intros Heq. rewrite <- Heq. apply first_occurrences_NoDup.
  - intros Hnd. apply first_occurrences_all; [exact Hnd|]. intros id _ [].
Qed.

End LoaderExtras.

(** ** The bulk command *)

Module CliExtras.
Import Processor Js Loaders Cli CliSpec Trace ProcessorFacts.

Lemma loadProcessedIds_returns `{Runtime} (f : File) :
  exists ids, loadProcessedIds f = inr ids.
Proof.
  unfold loadProcessedIds. destruct (loadProcessedIds_try f); eauto.
Qed.

(** The command passes no [skipIds] to the stream: the stream processes
    all it is given. *)
Lemma toProcess_stream_options (a : BulkArgs) (proxy : option string)
    (videos : list WatchHistoryMeta) :
  toProcess videos (stream_options a proxy) = videos.
Proof.
  unfold toProcess. induction videos as [|v videos IH]; [reflexivity|].
  cbn [List.filter]. rewrite IH.
  rewrite bool_decide_eq_false_2; [reflexivity|].
  unfold get_skipIds, stream_options. cbn. apply not_elem_of_empty.
Qed.

Lemma parseProxy_cases `{UrlProtocol} (a : BulkArgs) :
  (parseProxy (arg_proxy a) = inl 1 /\ bad_proxy a)
  \/ (parseProxy (arg_proxy a) = inr (proxy_in_use a) /\ ~ bad_proxy a).
Proof.
  unfold parseProxy, bad_proxy, proxy_in_use.
  destruct (arg_proxy a) as [url|]; [|right; split; [reflexivity|]].
  - destruct (truthy_string url) eqn:Ht; cbn [negb].
    + destruct (validateProxyUrl url) eqn:Hv; cbn [negb].
      * right. split; [reflexivity|]. intros (u & [= <-] & _ & Hbad). congruence.
      * left. split; [reflexivity|]. exists url.
        split; [reflexivity|]. split; [|exact Hv].
        apply LoaderFacts.truthy_string_nonempty. exact Ht.
    + right. split; [reflexivity|]. intros (u & [= <-] & Hne & _).
      apply LoaderFacts.truthy_string_nonempty in Hne. congruence.
  - intros (u & Hu & _). discriminate.
Qed.

Lemma concurrency_cases (a : BulkArgs) (proxy : option string) :
  (valid_concurrency a /\ 1 <= get_concurrency (stream_options a proxy))
  \/ (~ valid_concurrency a /\ get_concurrency (stream_options a proxy) < 1).
Proof.
  change (get_concurrency (stream_options a proxy))
    with (match arg_concurrency a with Num c => c | NaN => 0 end).
  unfold valid_concurrency. destruct (arg_concurrency a) as [|c].
  - right. split; [intros (c & Hc & _); discriminate|lia].
  - destruct (Z.le_gt_cases 1 c) as [Hc|Hc].
    + left. split; [exists c; split; [reflexivity|exact Hc]|exact Hc].
    + right. split; [intros (c' & [= <-] & Hc'); lia|lia].
Qed.

Lemma filter_partition_length {A} (f : A -> bool) (l : list A) :
  (length (List.filter f l) + length (List.filter (fun x => negb (f x)) l)
   = length l)%nat.
Proof.
  induction l as [|x l IH]; [reflexivity|].
  cbn [List.filter]. destruct (f x); cbn [negb length]; lia.
Qed.

Lemma tally_after_nothing (outCsv : bool) (t : Tally) :
  tally_after outCsv t [] [] = t.
Proof.
  unfold tally_after. cbn [List.filter length].
  rewrite !Nat.add_0_r, !app_nil_r. destruct t, outCsv; reflexivity.
Qed.

Lemma tally_after_counted (outCsv : bool) (t : Tally) (r : TranscriptResult) :
  tally_after outCsv t [r] [] = count_result t r.
Proof.
  unfold tally_after, count_result, has_transcript. cbn [List.filter].
  destruct (transcript r); cbn [negb length]; rewrite !app_nil_r;
    destruct outCsv; f_equal; lia.
Qed.

Lemma tally_after_kept (outCsv : bool) (t : Tally) (r : TranscriptResult)
    (counted kept : list TranscriptResult) :
  tally_after outCsv (keep_result outCsv (count_result t r) r) counted kept
  = tally_after outCsv t (r :: counted) (r :: kept).
Proof.
  unfold tally_after, keep_result, count_result, has_transcript.
  cbn [successCount failCount appended csvResults List.filter].
  destruct (transcript r), outCsv; cbn [negb length];
    rewrite <- ?app_assoc; cbn [app]; f_equal; lia.
Qed.

(** The loop over a stream: either every append succeeds, the whole
    trace happens and every result is counted and kept; or the append of
    some result throws, the trace stops after the attempt for that
    result, which is counted and not kept. *)
Lemma consume_stream `{Fetcher} `{Outputs} (o : BulkOptions) (outCsv : bool) :
  forall (tp : list WatchHistoryMeta) (k : Z) (t : Tally),
    let results := map (processOne (fetchOptions o)) tp in
    ((forall i r,
         results !! i = Some r ->
         appendJsonl (appended t ++ take i results) r = None)
     /\ consume outCsv (stream_loop o tp k) t
        = (None, stream_loop o tp k, tally_after outCsv t results results))
    \/ (exists i r thrown seen,
          results !! i = Some r
          /\ appendJsonl (appended t ++ take i results) r = Some thrown
          /\ consume outCsv (stream_loop o tp k) t
             = (Some thrown, seen,
                tally_after outCsv t (take (S i) results) (take i results))
          /\ starts seen = take (S i) tp).
Proof.
  induction tp as [|m rest IH]; intros k t results.
  - left. split; [intros i r Hi; destruct i; discriminate|].
    subst results. cbn [map stream_loop consume].
    rewrite tally_after_nothing. reflexivity.
  - set (r := processOne (fetchOptions o) m).
    set (results' := map (processOne (fetchOptions o)) rest).
    assert (Hresults : results = r :: results') by reflexivity.
    clearbody results. subst results.
    assert (Hloop : exists pause k',
              stream_loop o (m :: rest) k
              = EvStart m :: EvDone r :: EvYield r
                  :: pause ++ stream_loop o rest k'
              /\ (pause = [] \/ exists d, pause = [EvSleep d])).
    { cbn [stream_loop]. fold r.
      destruct (get_pauseAfter o <=? k + 1).
      - destruct (0 <? get_pauseDuration o).
        + exists [EvSleep (get_pauseDuration o)], 0. split; [reflexivity|].
          right. eauto.
        + exists [], 0. split; [reflexivity|]. left. reflexivity.
      - exists [], (k + 1). split; [reflexivity|]. left. reflexivity. }
    destruct Hloop as (pause & k' & -> & Hpause).
    cbn [consume].
    destruct (appendJsonl (appended t) r) as [thrown|] eqn:Happend.
    + right. exists 0%nat, r, thrown, [EvStart m; EvDone r; EvYield r].
      split; [reflexivity|]. cbn [take]. rewrite app_nil_r.
      split; [exact Happend|]. split; [|reflexivity].
      rewrite tally_after_counted. reflexivity.
    + set (t2 := keep_result outCsv (count_result t r) r).
      assert (Hskip : consume outCsv (pause ++ stream_loop o rest k') t2
                      = let '(thrown, seen, t') :=
                          consume outCsv (stream_loop o rest k') t2 in
                        (thrown, pause ++ seen, t')).
      { destruct Hpause as [->|(d & ->)]; cbn [app consume].
        - destruct (consume outCsv (stream_loop o rest k') t2) as [[? ?] ?].
          reflexivity.
        - reflexivity. }
      rewrite Hskip.
      assert (Happ2 : appended t2 = appended t ++ [r]) by reflexivity.
      destruct (IH k' t2) as [[Hall Hrun]|(i & r' & thrown & seen & Hi & Hfail & Hrun & Hstarts)].
      * left. split.
        -- intros [|i] r0 Hi.
           ++ injection Hi as <-. cbn [take]. rewrite app_nil_r. exact Happend.
           ++ cbn [take]. specialize (Hall i r0 Hi). rewrite Happ2 in Hall.
              rewrite <- app_assoc in Hall. exact Hall.
        -- cbv zeta in Hrun. fold results' in Hrun. rewrite Hrun.
           subst t2. rewrite tally_after_kept. reflexivity.
      * right. exists (S i), r', thrown,
          (EvStart m :: EvDone r :: EvYield r :: pause ++ seen).
        fold results' in Hi, Hfail, Hrun.
        split; [exact Hi|]. split.
        { cbn [take]. rewrite Happ2, <- app_assoc in Hfail. exact Hfail. }
        split.
        { rewrite Hrun. subst t2. rewrite tally_after_kept. reflexivity. }
        { unfold starts in *. cbn [omap list_omap].
          change (list_omap _ _ ?f) with (omap f).
          rewrite omap_app, Hstarts.
          destruct Hpause as [->|(d & ->)]; reflexivity. }
Qed.

(** The ways a run of the command goes. *)
Lemma bulk_shape `{Fetcher} `{Runtime} `{UrlProtocol} `{Outputs} (a : BulkArgs) :
  (gather_sources a = [] /\ bulk a = stopped (Exited 1))
  \/ (gather_sources a <> [] /\ remaining a = [] /\ bulk a = stopped Finished)
  \/ (remaining a <> [] /\ bad_proxy a /\ bulk a = stopped (Exited 1))
  \/ (remaining a <> [] /\ ~ bad_proxy a /\ ~ valid_concurrency a
      /\ exists t, bulk a = stopped (Crashed t))
  \/ (remaining a <> [] /\ ~ bad_proxy a /\ valid_concurrency a
      /\ exists i r thrown seen,
          results_due a !! i = Some r
          /\ appendJsonl (take i (results_due a)) r = Some thrown
          /\ starts seen = take (S i) (remaining a)
          /\ bulk a
             = {| run_end := Crashed thrown;
                  run_trace := seen;
                  run_tally :=
                    tally_after (arg_outCsv a) no_tally
                      (take (S i) (results_due a)) (take i (results_due a));
                  run_writeCsv := None |})
  \/ (remaining a <> [] /\ ~ bad_proxy a /\ valid_concurrency a
      /\ appends_succeed (results_due a)
      /\ exists trace,
          starts trace = remaining a
          /\ bulk a
             = {| run_end :=
                    if arg_outCsv a
                    then match writeCsv (results_due a) (arg_resume a) with
                         | Some thrown => Crashed thrown
                         | None => Finished
                         end
                    else Finished;
                  run_trace := trace;
                  run_tally :=
                    tally_after (arg_outCsv a) no_tally
                      (results_due a) (results_due a);
                  run_writeCsv :=
                    if arg_outCsv a
                    then Some (results_due a, arg_resume a)
                    else None |}).
Proof.
  unfold bulk, results_due, appends_succeed, remaining, logged.
  destruct (gather_sources a) as [|src sources] eqn:Hsrc; [left; split; reflexivity|].
  right.
  set (skip := if arg_resume a
               then match loadProcessedIds (arg_outJsonl a) with
                    | inr ids => ids
                    | inl _ => []
                    end
               else []).
  assert (Hskip : (if arg_resume a then loadProcessedIds (arg_outJsonl a)
                   else inr []) = inr skip).
  { subst skip. destruct (arg_resume a); [|reflexivity].
    destruct (loadProcessedIds_returns (arg_outJsonl a)) as (ids & ->).
    reflexivity. }
  rewrite Hskip.
  set (left := List.filter (fun v => negb (set_has skip (videoId v)))
                 (mergeVideoSources (src :: sources))).
  destruct left as [|v vs] eqn:Hleft; [left; repeat split; discriminate|].
  right.
  destruct (parseProxy_cases a) as [[-> Hbad]|[-> Hgood]];
    [left; repeat split; [discriminate|exact Hbad]|].
  right.
  unfold streamVideos. rewrite toProcess_stream_options. unfold pLimit.
  destruct (concurrency_cases a (proxy_in_use a)) as [[Hvalid Hc]|[Hinvalid Hc]].
  - right. apply Z.leb_le in Hc. rewrite Hc.
    set (o := stream_options a (proxy_in_use a)).
    change {| languages := Some (split comma (arg_lang a)); timeout := None;
              proxy := proxy_in_use a |} with (fetchOptions o).
    destruct (consume_stream o (arg_outCsv a) (v :: vs) 0 no_tally)
      as [[Hall Hrun]|(i & r & thrown & seen & Hi & Hfail & Hrun & Hstarts)].
    + right. split; [discriminate|]. split; [exact Hgood|].
      split; [exact Hvalid|]. split; [exact Hall|].
      exists (stream_loop o (v :: vs) 0).
      split; [apply stream_loop_spec|].
      cbv zeta in Hrun. rewrite Hrun. unfold write_csv.
      destruct (arg_outCsv a); reflexivity.
    + left. split; [discriminate|]. split; [exact Hgood|].
      split; [exact Hvalid|].
      exists i, r, thrown, seen. split; [exact Hi|]. split; [exact Hfail|].
      split; [exact Hstarts|]. rewrite Hrun. reflexivity.
  - left. apply Z.leb_gt in Hc. rewrite Hc.
    split; [discriminate|]. split; [exact Hgood|]. split; [exact Hinvalid|].
    eexists. reflexivity.
Qed.

Lemma results_due_length `{Fetcher} `{Runtime} (a : BulkArgs) :
  length (results_due a) = length (remaining a).
Proof. unfold results_due. apply length_map. Qed.

Lemma results_due_meta `{Fetcher} `{Runtime} (a : BulkArgs) :
  map meta (results_due a) = remaining a.
Proof.
  unfold results_due. rewrite map_map. induction (remaining a) as [|m l IH];
    [reflexivity|].
  cbn [map]. rewrite processOne_meta, IH. reflexivity.
Qed.

Lemma remaining_needs_sources `{Runtime} (a : BulkArgs) :
  remaining a <> [] -> gather_sources a <> [].
Proof.
  intros Hleft Hnone. apply Hleft. unfold remaining. rewrite Hnone. reflexivity.
Qed.

(** X17.  When something is left to process, the proxy (if any) is
    acceptable, the concurrency is at least one and the writers do not
    fail on the results of the run, the command finishes after fetching
    the remaining videos in order, one attempt each.  It appends one
    result per remaining video to the log, in that order; its two
    counters are the numbers of results with and without a transcript
    and add up to the number of remaining videos; with [--out-csv] it
    writes all the results to the CSV at the end, in append mode exactly
    when resuming. *)
Theorem bulk_logs_every_remaining_video
    `{Fetcher} `{Runtime} `{UrlProtocol} `{Outputs} (a : BulkArgs) :
  remaining a <> [] -> ~ bad_proxy a -> valid_concurrency a ->
  appends_succeed (results_due a) -> csv_succeeds a (results_due a) ->
  let run := bulk a in
  let results :=
    map (processOne {| languages := Some (split comma (arg_lang a));
                       timeout := None;
                       proxy := proxy_in_use a |}) (remaining a) in
  run_end run = Finished
  /\ starts (run_trace run) = remaining a
  /\ appended (run_tally run) = results
  /\ successCount (run_tally run) = length (List.filter has_transcript results)
  /\ failCount (run_tally run)
     = length (List.filter (fun r => negb (has_transcript r)) results)
  /\ (successCount (run_tally run) + failCount (run_tally run)
      = length (remaining a))%nat
  /\ run_writeCsv run
     = if arg_outCsv a then Some (results, arg_resume a) else None.
Proof.
  intros Hleft Hgood Hvalid Happends Hcsv run results. subst run.
  change results with (results_due a). clear results.
  destruct (bulk_shape a)
    as [[Hsrc _]|[(_ & Hnone & _)|[(_ & Hbad & _)|[(_ & _ & Hinvalid & _)
        |[(_ & _ & _ & i & r & thrown & seen & Hi & Hfail & _)
         |(_ & _ & _ & _ & trace & Hstarts & ->)]]]]].
  - exfalso. exact (remaining_needs_sources a Hleft Hsrc).
  - contradiction.
  - contradiction.
  - contradiction.
  - rewrite (Happends i r Hi) in Hfail. discriminate.
  - cbn [run_end run_trace run_tally run_writeCsv tally_after successCount
         failCount appended no_tally app Nat.add].
    assert (Hne : results_due a <> []).
    { intros Hnil. apply Hleft. rewrite <- results_due_meta, Hnil. reflexivity. }
    split.
    { destruct (arg_outCsv a) eqn:Hout; [|reflexivity].
      rewrite (Hcsv Hout Hne). reflexivity. }
    split; [exact Hstarts|]. repeat split.
    rewrite filter_partition_length. apply results_due_length.
Qed.

Lemma bulk_logs_every_remaining_video_witness :
  @remaining Fixture.runtime Fixture.bulk_args <> []
  /\ ~ @bad_proxy Fixture.url_protocol Fixture.bulk_args
  /\ valid_concurrency Fixture.bulk_args
  /\ @appends_succeed Fixture.outputs
       (@results_due Fixture.fetcher Fixture.runtime Fixture.bulk_args)
  /\ @csv_succeeds Fixture.outputs Fixture.bulk_args
       (@results_due Fixture.fetcher Fixture.runtime Fixture.bulk_args)
  /\ run_end (@bulk Fixture.fetcher Fixture.runtime Fixture.url_protocol
                Fixture.outputs Fixture.bulk_args) = Finished
  /\ map (fun r => videoId (meta r))
       (appended (run_tally (@bulk Fixture.fetcher Fixture.runtime
                               Fixture.url_protocol Fixture.outputs
                               Fixture.bulk_args)))
     = ["dQw4w9WgXcQ"; "abc"; "jNQXAC9IVRw"].
Proof.
  assert (H1 : @remaining Fixture.runtime Fixture.bulk_args <> [])
    by (vm_compute; discriminate).
  assert (H2 : ~ @bad_proxy Fixture.url_protocol Fixture.bulk_args).
  { intros (url & Hurl & _ & Hbad). injection Hurl as <-.
    vm_compute in Hbad. discriminate. }
  assert (H3 : valid_concurrency Fixture.bulk_args)
    by (exists 4; split; [reflexivity|lia]).
  assert (H4 : @appends_succeed Fixture.outputs
                 (@results_due Fixture.fetcher Fixture.runtime Fixture.bulk_args))
    by (intros k r _; reflexivity).
  assert (H5 : @csv_succeeds Fixture.outputs Fixture.bulk_args
                 (@results_due Fixture.fetcher Fixture.runtime Fixture.bulk_args))
    by (intros _ _; reflexivity).
  split; [exact H1|]. split; [exact H2|]. split; [exact H3|].
  split; [exact H4|]. split; [exact H5|].
  destruct (@bulk_logs_every_remaining_video Fixture.fetcher Fixture.runtime
              Fixture.url_protocol Fixture.outputs Fixture.bulk_args
              H1 H2 H3 H4 H5)
    as (Hend & _ & Happ & _).
  split; [exact Hend|]. rewrite Happ. vm_compute. reflexivity.
Defined.

Lemma logged_is_skipped (ids : list json) (id : string) :
  In (JStr id) ids -> set_has ids id = true.
Proof.
  intros Hin. unfold set_has. apply existsb_exists.
  exists (JStr id). split; [exact Hin|]. cbn. apply String.eqb_refl.
Qed.

Lemma In_take {A} (n : nat) (l : list A) (x : A) : In x (take n l) -> In x l.
Proof.
  intros Hin. rewrite <- (take_drop n l). apply in_or_app. left. exact Hin.
Qed.

(** X18.  A resumed run never fetches a video whose identifier is in
    the log, and appends no second result for it. *)
Theorem bulk_resume_skips_logged
    `{Fetcher} `{Runtime} `{UrlProtocol} `{Outputs}
    (a : BulkArgs) (ids : list json) (m : WatchHistoryMeta) :
  arg_resume a = true -> loadProcessedIds (arg_outJsonl a) = inr ids ->
  In (JStr (videoId m)) ids ->
  ~ In (EvStart m) (run_trace (bulk a))
  /\ ~ In m (map meta (appended (run_tally (bulk a)))).
Proof.
  intros Hresume Hids Hin.
  assert (Hno : ~ In m (remaining a)).
  { unfold remaining, logged. rewrite Hresume, Hids. intros Hm.
    apply filter_In in Hm as [_ Hm].
    rewrite (logged_is_skipped ids (videoId m) Hin) in Hm. discriminate. }
  destruct (bulk_shape a)
    as [[_ ->]|[(_ & _ & ->)|[(_ & _ & ->)|[(_ & _ & _ & t & ->)
        |[(_ & _ & _ & i & r & thrown & seen & _ & _ & Hstarts & ->)
         |(_ & _ & _ & _ & trace & Hstarts & ->)]]]]];
    try (split; intros []);
    cbn [run_trace run_tally tally_after appended no_tally app]; split.
  - intros Hstart. apply ProcessorExtras.In_EvStart_starts in Hstart.
    rewrite Hstarts in Hstart. exact (Hno (In_take _ _ _ Hstart)).
  - intros Hm. apply in_map_iff in Hm as (x & Hx & Hxin).
    apply In_take in Hxin. apply Hno. rewrite <- results_due_meta.
    apply in_map_iff. exists x. split; assumption.
  - intros Hstart. apply ProcessorExtras.In_EvStart_starts in Hstart.
    rewrite Hstarts in Hstart. exact (Hno Hstart).
  - rewrite results_due_meta. exact Hno.
Qed.

Lemma bulk_resume_skips_logged_witness :
  arg_resume Fixture.bulk_args = true
  /\ @loadProcessedIds Fixture.runtime (arg_outJsonl Fixture.bulk_args)
     = inr [JStr "good1"; JStr "good2"; JStr "processed03"]
  /\ In (JStr (videoId (Fixture.candidate "processed03" manual)))
       [JStr "good1"; JStr "good2"; JStr "processed03"]
  /\ ~ In (EvStart (Fixture.candidate "processed03" manual))
         (run_trace (@bulk Fixture.fetcher Fixture.runtime Fixture.url_protocol
                       Fixture.outputs Fixture.bulk_args))
  /\ ~ In (Fixture.candidate "processed03" manual)
         (map meta
            (appended (run_tally (@bulk Fixture.fetcher Fixture.runtime
                                    Fixture.url_protocol Fixture.outputs
                                    Fixture.bulk_args)))).
Proof.
  assert (H1 : arg_resume Fixture.bulk_args = true) by reflexivity.
  assert (H2 : @loadProcessedIds Fixture.runtime (arg_outJsonl Fixture.bulk_args)
               = inr [JStr "good1"; JStr "good2"; JStr "processed03"])
    by (vm_compute; reflexivity).
  assert (H3 : In (JStr (videoId (Fixture.candidate "processed03" manual)))
                 [JStr "good1"; JStr "good2"; JStr "processed03"])
    by (right; right; left; reflexivity).
  split; [exact H1|]. split; [exact H2|]. split; [exact H3|].
  exact (@bulk_resume_skips_logged Fixture.fetcher Fixture.runtime
           Fixture.url_protocol Fixture.outputs Fixture.bulk_args _ _ H1 H2 H3).
Defined.

(** X19.  How the command ends.  It never hangs, and exits with no
    status but 1.  It exits exactly when no source could be loaded, or
    when something is left to process and the proxy is not acceptable.
    It finishes exactly when a source was loaded and either nothing is
    left to process, or the proxy is acceptable, the concurrency reads
    as an integer of at least one, every append to the log succeeds and
    so does the writing of the CSV if it is asked for.  In every other
    case with something left to process and an acceptable proxy it ends
    with an exception.  So an unacceptable proxy goes unnoticed when
    nothing is left to process. *)
Theorem bulk_end_classified
    `{Fetcher} `{Runtime} `{UrlProtocol} `{Outputs} (a : BulkArgs) :
  run_end (bulk a) <> Hung
  /\ (forall code, run_end (bulk a) = Exited code -> code = 1)
  /\ (run_end (bulk a) = Exited 1
      <-> gather_sources a = [] \/ (remaining a <> [] /\ bad_proxy a))
  /\ (run_end (bulk a) = Finished
      <-> gather_sources a <> []
          /\ (remaining a = []
              \/ ((~ bad_proxy a) /\ valid_concurrency a
                  /\ appends_succeed (results_due a)
                  /\ csv_succeeds a (results_due a))))
  /\ ((exists t, run_end (bulk a) = Crashed t)
      <-> remaining a <> [] /\ (~ bad_proxy a)
          /\ ~ (valid_concurrency a /\ appends_succeed (results_due a)
                /\ csv_succeeds a (results_due a))).
Proof.
  pose proof (remaining_needs_sources a) as Hsrc.
  destruct (bulk_shape a)
    as [[Hnone ->]|[(Hsome & Hdone & ->)|[(Hleft & Hbad & ->)
        |[(Hleft & Hgood & Hinvalid & t & ->)
         |[(Hleft & Hgood & Hvalid & i & r & thrown & seen & Hi & Hfail & _ & ->)
          |(Hleft & Hgood & Hvalid & Happends & trace & _ & ->)]]]]];
    cbn [run_end stopped].
  - split; [discriminate|]. split; [intros code [= <-]; reflexivity|].
    split; [split; [left; exact Hnone|reflexivity]|].
    split; [split; [discriminate|intros [Hsome _]; contradiction]|].
    split; [intros [t Ht]; discriminate|].
    intros (Hleft & _). exfalso. exact (Hsrc Hleft Hnone).
  - split; [discriminate|]. split; [discriminate|].
    split; [split; [discriminate|intros [Hnone|[Hleft _]]; contradiction]|].
    split; [split; [intros _; split; [exact Hsome|left; exact Hdone]|reflexivity]|].
    split; [intros [t Ht]; discriminate|]. intros (Hleft & _). contradiction.
  - split; [discriminate|]. split; [intros code [= <-]; reflexivity|].
    split; [split; [right; split; assumption|reflexivity]|].
    split; [split; [discriminate|]|].
    + intros (_ & [Hdone|[Hgood _]]); contradiction.
    + split; [intros [t Ht]; discriminate|]. intros (_ & Hgood & _). contradiction.
  - split; [discriminate|]. split; [discriminate|].
    split; [split; [discriminate|]|].
    + intros [Hnone|[_ Hbad]]; [exfalso; exact (Hsrc Hleft Hnone)|contradiction].
    + split; [split; [discriminate|]|].
      * intros (_ & [Hdone|(_ & Hvalid & _)]); contradiction.
      * split; [intros _|intros _; eauto].
        split; [exact Hleft|]. split; [exact Hgood|].
        intros (Hvalid & _). contradiction.
  - assert (Hnot : ~ appends_succeed (results_due a)).
    { intros Happends. rewrite (Happends i r Hi) in Hfail. discriminate. }
    split; [discriminate|]. split; [discriminate|].
    split; [split; [discriminate|]|].
    + intros [Hnone|[_ Hbad]]; [exfalso; exact (Hsrc Hleft Hnone)|contradiction].
    + split; [split; [discriminate|]|].
      * intros (_ & [Hdone|(_ & _ & Happends & _)]); contradiction.
      * split; [intros _|intros _; eauto].
        split; [exact Hleft|]. split; [exact Hgood|].
        intros (_ & Happends & _). contradiction.
  - assert (Hne : results_due a <> []).
    { intros Hnil. apply Hleft. rewrite <- results_due_meta, Hnil. reflexivity. }
    assert (Hend : (if arg_outCsv a
                    then match writeCsv (results_due a) (arg_resume a) with
                         | Some thrown => Crashed thrown
                         | None => Finished
                         end
                    else Finished) = Finished
                   /\ csv_succeeds a (results_due a)
                   \/ (exists thrown,
                         (if arg_outCsv a
                          then match writeCsv (results_due a) (arg_resume a) with
                               | Some thrown => Crashed thrown
                               | None => Finished
                               end
                          else Finished) = Crashed thrown)
                      /\ ~ csv_succeeds a (results_due a)).
    { unfold csv_succeeds. destruct (arg_outCsv a) eqn:Hout.
      - destruct (writeCsv (results_due a) (arg_resume a)) as [thrown|] eqn:Hw.
        + right. split; [eauto|]. intros Hcsv.
          specialize (Hcsv eq_refl Hne). discriminate.
        + left. split; [reflexivity|]. intros _ _. reflexivity.
      - left. split; [reflexivity|]. intros Habs. discriminate. }
    destruct Hend as [[-> Hcsv]|[(thrown & ->) Hcsv]].
    + split; [discriminate|]. split; [discriminate|].
      split; [split; [discriminate|]|].
      * intros [Hnone|[_ Hbad]]; [exfalso; exact (Hsrc Hleft Hnone)|contradiction].
      * split; [split; [intros _|reflexivity]|].
        -- split; [exact (Hsrc Hleft)|]. right. repeat split; assumption.
        -- split; [intros [t Ht]; discriminate|]. intros (_ & _ & Hnot).
           exfalso. apply Hnot. repeat split; assumption.
    + split; [discriminate|]. split; [discriminate|].
      split; [split; [discriminate|]|].
      * intros [Hnone|[_ Hbad]]; [exfalso; exact (Hsrc Hleft Hnone)|contradiction].
      * split; [split; [discriminate|]|].
        -- intros (_ & [Hdone|(_ & _ & _ & Hcsv')]); contradiction.
        -- split; [intros _|intros _; eauto].
           split; [exact Hleft|]. split; [exact Hgood|].
           intros (_ & _ & Hcsv'). contradiction.
Qed.

(** X20.  The log keeps in step with the fetches, however the run
    ends.  The results appended are those of the first remaining videos,
    in order, and the videos fetched are those very videos, or those and
    the next one when the run ends with an exception (the result whose
    append failed is lost).  A run that exits has fetched and appended
    nothing; a run that finishes has appended the results of all the
    remaining videos; and the CSV is written only after that, with all
    the results and in append mode exactly when resuming. *)
Theorem bulk_keeps_log_in_step
    `{Fetcher} `{Runtime} `{UrlProtocol} `{Outputs} (a : BulkArgs) :
  exists n,
    appended (run_tally (bulk a)) = take n (results_due a)
    /\ (starts (run_trace (bulk a)) = take n (remaining a)
        \/ (starts (run_trace (bulk a)) = take (S n) (remaining a)
            /\ exists t, run_end (bulk a) = Crashed t))
    /\ (forall code,
          run_end (bulk a) = Exited code ->
          run_trace (bulk a) = [] /\ appended (run_tally (bulk a)) = [])
    /\ (run_end (bulk a) = Finished ->
        appended (run_tally (bulk a)) = results_due a)
    /\ (forall rs append,
          run_writeCsv (bulk a) = Some (rs, append) ->
          rs = results_due a /\ append = arg_resume a
          /\ appended (run_tally (bulk a)) = results_due a).
Proof.
  destruct (bulk_shape a)
    as [[Hnone ->]|[(Hsome & Hdone & ->)|[(Hleft & Hbad & ->)
        |[(Hleft & Hgood & Hinvalid & t & ->)
         |[(Hleft & Hgood & Hvalid & i & r & thrown & seen & Hi & Hfail
            & Hstarts & ->)
          |(Hleft & Hgood & Hvalid & Happends & trace & Hstarts & ->)]]]]];
    cbn [run_end run_trace run_tally run_writeCsv stopped tally_after appended
         no_tally app].
  - exists 0%nat. split; [reflexivity|]. split; [left; reflexivity|].
    split; [intros code _; split; reflexivity|].
    split; [discriminate|]. discriminate.
  - exists 0%nat. split; [reflexivity|]. split; [left; reflexivity|].
    split; [intros code _; split; reflexivity|].
    split; [|discriminate]. intros _. unfold results_due. rewrite Hdone.
    reflexivity.
  - exists 0%nat. split; [reflexivity|]. split; [left; reflexivity|].
    split; [intros code _; split; reflexivity|].
    split; [discriminate|]. discriminate.
  - exists 0%nat. split; [reflexivity|]. split; [left; reflexivity|].
    split; [discriminate|]. split; [discriminate|]. discriminate.
  - exists i. split; [reflexivity|].
    split; [right; split; [exact Hstarts|eauto]|].
    split; [discriminate|]. split; [discriminate|]. discriminate.
  - exists (length (results_due a)).
    split; [symmetry; apply firstn_all|].
    split; [left; rewrite results_due_length, Hstarts; symmetry; apply firstn_all|].
    split.
    { intros code Hend. exfalso.
      destruct (arg_outCsv a); [|discriminate].
      destruct (writeCsv (results_due a) (arg_resume a)); discriminate. }
    split; [reflexivity|].
    intros rs append Hcall. destruct (arg_outCsv a); [|discriminate].
    injection Hcall as <- <-. repeat split.
Qed.

(** The run of the fixture when the log takes one record and no more:
    two videos are fetched, one result is in the log, and the command
    ends with the exception of the second append. *)
Example bulk_on_full_disk :
  run_end (@bulk Fixture.fetcher Fixture.runtime Fixture.url_protocol
             Fixture.full_disk Fixture.bulk_args)
  = Crashed (ThrownError "ENOSPC")
  /\ map videoId
       (starts (run_trace (@bulk Fixture.fetcher Fixture.runtime
                             Fixture.url_protocol Fixture.full_disk
                             Fixture.bulk_args)))
     = ["dQw4w9WgXcQ"; "abc"]
  /\ map (fun r => videoId (meta r))
       (appended (run_tally (@bulk Fixture.fetcher Fixture.runtime
                               Fixture.url_protocol Fixture.full_disk
                               Fixture.bulk_args)))
     = ["dQw4w9WgXcQ"].
Proof. vm_compute. repeat split. Qed.

(** X21.  Given nothing but [--videos] with a list none of whose
    entries the identifier resolver accepts, the command does not
    complain: the empty list counts as a source, nothing is left to
    process, and the command finishes without fetching anything. *)
Theorem bulk_with_unusable_videos
    `{Fetcher} `{Runtime} `{UrlProtocol} `{Outputs}
    (a : BulkArgs) (videos : string) :
  arg_history a = None -> arg_watchLater a = None -> arg_file a = None ->
  arg_videos a = Some videos -> videos <> EmptyString ->
  Forall (fun input => extractVideoId input = None) (videos_option videos) ->
  bulk a = stopped Finished.
Proof.
  intros Hh Hw Hf Hv Hne Hall.
  assert (Hnone : fromVideoIds (videos_option videos) = []).
  { unfold fromVideoIds. induction Hall as [|input inputs Hinput _ IH];
      [reflexivity|].
    cbn [omap list_omap]. unfold fromVideoIds_one at 1. rewrite Hinput.
    exact IH. }
  assert (Hsrc : gather_sources a = [[]]).
  { unfold gather_sources, history_source, watchLater_source, videos_source,
      file_source.
    rewrite Hh, Hw, Hf, Hv.
    apply LoaderFacts.truthy_string_nonempty in Hne. rewrite Hne, Hnone.
    reflexivity. }
  destruct (bulk_shape a)
    as [[Habs _]|[(_ & _ & ->)|[(Hleft & _)|[(Hleft & _)|[(Hleft & _)
        |(Hleft & _)]]]]];
    [rewrite Hsrc in Habs; discriminate|reflexivity|..];
    exfalso; apply Hleft; unfold remaining; rewrite Hsrc; reflexivity.
Qed.

Lemma bulk_with_unusable_videos_witness :
  arg_history Fixture.bulk_args_unusable = None
  /\ arg_watchLater Fixture.bulk_args_unusable = None
  /\ arg_file Fixture.bulk_args_unusable = None
  /\ arg_videos Fixture.bulk_args_unusable = Some "invalid, also invalid"
  /\ "invalid, also invalid" <> EmptyString
  /\ Forall (fun input => @extractVideoId Fixture.runtime input = None)
       (videos_option "invalid, also invalid")
  /\ @bulk Fixture.fetcher Fixture.runtime Fixture.url_protocol Fixture.outputs
       Fixture.bulk_args_unusable = stopped Finished.
Proof.
  assert (H5 : "invalid, also invalid" <> EmptyString) by discriminate.
  assert (H6 : Forall (fun input => @extractVideoId Fixture.runtime input = None)
                 (videos_option "invalid, also invalid"))
    by (repeat constructor).
  repeat (split; [first [reflexivity|assumption]|]).
  exact (@bulk_with_unusable_videos Fixture.fetcher Fixture.runtime
           Fixture.url_protocol Fixture.outputs Fixture.bulk_args_unusable _
           eq_refl eq_refl eq_refl eq_refl H5 H6).
Defined.

End CliExtras.
